(** * Room lifecycle, cleaning-session timer and broadcast fan-out

    A shallow embedding of the server of the hotel housekeeping application
    (shared/schema.ts, server/storage.ts, server/routes.ts,
    server/replitAuth.ts) and of the client mutations that drive the
    cleaning timer (client/src/components/room-card.tsx, timer-widget.tsx).

    Conventions.
    - Instants (JavaScript [Date], SQL [timestamp]) are integers, the number
      of milliseconds since the epoch.  JSON has no [Date]: in a request
      body an instant travels as the string [toISOString] gives, and it
      becomes an instant again only where a schema converts it.
    - SQL [integer] columns hold 32-bit values; a value outside that range
      is refused by the database.
    - A table is the list of its rows in insertion order.  The constraints
      that shared/schema.ts declares (primary keys, foreign keys, the
      [room_status] enum, ...) are checked by the operations that write,
      and a violated constraint is a thrown [DbError], as with the driver.
    - Values the environment supplies (the clocks, the identifier that
      [gen_random_uuid()] draws, the answer of the identity provider) are
      gathered in [Env]. *)

From stdpp Require Import base option list strings gmap pretty sorting.
From Stdlib Require Import ZArith Lia.

Local Open Scope string_scope.
Local Open Scope list_scope.

(** ** shared/schema.ts *)

Module Schema.

(** [pgEnum] declarations. *)
Definition roomStatusEnum : list string :=
  ["dirty"; "cleaning"; "inspection"; "clean"; "occupied"].
Definition roomTypeEnum : list string := ["standard"; "deluxe"; "suite"].
Definition userRoleEnum : list string := ["manager"; "housekeeper"; "supervisor"].
Definition priorityEnum : list string := ["baixa"; "media"; "alta"; "urgente"].
Definition problemTypeEnum : list string :=
  ["eletrico"; "hidraulico"; "ar_condicionado"; "moveis"; "eletronicos";
   "limpeza_especial"; "outros"].

(** A nullable column is an [option]; [None] is SQL [NULL]. *)
Record User := {
  user_id : string;
  user_name : option string;
  user_email : option string;
  user_firstName : option string;
  user_lastName : option string;
  user_profileImageUrl : option string;
  user_role : string;
  user_createdAt : option Z;
  user_updatedAt : option Z }.

Record Room := {
  room_id : string;
  room_number : string;
  room_floor : Z;
  room_type : string;
  room_status : string;
  room_assignedTo : option string;
  room_lastCleaned : option Z;
  room_priority : option string;
  room_createdAt : option Z;
  room_updatedAt : option Z }.

Record CleaningSession := {
  cs_id : string;
  cs_roomId : string;
  cs_housekeeperId : string;
  cs_startTime : Z;
  cs_endTime : option Z;
  cs_pausedTime : option Z;      (* in seconds *)
  cs_totalTime : option Z;       (* in seconds *)
  cs_status : string;            (* active, paused, completed *)
  cs_createdAt : option Z }.

Record ChecklistTemplate := {
  ct_id : string;
  ct_name : string;
  ct_items : string;             (* jsonb, kept as its text *)
  ct_createdAt : option Z }.

Record ChecklistCompletion := {
  cc_id : string;
  cc_roomId : string;
  cc_templateId : string;
  cc_housekeeperId : string;
  cc_supervisorId : option string;
  cc_completedItems : string;    (* jsonb *)
  cc_supervisorSignature : option string;
  cc_isCompleted : option bool;
  cc_completedAt : option Z;
  cc_createdAt : option Z }.

Record ProblemReport := {
  pr_id : string;
  pr_roomId : string;
  pr_reportedBy : string;
  pr_type : string;
  pr_priority : string;
  pr_description : string;
  pr_location : option string;
  pr_photos : option string;     (* jsonb *)
  pr_status : string;            (* reported, in_progress, resolved *)
  pr_resolvedBy : option string;
  pr_resolvedAt : option Z;
  pr_createdAt : option Z }.

#[export] Instance User_eq_dec : EqDecision User.
Proof. solve_decision. Defined.
#[export] Instance Room_eq_dec : EqDecision Room.
Proof. solve_decision. Defined.
#[export] Instance CleaningSession_eq_dec : EqDecision CleaningSession.
Proof. solve_decision. Defined.

(** The value a request body carries under the key of a timestamp column,
    when it is not [null]: the string [date.toISOString()] of an instant.
    It is a string, not a [Date]; other strings and numbers, which the
    server treats alike wherever nothing converts them, are outside the
    model. *)
Inductive JsonDate := toISOString (t : Z).

#[global] Instance JsonDate_eq_dec : EqDecision JsonDate.
Proof. solve_decision. Defined.

Definition is_string {A} (v : option (option A)) : bool :=
  match v with
  | Some (Some _) => true
  | _ => false
  end.

Definition present {A} (v : option A) : bool :=
  match v with
  | Some _ => true
  | None => false
  end.

(** [z.date()], what [createInsertSchema] derives for a timestamp column:
    since JSON delivers no [Date], the key passes when it is absent or,
    the column being nullable, [null]. *)
Definition zod_date (v : option (option JsonDate)) : option (option (option Z)) :=
  match v with
  | None => Some None
  | Some None => Some (Some None)
  | Some (Some _) => None
  end.

(** Request bodies as they arrive: every key may be missing ([None]); a
    key of a nullable column may carry [null] ([Some None]).  For a
    required key, [None] also stands for a value of the wrong JSON type
    (the schema rejects both alike); other ill-typed values are outside
    the model.  [startTime] and [endTime] of this body are the instants
    that the strings denote: [insertCleaningSessionSchema] checks them with
    [z.string().datetime()] and converts them with [new Date(val)]. *)
Record CleaningSessionBody := {
  csb_roomId : option string;
  csb_housekeeperId : option string;
  csb_startTime : option Z;
  csb_endTime : option Z;
  csb_pausedTime : option (option Z);
  csb_totalTime : option (option Z);
  csb_status : option string }.

(** [InsertCleaningSession]: the output of [insertCleaningSessionSchema]
    ([id] and [createdAt] omitted, the columns that have a default or
    accept [NULL] optional).  [pausedTime] and [totalTime] are numbers
    here; that they fit the 32-bit column is checked when the row is
    inserted. *)
Record InsertCleaningSession := {
  ics_roomId : string;
  ics_housekeeperId : string;
  ics_startTime : Z;
  ics_endTime : option Z;
  ics_pausedTime : option (option Z);
  ics_totalTime : option (option Z);
  ics_status : option string }.

Definition insertCleaningSessionSchema (b : CleaningSessionBody)
  : option InsertCleaningSession :=
  roomId ← csb_roomId b;
  housekeeperId ← csb_housekeeperId b;
  startTime ← csb_startTime b;
  Some {| ics_roomId := roomId; ics_housekeeperId := housekeeperId;
          ics_startTime := startTime; ics_endTime := csb_endTime b;
          ics_pausedTime := csb_pausedTime b;
          ics_totalTime := csb_totalTime b;
          ics_status := csb_status b |}.

(** [Partial<CleaningSession>] by its type; in fact [req.body], the JSON
    of PATCH /api/cleaning-sessions/:id, handed to the storage as it is:
    no schema converts its timestamps. *)
Record CleaningSessionPatch := {
  csp_id : option string;
  csp_roomId : option string;
  csp_housekeeperId : option string;
  csp_startTime : option (option JsonDate);
  csp_endTime : option (option JsonDate);
  csp_pausedTime : option (option Z);
  csp_totalTime : option (option Z);
  csp_status : option string;
  csp_createdAt : option (option JsonDate) }.

Definition cleaningSessionPatch_keys (u : CleaningSessionPatch) : bool :=
  present (csp_id u) || present (csp_roomId u) || present (csp_housekeeperId u)
  || present (csp_startTime u) || present (csp_endTime u)
  || present (csp_pausedTime u) || present (csp_totalTime u)
  || present (csp_status u) || present (csp_createdAt u).

Record ChecklistCompletionBody := {
  ccb_roomId : option string;
  ccb_templateId : option string;
  ccb_housekeeperId : option string;
  ccb_supervisorId : option (option string);
  ccb_completedItems : option string;
  ccb_supervisorSignature : option (option string);
  ccb_isCompleted : option (option bool);
  ccb_completedAt : option (option JsonDate) }.

Record InsertChecklistCompletion := {
  icc_roomId : string;
  icc_templateId : string;
  icc_housekeeperId : string;
  icc_supervisorId : option (option string);
  icc_completedItems : option string;
  icc_supervisorSignature : option (option string);
  icc_isCompleted : option (option bool);
  icc_completedAt : option (option Z) }.

(** [createInsertSchema(checklistCompletions).omit(...)], with no
    [extend]: [completedAt] is a [z.date()]. *)
Definition insertChecklistCompletionSchema (b : ChecklistCompletionBody)
  : option InsertChecklistCompletion :=
  roomId ← ccb_roomId b;
  templateId ← ccb_templateId b;
  housekeeperId ← ccb_housekeeperId b;
  completedAt ← zod_date (ccb_completedAt b);
  Some {| icc_roomId := roomId; icc_templateId := templateId;
          icc_housekeeperId := housekeeperId;
          icc_supervisorId := ccb_supervisorId b;
          icc_completedItems := ccb_completedItems b;
          icc_supervisorSignature := ccb_supervisorSignature b;
          icc_isCompleted := ccb_isCompleted b;
          icc_completedAt := completedAt |}.

Record ChecklistCompletionPatch := {
  ccp_id : option string;
  ccp_roomId : option string;
  ccp_templateId : option string;
  ccp_housekeeperId : option string;
  ccp_supervisorId : option (option string);
  ccp_completedItems : option string;
  ccp_supervisorSignature : option (option string);
  ccp_isCompleted : option (option bool);
  ccp_completedAt : option (option JsonDate);
  ccp_createdAt : option (option JsonDate) }.

Definition checklistCompletionPatch_keys (u : ChecklistCompletionPatch) : bool :=
  present (ccp_id u) || present (ccp_roomId u) || present (ccp_templateId u)
  || present (ccp_housekeeperId u) || present (ccp_supervisorId u)
  || present (ccp_completedItems u) || present (ccp_supervisorSignature u)
  || present (ccp_isCompleted u) || present (ccp_completedAt u)
  || present (ccp_createdAt u).

Record ProblemReportBody := {
  prb_roomId : option string;
  prb_reportedBy : option string;
  prb_type : option string;
  prb_priority : option string;
  prb_description : option string;
  prb_location : option (option string);
  prb_photos : option (option string);
  prb_status : option string;
  prb_resolvedBy : option (option string);
  prb_resolvedAt : option (option JsonDate) }.

Record InsertProblemReport := {
  ipr_roomId : string;
  ipr_reportedBy : string;
  ipr_type : string;
  ipr_priority : option string;
  ipr_description : string;
  ipr_location : option (option string);
  ipr_photos : option (option string);
  ipr_status : option string;
  ipr_resolvedBy : option (option string);
  ipr_resolvedAt : option (option Z) }.

(** The enum columns [type] and [priority] are validated by the schema
    that [createInsertSchema] derives from the table; [resolvedAt] is a
    [z.date()]. *)
Definition insertProblemReportSchema (b : ProblemReportBody)
  : option InsertProblemReport :=
  roomId ← prb_roomId b;
  reportedBy ← prb_reportedBy b;
  type ← prb_type b;
  description ← prb_description b;
  resolvedAt ← zod_date (prb_resolvedAt b);
  guard (type ∈ problemTypeEnum);;
  guard (from_option (λ p, bool_decide (p ∈ priorityEnum)) true (prb_priority b) = true);;
  Some {| ipr_roomId := roomId; ipr_reportedBy := reportedBy;
          ipr_type := type; ipr_priority := prb_priority b;
          ipr_description := description;
          ipr_location := prb_location b; ipr_photos := prb_photos b;
          ipr_status := prb_status b; ipr_resolvedBy := prb_resolvedBy b;
          ipr_resolvedAt := resolvedAt |}.

(** WebSocket message types. *)
Inductive WSType :=
  room_status_update | timer_update | checklist_update | problem_report.

Inductive WSData :=
| RoomStatusData (roomId status : string) (room : option Room)
| TimerData (action : string) (session : option CleaningSession)
| ChecklistData (action : string) (completion : option ChecklistCompletion)
| ProblemReportData (action : string) (report : option ProblemReport).

Record WSMessage := { type : WSType; data : WSData }.

End Schema.

(** ** The login session of server/replitAuth.ts *)

Module Session.

(** The claims of an identity token, as [tokens.claims()] returns them. *)
Record Claims := {
  sub : option string;
  email : option string;
  first_name : option string;
  last_name : option string;
  profile_image_url : option string;
  role : option string;
  exp : option Z }.

(** [req.user], the object that [updateUserSession] fills. *)
Record SessionUser := {
  claims : option Claims;
  access_token : option string;
  refresh_token : option string;
  expires_at : option Z }.

Record TokenResponse := {
  tr_claims : option Claims;
  tr_access_token : option string;
  tr_refresh_token : option string }.

(** [user.claims = tokens.claims(); ...; user.expires_at = user.claims?.exp] *)
Definition updateUserSession (tokens : TokenResponse) : SessionUser :=
  {| claims := tr_claims tokens;
     access_token := tr_access_token tokens;
     refresh_token := tr_refresh_token tokens;
     expires_at := tr_claims tokens ≫= exp |}.

(** JavaScript truthiness of a string and of a number that may be absent. *)
Definition truthy_string (s : option string) : bool :=
  match s with
  | Some s => negb (bool_decide (s = EmptyString))
  | None => false
  end.

Definition truthy_number (n : option Z) : bool :=
  match n with
  | Some n => negb (bool_decide (n = 0%Z))
  | None => false
  end.

End Session.

(** ** The server process: database, sockets, exceptions *)

Module Runtime.
Import Schema.

Record Store := {
  users : list User;
  rooms : list Room;
  cleaningSessions : list CleaningSession;
  checklistTemplates : list ChecklistTemplate;
  checklistCompletions : list ChecklistCompletion;
  problemReports : list ProblemReport }.

(** [WebSocket.readyState]. *)
Inductive ReadyState := CONNECTING | OPEN | CLOSING | CLOSED.

#[export] Instance ReadyState_eq_dec : EqDecision ReadyState.
Proof. solve_decision. Defined.

(** A socket object is named by a number.  [wsClients] is the module-level
    [Set<WebSocket>] of server/routes.ts; [readyState] reads the field of
    a socket object; [sent] logs every [client.send(messageStr)] in the
    order of the calls. *)
Record World := {
  db : Store;
  wsClients : gset nat;
  readyState : nat → ReadyState;
  sent : list (nat * WSMessage) }.

Definition with_db (w : World) (d : Store) : World :=
  {| db := d; wsClients := wsClients w; readyState := readyState w;
     sent := sent w |}.

Definition with_wsClients (w : World) (c : gset nat) : World :=
  {| db := db w; wsClients := c; readyState := readyState w;
     sent := sent w |}.

Definition with_sent (w : World) (l : list (nat * WSMessage)) : World :=
  {| db := db w; wsClients := wsClients w; readyState := readyState w;
     sent := l |}.

(** What one request reads from its environment. *)
Record Env := {
  now : Z;          (* [new Date()] / [Date.now()] on the server *)
  dbNow : Z;        (* [now()] in the database, for [defaultNow()] *)
  uuid : string;    (* the draw of [gen_random_uuid()] *)
  (* [client.refreshTokenGrant(config, refreshToken)]; [None]: it throws *)
  refreshTokenGrant : string → option Session.TokenResponse }.

Inductive Exn :=
| ZodError
| DbError (what : string)
| TypeError (what : string)
| Error (what : string).

Inductive outcome (A : Type) :=
| Return (a : A)
| Throw (e : Exn).
Arguments Return {A} a.
Arguments Throw {A} e.

(** An [async] function of the server: it runs on the world, and returns
    or throws.  What it wrote before it threw stays written (the storage
    opens no transaction). *)
Definition M (A : Type) : Type := World → outcome A * World.

#[export] Instance M_ret : MRet M := λ A a w, (Return a, w).
#[export] Instance M_bind : MBind M := λ A B f m w,
  match m w with
  | (Return a, w') => f a w'
  | (Throw e, w') => (Throw e, w')
  end.

Definition throw {A} (e : Exn) : M A := λ w, (Throw e, w).

Definition try_catch {A} (body : M A) (handler : Exn → M A) : M A := λ w,
  match body w with
  | (Return a, w') => (Return a, w')
  | (Throw e, w') => handler e w'
  end.

Definition get_db : M Store := λ w, (Return (db w), w).
Definition put_db (d : Store) : M unit := λ w, (Return (), with_db w d).

(** [schema.parse(body)]. *)
Definition parse {A B} (schema : A → option B) (body : A) : M B :=
  match schema body with
  | Some b => mret b
  | None => throw ZodError
  end.

End Runtime.

(** ** server/storage.ts *)

Module Storage.
Import Schema Runtime.

Definition with_rooms (d : Store) (l : list Room) : Store :=
  {| users := users d; rooms := l; cleaningSessions := cleaningSessions d;
     checklistTemplates := checklistTemplates d;
     checklistCompletions := checklistCompletions d;
     problemReports := problemReports d |}.

Definition with_cleaningSessions (d : Store) (l : list CleaningSession) : Store :=
  {| users := users d; rooms := rooms d; cleaningSessions := l;
     checklistTemplates := checklistTemplates d;
     checklistCompletions := checklistCompletions d;
     problemReports := problemReports d |}.

Definition with_checklistCompletions (d : Store) (l : list ChecklistCompletion) : Store :=
  {| users := users d; rooms := rooms d;
     cleaningSessions := cleaningSessions d;
     checklistTemplates := checklistTemplates d;
     checklistCompletions := l;
     problemReports := problemReports d |}.

Definition with_problemReports (d : Store) (l : list ProblemReport) : Store :=
  {| users := users d; rooms := rooms d;
     cleaningSessions := cleaningSessions d;
     checklistTemplates := checklistTemplates d;
     checklistCompletions := checklistCompletions d;
     problemReports := l |}.

(** Constraint checks. *)
Definition room_exists (d : Store) (id : string) : bool :=
  bool_decide (id ∈ room_id <$> rooms d).
Definition user_exists (d : Store) (id : string) : bool :=
  bool_decide (id ∈ user_id <$> users d).
Definition template_exists (d : Store) (id : string) : bool :=
  bool_decide (id ∈ ct_id <$> checklistTemplates d).
(** A nullable reference is checked when it is not [NULL]. *)
Definition ref_ok (exists_ : string → bool) (r : option string) : bool :=
  from_option exists_ true r.
(** A reference that an update writes is checked; one it leaves alone is not. *)
Definition written_ok {A} (ok : A → bool) (w : option A) : bool :=
  from_option ok true w.

Definition check (b : bool) (what : string) : M unit :=
  if b then mret () else throw (DbError what).

(** An [integer] column takes [NULL] or a 32-bit value. *)
Definition int4 (n : Z) : bool := bool_decide (-2147483648 ≤ n ≤ 2147483647)%Z.
Definition int4_ok (v : option Z) : bool := from_option int4 true v.

(** What drizzle does with the object given to [set], before a statement
    reaches the database.  With no key it throws [No values to set].  The
    value of a timestamp column is mapped for the driver by
    [value.toISOString()], a method that a string does not have; [null]
    is passed on. *)
Definition set_values (any_key : bool) (dates : list (option (option JsonDate)))
  : M unit :=
  if negb any_key then throw (Error "No values to set")
  else if existsb is_string dates
  then throw (TypeError "value.toISOString is not a function")
  else mret ().

(** The value of a nullable timestamp column after an update that got past
    [set_values]: [NULL] when the key held [null], the old value otherwise. *)
Definition written_date (old : option Z) (v : option (option JsonDate)) : option Z :=
  match v with
  | Some None => None
  | _ => old
  end.

(** *** Users *)

(** [const [user] = await db.select().from(users).where(eq(users.id, id))] *)
Definition getUser (id : string) : M (option User) :=
  d ← get_db;
  mret (head (filter (λ u, user_id u = id) (users d))).

(** *** Rooms *)

Definition getRoom (id : string) : M (option Room) :=
  d ← get_db;
  mret (head (filter (λ r, room_id r = id) (rooms d))).

Definition set_room_status (status : string) (updatedAt : Z) (r : Room) : Room :=
  {| room_id := room_id r; room_number := room_number r;
     room_floor := room_floor r; room_type := room_type r;
     room_status := status;
     room_assignedTo := room_assignedTo r;
     room_lastCleaned := room_lastCleaned r;
     room_priority := room_priority r;
     room_createdAt := room_createdAt r;
     room_updatedAt := Some updatedAt |}.

(** [update(rooms).set({ status, updatedAt: new Date() })
      .where(eq(rooms.id, roomId)).returning()], first row.
    The column has the type [room_status]: a value outside the enum is
    refused by the database whether or not a row matches. *)
Definition updateRoomStatus (env : Env) (roomId status : string) : M (option Room) :=
  d ← get_db;
  check (bool_decide (status ∈ roomStatusEnum))
        "invalid input value for enum room_status";;
  let upd (r : Room) :=
    if bool_decide (room_id r = roomId)
    then set_room_status status (now env) r else r in
  put_db (with_rooms d (upd <$> rooms d));;
  mret (head (set_room_status status (now env)
                <$> filter (λ r, room_id r = roomId) (rooms d))).

(** *** Cleaning sessions *)

Definition new_cleaningSession (env : Env) (v : InsertCleaningSession) : CleaningSession :=
  {| cs_id := uuid env;
     cs_roomId := ics_roomId v;
     cs_housekeeperId := ics_housekeeperId v;
     cs_startTime := ics_startTime v;
     cs_endTime := ics_endTime v;
     cs_pausedTime := default (Some 0%Z) (ics_pausedTime v);
     cs_totalTime := default None (ics_totalTime v);
     cs_status := default "active" (ics_status v);
     cs_createdAt := Some (dbNow env) |}.

(** [insert(cleaningSessions).values(sessionData).returning()] *)
Definition startCleaningSession (env : Env) (sessionData : InsertCleaningSession)
  : M CleaningSession :=
  d ← get_db;
  let session := new_cleaningSession env sessionData in
  check (int4_ok (cs_pausedTime session) && int4_ok (cs_totalTime session))
        "integer out of range";;
  check (bool_decide (cs_id session ∉ cs_id <$> cleaningSessions d))
        "cleaning_sessions_pkey";;
  check (room_exists d (cs_roomId session)) "cleaning_sessions_room_id_fkey";;
  check (user_exists d (cs_housekeeperId session))
        "cleaning_sessions_housekeeper_id_fkey";;
  put_db (with_cleaningSessions d (cleaningSessions d ++ [session]));;
  mret session.

(** [ORDER BY key DESC LIMIT 1]: PostgreSQL puts [NULL] first in a
    descending order.  [desc_before a b]: [a] comes strictly before [b]. *)
Definition desc_before (a b : option Z) : bool :=
  match a, b with
  | None, Some _ => true
  | Some x, Some y => bool_decide (y < x)%Z
  | _, _ => false
  end.

(** Among rows with equal keys the order is the database's to choose; the
    model keeps the row that was inserted first. *)
Fixpoint first_desc {A} (key : A → option Z) (l : list A) : option A :=
  match l with
  | [] => None
  | x :: l' =>
      match first_desc key l' with
      | Some y => if desc_before (key y) (key x) then Some y else Some x
      | None => Some x
      end
  end.

Definition is_active_for (roomId : string) (s : CleaningSession) : Prop :=
  cs_roomId s = roomId ∧ (cs_status s = "active" ∨ cs_status s = "paused").

#[export] Instance is_active_for_dec roomId s : Decision (is_active_for roomId s).
Proof. unfold is_active_for. apply _. Defined.

(** [select().from(cleaningSessions)
      .where(and(eq(roomId, roomId), or(eq(status, 'active'), eq(status, 'paused'))))
      .orderBy(desc(createdAt)).limit(1)] *)
Definition getActiveCleaningSession (roomId : string) : M (option CleaningSession) :=
  d ← get_db;
  mret (first_desc cs_createdAt (filter (is_active_for roomId) (cleaningSessions d))).

Definition apply_cleaningSessionPatch (u : CleaningSessionPatch) (s : CleaningSession)
  : CleaningSession :=
  {| cs_id := default (cs_id s) (csp_id u);
     cs_roomId := default (cs_roomId s) (csp_roomId u);
     cs_housekeeperId := default (cs_housekeeperId s) (csp_housekeeperId u);
     cs_startTime := cs_startTime s;
     cs_endTime := written_date (cs_endTime s) (csp_endTime u);
     cs_pausedTime := default (cs_pausedTime s) (csp_pausedTime u);
     cs_totalTime := default (cs_totalTime s) (csp_totalTime u);
     cs_status := default (cs_status s) (csp_status u);
     cs_createdAt := written_date (cs_createdAt s) (csp_createdAt u) |}.

(** [update(cleaningSessions).set(updates)
      .where(eq(cleaningSessions.id, sessionId)).returning()], first row.
    The values are typed when they are bound, whether or not a row
    matches; the other constraints are checked for the rows that are
    written. *)
Definition updateCleaningSession (sessionId : string) (updates : CleaningSessionPatch)
  : M (option CleaningSession) :=
  set_values (cleaningSessionPatch_keys updates)
    [csp_startTime updates; csp_endTime updates; csp_createdAt updates];;
  d ← get_db;
  check (written_ok int4_ok (csp_pausedTime updates)
         && written_ok int4_ok (csp_totalTime updates))
        "integer out of range";;
  let hit (s : CleaningSession) := bool_decide (cs_id s = sessionId) in
  let rows' := (λ s, if hit s then apply_cleaningSessionPatch updates s else s)
                 <$> cleaningSessions d in
  let written := apply_cleaningSessionPatch updates
                   <$> filter (λ s, cs_id s = sessionId) (cleaningSessions d) in
  match written with
  | [] => mret None
  | session :: _ =>
      check (negb (bool_decide (csp_startTime updates = Some None)))
            "null value in column start_time";;
      check (written_ok (λ _, bool_decide (NoDup (cs_id <$> rows'))) (csp_id updates))
            "cleaning_sessions_pkey";;
      check (written_ok (room_exists d) (csp_roomId updates))
            "cleaning_sessions_room_id_fkey";;
      check (written_ok (user_exists d) (csp_housekeeperId updates))
            "cleaning_sessions_housekeeper_id_fkey";;
      put_db (with_cleaningSessions d rows');;
      mret (Some session)
  end.

(** *** Checklist completions *)

Definition new_checklistCompletion (env : Env) (v : InsertChecklistCompletion)
  : ChecklistCompletion :=
  {| cc_id := uuid env;
     cc_roomId := icc_roomId v;
     cc_templateId := icc_templateId v;
     cc_housekeeperId := icc_housekeeperId v;
     cc_supervisorId := default None (icc_supervisorId v);
     cc_completedItems := default "{}" (icc_completedItems v);
     cc_supervisorSignature := default None (icc_supervisorSignature v);
     cc_isCompleted := default (Some false) (icc_isCompleted v);
     cc_completedAt := default None (icc_completedAt v);
     cc_createdAt := Some (dbNow env) |}.

(** [insert(checklistCompletions).values(completionData).returning()] *)
Definition saveChecklistCompletion (env : Env) (completionData : InsertChecklistCompletion)
  : M ChecklistCompletion :=
  d ← get_db;
  let completion := new_checklistCompletion env completionData in
  check (bool_decide (cc_id completion ∉ cc_id <$> checklistCompletions d))
        "checklist_completions_pkey";;
  check (room_exists d (cc_roomId completion))
        "checklist_completions_room_id_fkey";;
  check (template_exists d (cc_templateId completion))
        "checklist_completions_template_id_fkey";;
  check (user_exists d (cc_housekeeperId completion))
        "checklist_completions_housekeeper_id_fkey";;
  check (ref_ok (user_exists d) (cc_supervisorId completion))
        "checklist_completions_supervisor_id_fkey";;
  put_db (with_checklistCompletions d (checklistCompletions d ++ [completion]));;
  mret completion.

Definition apply_checklistCompletionPatch (u : ChecklistCompletionPatch)
  (c : ChecklistCompletion) : ChecklistCompletion :=
  {| cc_id := default (cc_id c) (ccp_id u);
     cc_roomId := default (cc_roomId c) (ccp_roomId u);
     cc_templateId := default (cc_templateId c) (ccp_templateId u);
     cc_housekeeperId := default (cc_housekeeperId c) (ccp_housekeeperId u);
     cc_supervisorId := default (cc_supervisorId c) (ccp_supervisorId u);
     cc_completedItems := default (cc_completedItems c) (ccp_completedItems u);
     cc_supervisorSignature :=
       default (cc_supervisorSignature c) (ccp_supervisorSignature u);
     cc_isCompleted := default (cc_isCompleted c) (ccp_isCompleted u);
     cc_completedAt := written_date (cc_completedAt c) (ccp_completedAt u);
     cc_createdAt := written_date (cc_createdAt c) (ccp_createdAt u) |}.

(** [update(checklistCompletions).set(updates)
      .where(eq(checklistCompletions.id, completionId)).returning()] *)
Definition updateChecklistCompletion (completionId : string)
  (updates : ChecklistCompletionPatch) : M (option ChecklistCompletion) :=
  set_values (checklistCompletionPatch_keys updates)
    [ccp_completedAt updates; ccp_createdAt updates];;
  d ← get_db;
  let hit (c : ChecklistCompletion) := bool_decide (cc_id c = completionId) in
  let rows' := (λ c, if hit c then apply_checklistCompletionPatch updates c else c)
                 <$> checklistCompletions d in
  let written := apply_checklistCompletionPatch updates
                   <$> filter (λ c, cc_id c = completionId) (checklistCompletions d) in
  match written with
  | [] => mret None
  | completion :: _ =>
      check (written_ok (λ _, bool_decide (NoDup (cc_id <$> rows'))) (ccp_id updates))
            "checklist_completions_pkey";;
      check (written_ok (room_exists d) (ccp_roomId updates))
            "checklist_completions_room_id_fkey";;
      check (written_ok (template_exists d) (ccp_templateId updates))
            "checklist_completions_template_id_fkey";;
      check (written_ok (user_exists d) (ccp_housekeeperId updates))
            "checklist_completions_housekeeper_id_fkey";;
      check (written_ok (ref_ok (user_exists d)) (ccp_supervisorId updates))
            "checklist_completions_supervisor_id_fkey";;
      put_db (with_checklistCompletions d rows');;
      mret (Some completion)
  end.

(** *** Problem reports *)

Definition new_problemReport (env : Env) (v : InsertProblemReport) : ProblemReport :=
  {| pr_id := uuid env;
     pr_roomId := ipr_roomId v;
     pr_reportedBy := ipr_reportedBy v;
     pr_type := ipr_type v;
     pr_priority := default "media" (ipr_priority v);
     pr_description := ipr_description v;
     pr_location := default None (ipr_location v);
     pr_photos := default (Some "[]") (ipr_photos v);
     pr_status := default "reported" (ipr_status v);
     pr_resolvedBy := default None (ipr_resolvedBy v);
     pr_resolvedAt := default None (ipr_resolvedAt v);
     pr_createdAt := Some (dbNow env) |}.

(** [insert(problemReports).values(reportData).returning()] *)
Definition createProblemReport (env : Env) (reportData : InsertProblemReport)
  : M ProblemReport :=
  d ← get_db;
  let report := new_problemReport env reportData in
  check (bool_decide (pr_id report ∉ pr_id <$> problemReports d))
        "problem_reports_pkey";;
  check (room_exists d (pr_roomId report)) "problem_reports_room_id_fkey";;
  check (user_exists d (pr_reportedBy report)) "problem_reports_reported_by_fkey";;
  check (ref_ok (user_exists d) (pr_resolvedBy report))
        "problem_reports_resolved_by_fkey";;
  put_db (with_problemReports d (problemReports d ++ [report]));;
  mret report.

End Storage.

(** ** server/replitAuth.ts and server/routes.ts *)

Module Routes.
Import Schema Session Runtime Storage.

Inductive Route :=
| PatchRoomStatus (id : string) (status : option string)
| PostCleaningSession (body : CleaningSessionBody)
| PatchCleaningSession (id : string) (updates : CleaningSessionPatch)
| GetActiveCleaningSession (roomId : string)
| PostChecklistCompletion (body : ChecklistCompletionBody)
| PatchChecklistCompletion (id : string) (updates : ChecklistCompletionPatch)
| PostProblemReport (body : ProblemReportBody).

(** [user]: [req.user], absent when the caller has no login session. *)
Record Request := { user : option SessionUser; route : Route }.

Inductive Body :=
| Message (message : string)
| RoomJson (room : option Room)
| SessionJson (session : option CleaningSession)
| CompletionJson (completion : option ChecklistCompletion)
| ReportJson (report : ProblemReport).

Record Response := { status : nat; json : Body }.

Definition respond (code : nat) (message : string) : Response :=
  {| status := code; json := Message message |}.
(** [res.json(value)] with the status left at its default. *)
Definition res_json (value : Body) : Response :=
  {| status := 200; json := value |}.

(** [broadcast]: one [send] for every client of [wsClients] whose socket
    is open.  The order of the calls is the iteration order of the set. *)
Definition broadcast (message : WSMessage) : M unit := λ w,
  let open := filter (λ client, readyState w client = OPEN) (elements (wsClients w)) in
  (Return (), with_sent w (sent w ++ ((λ client, (client, message)) <$> open))).

(** [wss.on('connection')] and the two listeners it installs. *)
Definition on_connection (ws : nat) : M unit := λ w,
  (Return (), with_wsClients w ({[ws]} ∪ wsClients w)).
Definition on_close (ws : nat) : M unit := λ w,
  (Return (), with_wsClients w (wsClients w ∖ {[ws]})).
Definition on_error (ws : nat) : M unit := λ w,
  (Return (), with_wsClients w (wsClients w ∖ {[ws]})).

(** [isAuthenticated]: answers 401, or calls [next()] with the session
    (refreshed when its token had expired). *)
Definition isAuthenticated (env : Env) (req_user : option SessionUser)
  : Response + SessionUser :=
  match req_user with
  | None => inl (respond 401 "Unauthorized")
  | Some user =>
      if negb (truthy_number (expires_at user)) then inl (respond 401 "Unauthorized")
      else if bool_decide (now env `div` 1000 ≤ default 0 (expires_at user))%Z
      then inr user
      else if negb (truthy_string (refresh_token user))
      then inl (respond 401 "Unauthorized")
      else
        let refreshToken := default EmptyString (refresh_token user) in
        match refreshTokenGrant env refreshToken with
        | Some tokenResponse => inr (updateUserSession tokenResponse)
        | None => inl (respond 401 "Unauthorized")
        end
  end.

(** [requireRole(...allowedRoles)]: answers, or calls [next()] with
    [req.currentUser]. *)
Definition requireRole (allowedRoles : list string) (user : SessionUser)
  : M (Response + User) :=
  try_catch
    (let userId := claims user ≫= sub in
     if negb (truthy_string userId) then mret (inl (respond 401 "Unauthorized"))
     else
       found ← getUser (default EmptyString userId);
       match found with
       | Some u =>
           if bool_decide (user_role u ∈ allowedRoles) then mret (inr u)
           else mret (inl (respond 403 "Insufficient permissions"))
       | None => mret (inl (respond 403 "Insufficient permissions"))
       end)
    (λ _, mret (inl (respond 500 "Internal server error"))).

(** [z.object({ status: z.enum([...]) })] *)
Definition statusSchema (status : option string) : option string :=
  s ← status;
  guard (s ∈ ["dirty"; "clean"; "occupied"; "cleaning"; "inspection"; "approved"]);;
  Some s.

(** PATCH /api/rooms/:id/status *)
Definition patchRoomStatus (env : Env) (id : string) (body : option string) : M Response :=
  try_catch
    (status ← parse statusSchema body;
     room ← updateRoomStatus env id status;
     broadcast {| type := room_status_update;
                  data := RoomStatusData id status room |};;
     mret (res_json (RoomJson room)))
    (λ error,
       match error with
       | ZodError => mret (respond 400 "Invalid status value")
       | _ => mret (respond 500 "Failed to update room status")
       end).

(** POST /api/cleaning-sessions *)
Definition postCleaningSession (env : Env) (body : CleaningSessionBody) : M Response :=
  try_catch
    (sessionData ← parse insertCleaningSessionSchema body;
     session ← startCleaningSession env sessionData;
     updateRoomStatus env (ics_roomId sessionData) "cleaning";;
     broadcast {| type := timer_update;
                  data := TimerData "start" (Some session) |};;
     mret (res_json (SessionJson (Some session))))
    (λ _, mret (respond 500 "Failed to start cleaning session")).

(** PATCH /api/cleaning-sessions/:id *)
Definition patchCleaningSession (id : string) (updates : CleaningSessionPatch)
  : M Response :=
  try_catch
    (session ← updateCleaningSession id updates;
     broadcast {| type := timer_update;
                  data := TimerData "update" session |};;
     mret (res_json (SessionJson session)))
    (λ _, mret (respond 500 "Failed to update cleaning session")).

(** GET /api/cleaning-sessions/active/:roomId *)
Definition getActiveCleaningSessionRoute (roomId : string) : M Response :=
  try_catch
    (session ← getActiveCleaningSession roomId;
     mret (res_json (SessionJson session)))
    (λ _, mret (respond 500 "Failed to fetch active cleaning session")).

(** POST /api/checklist-completions *)
Definition postChecklistCompletion (env : Env) (body : ChecklistCompletionBody)
  : M Response :=
  try_catch
    (completionData ← parse insertChecklistCompletionSchema body;
     completion ← saveChecklistCompletion env completionData;
     broadcast {| type := checklist_update;
                  data := ChecklistData "save" (Some completion) |};;
     mret (res_json (CompletionJson (Some completion))))
    (λ _, mret (respond 500 "Failed to save checklist completion")).

(** PATCH /api/checklist-completions/:id.  Reading a property of
    [undefined] (no row had the id) throws a [TypeError]. *)
Definition patchChecklistCompletion (env : Env) (id : string)
  (updates : ChecklistCompletionPatch) : M Response :=
  try_catch
    (found ← updateChecklistCompletion id updates;
     completion ← match found with
                  | Some c => mret c
                  | None => throw (TypeError "Cannot read properties of undefined")
                  end;
     (if bool_decide (cc_isCompleted completion = Some true)
         && truthy_string (cc_supervisorSignature completion)
      then updateRoomStatus env (cc_roomId completion) "clean";; mret ()
      else mret ());;
     broadcast {| type := checklist_update;
                  data := ChecklistData "update" (Some completion) |};;
     mret (res_json (CompletionJson (Some completion))))
    (λ _, mret (respond 500 "Failed to update checklist completion")).

(** POST /api/problem-reports *)
Definition postProblemReport (env : Env) (body : ProblemReportBody) : M Response :=
  try_catch
    (reportData ← parse insertProblemReportSchema body;
     report ← createProblemReport env reportData;
     updateRoomStatus env (ipr_roomId reportData) "inspection";;
     broadcast {| type := problem_report;
                  data := ProblemReportData "create" (Some report) |};;
     mret (res_json (ReportJson report)))
    (λ _, mret (respond 500 "Failed to create problem report")).

(** The routes behind [requireRole], with the roles they name. *)
Definition required_roles (r : Route) : option (list string) :=
  match r with
  | PatchRoomStatus _ _ => Some ["manager"; "supervisor"]
  | _ => None
  end.

Definition dispatch (env : Env) (r : Route) : M Response :=
  match r with
  | PatchRoomStatus id body => patchRoomStatus env id body
  | PostCleaningSession body => postCleaningSession env body
  | PatchCleaningSession id updates => patchCleaningSession id updates
  | GetActiveCleaningSession roomId => getActiveCleaningSessionRoute roomId
  | PostChecklistCompletion body => postChecklistCompletion env body
  | PatchChecklistCompletion id updates => patchChecklistCompletion env id updates
  | PostProblemReport body => postProblemReport env body
  end.

(** One request through [app.use('/api', isAuthenticated)], the route's
    own middleware and its handler. *)
Definition app (env : Env) (req : Request) : M Response :=
  match isAuthenticated env (user req) with
  | inl res => mret res
  | inr session =>
      match required_roles (route req) with
      | Some allowedRoles =>
          gate ← requireRole allowedRoles session;
          match gate with
          | inl res => mret res
          | inr _ => dispatch env (route req)
          end
      | None => dispatch env (route req)
      end
  end.

(** The response the caller receives and the world the request leaves.
    Every handler catches what it throws; the last line is the default
    error handler of the framework. *)
Definition serve (env : Env) (req : Request) (w : World) : Response * World :=
  match app env req w with
  | (Return res, w') => (res, w')
  | (Throw _, w') => (respond 500 "Internal Server Error", w')
  end.

Definition is_mutation (r : Route) : bool :=
  match r with
  | GetActiveCleaningSession _ => false
  | _ => true
  end.

End Routes.

(** ** client/src/components: the mutations of the cleaning timer *)

Module Client.
Import Schema Runtime Routes.

(** room-card.tsx, [startCleaningMutation]: [now] is [new Date()] in the
    browser. *)
Definition startCleaningMutation (room : Room) (currentUser : User) (now : Z) : Route :=
  PostCleaningSession
    {| csb_roomId := Some (room_id room);
       csb_housekeeperId := Some (user_id currentUser);
       csb_startTime := Some now;
       csb_endTime := None; csb_pausedTime := None; csb_totalTime := None;
       csb_status := Some "active" |}.

(** A request body that carries [status] and nothing else. *)
Definition status_only (status : string) : CleaningSessionPatch :=
  {| csp_id := None; csp_roomId := None; csp_housekeeperId := None;
     csp_startTime := None; csp_endTime := None; csp_pausedTime := None;
     csp_totalTime := None; csp_status := Some status; csp_createdAt := None |}.

(** timer-widget.tsx and room-card.tsx, [pauseCleaningMutation]. *)
Definition pauseCleaningMutation (session : CleaningSession) : Route :=
  PatchCleaningSession (cs_id session) (status_only "paused").

(** [Math.floor((now.getTime() - start.getTime()) / 1000) + (session.pausedTime || 0)],
    the elapsed time both components display and the total they send to
    be sealed. *)
Definition elapsed (session : CleaningSession) (now : Z) : Z :=
  ((now - cs_startTime session) `div` 1000 + default 0 (cs_pausedTime session))%Z.

(** timer-widget.tsx and room-card.tsx, [completeCleaningMutation]:
    [endTime: now.toISOString()], a string. *)
Definition completeCleaningMutation (session : CleaningSession) (now : Z) : Route :=
  let totalTime := elapsed session now in
  PatchCleaningSession (cs_id session)
    {| csp_id := None; csp_roomId := None; csp_housekeeperId := None;
       csp_startTime := None;
       csp_endTime := Some (Some (toISOString now));
       csp_pausedTime := None;
       csp_totalTime := Some (Some totalTime);
       csp_status := Some "completed";
       csp_createdAt := None |}.

End Client.

Import Schema Session Runtime Storage Routes Client.

(** ** A small hotel, for the examples *)

Module Example.

Definition maria : User :=
  {| user_id := "u-maria"; user_name := Some "Maria Silva";
     user_email := Some "maria@hotel.com"; user_firstName := None;
     user_lastName := None; user_profileImageUrl := None;
     user_role := "manager"; user_createdAt := Some 0%Z;
     user_updatedAt := Some 0%Z |}.

Definition ana : User :=
  {| user_id := "u-ana"; user_name := Some "Ana Costa";
     user_email := Some "ana@hotel.com"; user_firstName := None;
     user_lastName := None; user_profileImageUrl := None;
     user_role := "housekeeper"; user_createdAt := Some 0%Z;
     user_updatedAt := Some 0%Z |}.

Definition room101 : Room :=
  {| room_id := "r-101"; room_number := "101"; room_floor := 1;
     room_type := "standard"; room_status := "dirty";
     room_assignedTo := Some "u-ana"; room_lastCleaned := None;
     room_priority := Some "alta"; room_createdAt := Some 0%Z;
     room_updatedAt := Some 0%Z |}.

Definition room205 : Room :=
  {| room_id := "r-205"; room_number := "205"; room_floor := 2;
     room_type := "deluxe"; room_status := "cleaning";
     room_assignedTo := Some "u-ana"; room_lastCleaned := None;
     room_priority := Some "media"; room_createdAt := Some 0%Z;
     room_updatedAt := Some 0%Z |}.

(** A session that is running in room 205. *)
Definition session205 : CleaningSession :=
  {| cs_id := "s-1"; cs_roomId := "r-205"; cs_housekeeperId := "u-ana";
     cs_startTime := 1000000; cs_endTime := None; cs_pausedTime := Some 0%Z;
     cs_totalTime := None; cs_status := "active";
     cs_createdAt := Some 1000005%Z |}.

Definition hotel : Store :=
  {| users := [maria; ana]; rooms := [room101; room205];
     cleaningSessions := [session205]; checklistTemplates := [];
     checklistCompletions := []; problemReports := [] |}.

(** Three sockets are registered; the third one has closed but its
    listener has not run yet. *)
Definition world : World :=
  {| db := hotel;
     wsClients := {[1; 2; 3]};
     readyState := λ ws, if bool_decide (ws = 3) then CLOSED else OPEN;
     sent := [] |}.


Definition login (userId : string) (claimed_role : option string) : SessionUser :=
  {| claims := Some {| sub := Some userId; email := None; first_name := None;
                       last_name := None; profile_image_url := None;
                       role := claimed_role; exp := Some 2000%Z |};
     access_token := Some "at"; refresh_token := Some "rt";
     expires_at := Some 2000%Z |}.

Definition env (clock : Z) (id : string) : Env :=
  {| now := clock; dbNow := clock; uuid := id;
     refreshTokenGrant := λ _, None |}.

End Example.

(** ** server/storage.ts: the user table and the read queries *)

Module UserStorage.
Import Schema Session Runtime Storage.

Definition with_users (d : Store) (l : list User) : Store :=
  {| users := l; rooms := rooms d; cleaningSessions := cleaningSessions d;
     checklistTemplates := checklistTemplates d;
     checklistCompletions := checklistCompletions d;
     problemReports := problemReports d |}.

(** [UpsertUser = typeof users.$inferInsert]: every column may be left out;
    a nullable one may carry [null]. *)
Record UpsertUser := {
  uu_id : option string;
  uu_name : option (option string);
  uu_email : option (option string);
  uu_firstName : option (option string);
  uu_lastName : option (option string);
  uu_profileImageUrl : option (option string);
  uu_role : option string;
  uu_createdAt : option (option Z);
  uu_updatedAt : option (option Z) }.

(** The row [insert(users).values(userData)] proposes. *)
Definition new_user (env : Env) (v : UpsertUser) : User :=
  {| user_id := default (uuid env) (uu_id v);
     user_name := default None (uu_name v);
     user_email := default None (uu_email v);
     user_firstName := default None (uu_firstName v);
     user_lastName := default None (uu_lastName v);
     user_profileImageUrl := default None (uu_profileImageUrl v);
     user_role := default "housekeeper" (uu_role v);
     user_createdAt := default (Some (dbNow env)) (uu_createdAt v);
     user_updatedAt := default (Some (dbNow env)) (uu_updatedAt v) |}.

(** [onConflictDoUpdate({ target: users.id, set: { email, firstName,
    lastName, profileImageUrl, role, updatedAt: new Date() } })]; a key
    whose value is [undefined] is left out of the SET clause. *)
Definition conflict_update (env : Env) (v : UpsertUser) (u : User) : User :=
  {| user_id := user_id u;
     user_name := user_name u;
     user_email := default (user_email u) (uu_email v);
     user_firstName := default (user_firstName u) (uu_firstName v);
     user_lastName := default (user_lastName u) (uu_lastName v);
     user_profileImageUrl := default (user_profileImageUrl u) (uu_profileImageUrl v);
     user_role := default (user_role u) (uu_role v);
     user_createdAt := user_createdAt u;
     user_updatedAt := Some (now env) |}.

(** The [set] of the update by email, in the [catch] branch. *)
Definition email_update (env : Env) (v : UpsertUser) (u : User) : User :=
  {| user_id := user_id u;
     user_name := user_name u;
     user_email := user_email u;
     user_firstName := default (user_firstName u) (uu_firstName v);
     user_lastName := default (user_lastName u) (uu_lastName v);
     user_profileImageUrl := default (user_profileImageUrl u) (uu_profileImageUrl v);
     user_role := default (user_role u) (uu_role v);
     user_createdAt := user_createdAt u;
     user_updatedAt := Some (now env) |}.

(** [users.email] is [unique()]: a row's email, when it is not NULL, is the
    email of no other row. *)
Definition email_free (e : option string) (others : list User) : bool :=
  match e with
  | Some e => bool_decide (Some e ∉ user_email <$> others)
  | None => true
  end.

(** The statement of the [try] block: an insert that turns into an update
    of the row that has the id. *)
Definition insert_or_update (env : Env) (userData : UpsertUser) : M User :=
  d ← get_db;
  check (from_option (λ r, bool_decide (r ∈ userRoleEnum)) true (uu_role userData))
        "invalid input value for enum user_role";;
  let id := default (uuid env) (uu_id userData) in
  match filter (λ u, user_id u = id) (users d) with
  | [] =>
      let user := new_user env userData in
      check (email_free (user_email user) (users d)) "users_email_unique";;
      put_db (with_users d (users d ++ [user]));;
      mret user
  | existing :: _ =>
      let user := conflict_update env userData existing in
      check (email_free (user_email user)
               (filter (λ u, user_id u ≠ id) (users d)))
            "users_email_unique";;
      put_db (with_users d
                ((λ u, if bool_decide (user_id u = id)
                       then conflict_update env userData u else u) <$> users d));;
      mret user
  end.

(** [hay.includes(needle)] *)
Fixpoint includes (needle hay : string) : bool :=
  if String.prefix needle hay then true
  else match hay with
       | EmptyString => false
       | String _ hay' => includes needle hay'
       end.

(** The [catch] branch: on a violation of the unique email, the row that
    has the email is updated and returned. *)
Definition update_by_email (env : Env) (userData : UpsertUser) (error : Exn) : M User :=
  match error with
  | DbError what =>
      if includes "users_email_unique" what then
        d ← get_db;
        let email := default None (uu_email userData) in
        match email_update env userData
                <$> filter (λ u, user_email u = email ∧ is_Some email) (users d) with
        | [] => throw error
        | updatedUser :: _ =>
            put_db (with_users d
                      ((λ u, if bool_decide (user_email u = email ∧ is_Some email)
                             then email_update env userData u else u) <$> users d));;
            mret updatedUser
        end
      else throw error
  | _ => throw error
  end.

Definition upsertUser (env : Env) (userData : UpsertUser) : M User :=
  try_catch (insert_or_update env userData) (update_by_email env userData).

End UserStorage.

Module Queries.
Import Schema Session Runtime Storage Routes.

(** [ORDER BY]: rows are put in place one by one; [before x y] tells that
    [x] may stand before [y].  Rows that compare equal keep the order of
    the table (the database may choose another). *)
Fixpoint insert_by {A} (before : A → A → bool) (x : A) (l : list A) : list A :=
  match l with
  | [] => [x]
  | y :: l' => if before x y then x :: l else y :: insert_by before x l'
  end.

Definition order_by {A} (before : A → A → bool) (l : list A) : list A :=
  foldr (insert_by before) [] l.

(** [asc(rooms.number)]: the order of a [varchar] column is the collation
    of the database, [collate a b] telling that [a] sorts no later than [b]. *)
Definition by_number (collate : string → string → bool) (a b : Room) : bool :=
  collate (room_number a) (room_number b).

(** [desc(createdAt)], NULL first. *)
Definition newest_first (a b : ProblemReport) : bool :=
  negb (desc_before (pr_createdAt b) (pr_createdAt a)).

Definition getAllRooms (collate : string → string → bool) : M (list Room) :=
  d ← get_db;
  mret (order_by (by_number collate) (rooms d)).

Definition getRoomsByAssignedUser (collate : string → string → bool) (userId : string)
  : M (list Room) :=
  d ← get_db;
  mret (order_by (by_number collate)
          (filter (λ r, room_assignedTo r = Some userId) (rooms d))).

Definition is_completed_for (roomId : string) (c : ChecklistCompletion) : Prop :=
  cc_roomId c = roomId ∧ cc_isCompleted c = Some true.

#[export] Instance is_completed_for_dec roomId c : Decision (is_completed_for roomId c).
Proof. unfold is_completed_for. apply _. Defined.

(** [where(and(eq(roomId), eq(isCompleted, true)))
      .orderBy(desc(completedAt)).limit(1)] *)
Definition getChecklistCompletionByRoom (roomId : string)
  : M (option ChecklistCompletion) :=
  d ← get_db;
  mret (first_desc cc_completedAt
          (filter (is_completed_for roomId) (checklistCompletions d))).

Definition getProblemReportsByRoom (roomId : string) : M (list ProblemReport) :=
  d ← get_db;
  mret (order_by newest_first (filter (λ r, pr_roomId r = roomId) (problemReports d))).

Definition getAllProblemReports : M (list ProblemReport) :=
  d ← get_db;
  mret (order_by newest_first (problemReports d)).

Inductive Query :=
| GetRooms (assignedTo : option string)
| GetChecklistCompletionByRoom (roomId : string)
| GetProblemReports (roomId : option string).

Record QueryRequest := { q_user : option SessionUser; query : Query }.

Inductive QueryBody :=
| QMessage (message : string)
| RoomsJson (rooms : list Room)
| ChecklistCompletionJson (completion : ChecklistCompletion)
| ProblemReportsJson (reports : list ProblemReport).

Record QueryResponse := { q_status : nat; q_json : QueryBody }.

Definition q_respond (code : nat) (message : string) : QueryResponse :=
  {| q_status := code; q_json := QMessage message |}.
Definition q_res_json (value : QueryBody) : QueryResponse :=
  {| q_status := 200; q_json := value |}.
Definition q_of (res : Response) : QueryResponse :=
  {| q_status := status res;
     q_json := match json res with
               | Message m => QMessage m
               | _ => QMessage EmptyString
               end |}.

(** GET /api/rooms *)
Definition getRooms (collate : string → string → bool) (session : SessionUser)
  (assignedTo : option string) : M QueryResponse :=
  try_catch
    (let userId := claims session ≫= sub in
     if negb (truthy_string userId) then mret (q_respond 401 "Unauthorized")
     else
       currentUser ← getUser (default EmptyString userId);
       match currentUser with
       | None => mret (q_respond 401 "User not found")
       | Some currentUser =>
           rooms ← (if bool_decide (user_role currentUser = "manager") then
                      if truthy_string assignedTo
                      then getRoomsByAssignedUser collate (default EmptyString assignedTo)
                      else getAllRooms collate
                    else getRoomsByAssignedUser collate (default EmptyString userId));
           mret (q_res_json (RoomsJson rooms))
       end)
    (λ _, mret (q_respond 500 "Failed to fetch rooms")).

(** GET /api/checklist-completions/room/:roomId *)
Definition getChecklistCompletionByRoomRoute (roomId : string) : M QueryResponse :=
  try_catch
    (completion ← getChecklistCompletionByRoom roomId;
     match completion with
     | None => mret (q_respond 404 "No completed checklist found for this room")
     | Some completion => mret (q_res_json (ChecklistCompletionJson completion))
     end)
    (λ _, mret (q_respond 500 "Failed to fetch checklist completion")).

(** GET /api/problem-reports *)
Definition getProblemReports (roomId : option string) : M QueryResponse :=
  try_catch
    (reports ← (if truthy_string roomId
                then getProblemReportsByRoom (default EmptyString roomId)
                else getAllProblemReports);
     mret (q_res_json (ProblemReportsJson reports)))
    (λ _, mret (q_respond 500 "Failed to fetch problem reports")).

Definition query_roles (q : Query) : option (list string) :=
  match q with
  | GetChecklistCompletionByRoom _ => Some ["manager"; "supervisor"]
  | _ => None
  end.

Definition run_query (collate : string → string → bool) (session : SessionUser)
  (q : Query) : M QueryResponse :=
  match q with
  | GetRooms assignedTo => getRooms collate session assignedTo
  | GetChecklistCompletionByRoom roomId => getChecklistCompletionByRoomRoute roomId
  | GetProblemReports roomId => getProblemReports roomId
  end.

(** A query through [isAuthenticated], the route's [requireRole] and its
    handler. *)
Definition query_app (collate : string → string → bool) (env : Env)
  (req : QueryRequest) : M QueryResponse :=
  match isAuthenticated env (q_user req) with
  | inl res => mret (q_of res)
  | inr session =>
      match query_roles (query req) with
      | Some allowedRoles =>
          gate ← requireRole allowedRoles session;
          match gate with
          | inl res => mret (q_of res)
          | inr _ => run_query collate session (query req)
          end
      | None => run_query collate session (query req)
      end
  end.

Definition answer (collate : string → string → bool) (env : Env)
  (req : QueryRequest) (w : World) : QueryResponse * World :=
  match query_app collate env req w with
  | (Return res, w') => (res, w')
  | (Throw _, w') => (q_respond 500 "Internal Server Error", w')
  end.

End Queries.

(** ** server/replitAuth.ts: the login *)

Module Login.
Import Schema Session Runtime Storage.

(** [process.env]. *)
Record Config := {
  NODE_ENV : option string;
  ALLOW_DEV_ROLE_OVERRIDE : option string }.

Section WithRuntime.
(** [String.prototype.toLowerCase], a function of the JavaScript runtime. *)
Context (toLowerCase : string → string).

(** The role of a user who logs in for the first time and whose token
    claims none, where the development override is on. *)
Definition dev_role (claimed_email : option string) : string :=
  match toLowerCase <$> claimed_email with
  | Some email =>
      if negb (bool_decide (email = EmptyString))
         && (UserStorage.includes "manager" email
             || UserStorage.includes "admin" email
             || bool_decide (email = "manager@test.com")
             || bool_decide (email = "admin@hotel.com")
             || bool_decide (email = "sambosondigital@gmail.com"))
      then "manager" else "housekeeper"
  | None => "housekeeper"
  end.

Definition new_user_role (cfg : Config) (c : Claims) : string :=
  if truthy_string (role c) then default EmptyString (role c)
  else if bool_decide (NODE_ENV cfg = Some "development")
          || bool_decide (ALLOW_DEV_ROLE_OVERRIDE cfg = Some "true")
  then dev_role (email c)
  else "housekeeper".

(** [upsertUser(claims)] of server/replitAuth.ts. *)
Definition upsertUser (cfg : Config) (env : Env) (c : Claims) : M User :=
  try_catch
    (existingUser ← try_catch
                      (match sub c with
                       | Some id => getUser id
                       | None => mret None
                       end)
                      (λ _, mret None);
     let userRole :=
       match existingUser with
       | Some u =>
           if negb (bool_decide (user_role u = EmptyString)) then user_role u
           else new_user_role cfg c
       | None => new_user_role cfg c
       end in
     UserStorage.upsertUser env
       {| UserStorage.uu_id := sub c;
          UserStorage.uu_name := None;
          UserStorage.uu_email := Some <$> email c;
          UserStorage.uu_firstName := Some <$> first_name c;
          UserStorage.uu_lastName := Some <$> last_name c;
          UserStorage.uu_profileImageUrl := Some <$> profile_image_url c;
          UserStorage.uu_role := Some userRole;
          UserStorage.uu_createdAt := None;
          UserStorage.uu_updatedAt := None |})
    (λ error, throw error).

(** [verify]: the session of a caller who has just logged in; its subject
    is the id of the stored record. *)
Definition verify (cfg : Config) (env : Env) (tokens : TokenResponse) : M SessionUser :=
  let user := updateUserSession tokens in
  match tr_claims tokens with
  | None => throw (TypeError "Cannot read properties of undefined")
  | Some c =>
      dbUser ← upsertUser cfg env c;
      mret {| claims :=
                (λ uc, {| sub := Some (user_id dbUser); email := email uc;
                          first_name := first_name uc; last_name := last_name uc;
                          profile_image_url := profile_image_url uc;
                          role := role uc; exp := exp uc |}) <$> claims user;
              access_token := access_token user;
              refresh_token := refresh_token user;
              expires_at := expires_at user |}
  end.

End WithRuntime.

End Login.

(** ** client/src: the socket hook, the timer display and the modals *)

Module Browser.
Import Schema Runtime Routes.

(** *** hooks/use-websocket.tsx *)

Definition maxReconnectAttempts : nat := 5.
Definition reconnectDelay : Z := 3000.

Inductive SocketEvent :=
| onopen
| onclose (code : Z)
| onerror.

#[global] Instance SocketEvent_eq_dec : EqDecision SocketEvent.
Proof. solve_decision. Defined.

(** [reconnectAttempts.current], and the delays of the [setTimeout] calls
    that schedule a [connect()], oldest first. *)
Record Hook := { reconnectAttempts : nat; scheduled : list Z }.

Definition mounted : Hook := {| reconnectAttempts := 0; scheduled := [] |}.

Definition handle_event (h : Hook) (ev : SocketEvent) : Hook :=
  match ev with
  | onopen => {| reconnectAttempts := 0; scheduled := scheduled h |}
  | onclose code =>
      if negb (bool_decide (code = 1000%Z))
         && bool_decide (reconnectAttempts h < maxReconnectAttempts)
      then {| reconnectAttempts := S (reconnectAttempts h);
              scheduled := scheduled h ++ [reconnectDelay] |}
      else h
  | onerror => h
  end.

Definition handle_events (h : Hook) (evs : list SocketEvent) : Hook :=
  foldl handle_event h evs.

(** *** components/timer-widget.tsx and room-card.tsx: the display *)

(** [s.padStart(2, '0')] *)
Definition padStart2 (s : string) : string :=
  match String.length s with
  | 0 => "00"
  | 1 => "0" +:+ s
  | _ => s
  end.

(** [Math.floor(elapsed / 60)] and [elapsed % 60]; the remainder of
    JavaScript has the sign of the dividend. *)
Definition minutes_of (elapsed : Z) : Z := (elapsed `div` 60)%Z.
Definition seconds_of (elapsed : Z) : Z := Z.rem elapsed 60.

Definition format_elapsed (elapsed : Z) : string :=
  padStart2 (pretty (minutes_of elapsed)) +:+ ":"
  +:+ padStart2 (pretty (seconds_of elapsed)).

(** *** pages/dashboard.tsx: the statistics *)

Record DashboardStats := {
  dirty : nat; cleaning : nat; inspection : nat; clean : nat; occupied : nat }.

Definition count_status (st : string) (rooms : list Room) : nat :=
  length (filter (λ r, room_status r = st) rooms).

Definition stats (rooms : list Room) : DashboardStats :=
  {| dirty := count_status "dirty" rooms;
     cleaning := count_status "cleaning" rooms;
     inspection := count_status "inspection" rooms;
     clean := count_status "clean" rooms;
     occupied := count_status "occupied" rooms |}.

(** *** components/room-status-modal.tsx and approval-modal.tsx *)

Definition statusOptions : list string :=
  ["dirty"; "clean"; "occupied"; "cleaning"; "inspection"; "approved"].

Definition updateStatusMutation (room : Room) (newStatus : string) : Route :=
  PatchRoomStatus (room_id room) (Some newStatus).

(** [handleStatusUpdate]: a request is sent when the selection differs from
    the status the modal was opened with. *)
Definition handleStatusUpdate (room : Room) (selectedStatus : string) : option Route :=
  if bool_decide (selectedStatus ≠ room_status room)
  then Some (updateStatusMutation room selectedStatus)
  else None.

Definition approveRoomMutation (room : Room) : Route :=
  PatchRoomStatus (room_id room) (Some "approved").

(** *** the checklist modal *)

Record ChecklistItem := { item_id : string; item_text : string }.
Record ChecklistStep := {
  step_title : string;
  step_items : option (list ChecklistItem) }.

(** The template as the client holds it: [template.items] by its entries. *)
Record ClientTemplate := {
  tpl_id : string;
  tpl_items : option (list (string * ChecklistStep)) }.

Definition getTotalItemCount (template : option ClientTemplate) : nat :=
  match template ≫= tpl_items with
  | None => 0
  | Some steps =>
      foldl (λ total step, total + length (default [] (step_items step.2))) 0 steps
  end.

(** [setCompletedItems(prev => ({ ...prev, [itemId]: checked }))] *)
Definition handleItemToggle (itemId : string) (checked : bool)
  (completedItems : gmap string bool) : gmap string bool :=
  <[itemId := checked]> completedItems.

(** [Object.values(completedItems).filter(Boolean).length] *)
Definition getCompletedCount (completedItems : gmap string bool) : nat :=
  length (filter (λ v, v = true) ((map_to_list completedItems).*2)).


Section WithJson.
(** [JSON.stringify] of the record of checked items. *)
Context (stringify : gmap string bool → string).

Definition saveProgressMutation (template : option ClientTemplate) (room : Room)
  (currentUser : User) (completedItems : gmap string bool) : string + Route :=
  match template with
  | None => inl "No template available"
  | Some template =>
      inr (PostChecklistCompletion
             {| ccb_roomId := Some (room_id room);
                ccb_templateId := Some (tpl_id template);
                ccb_housekeeperId := Some (user_id currentUser);
                ccb_supervisorId := None;
                ccb_completedItems := Some (stringify completedItems);
                ccb_supervisorSignature := None;
                ccb_isCompleted := Some (Some false);
                ccb_completedAt := None |})
  end.

Definition submitChecklistMutation (template : option ClientTemplate) (room : Room)
  (currentUser : User) (supervisorId : string)
  (completedItems : gmap string bool) (now : Z) : string + Route :=
  match template with
  | None => inl "No template available"
  | Some template =>
      let totalItems := getTotalItemCount (Some template) in
      let completedCount := getCompletedCount completedItems in
      if bool_decide (completedCount < totalItems)
      then inl "Todos os itens devem ser completados antes de finalizar."
      else if bool_decide (supervisorId = EmptyString)
      then inl "Um supervisor deve ser selecionado."
      else
        inr (PostChecklistCompletion
               {| ccb_roomId := Some (room_id room);
                  ccb_templateId := Some (tpl_id template);
                  ccb_housekeeperId := Some (user_id currentUser);
                  ccb_supervisorId := Some (Some supervisorId);
                  ccb_completedItems := Some (stringify completedItems);
                  ccb_supervisorSignature := None;
                  ccb_isCompleted := Some (Some true);
                  ccb_completedAt := Some (Some (toISOString now)) |})
  end.
End WithJson.

(** *** components/problem-report-modal.tsx *)

Definition problemTypes : list string :=
  ["eletrico"; "hidraulico"; "ar_condicionado"; "moveis"; "eletronicos";
   "limpeza_especial"; "outros"].
Definition priorities : list string := ["baixa"; "media"; "alta"; "urgente"].

Record ProblemForm := {
  form_type : string;
  form_priority : string;
  form_description : string;
  form_location : string }.

Section WithTrim.
(** [String.prototype.trim], a function of the JavaScript runtime. *)
Context (trim : string → string).

Definition submitProblemMutation (formData : ProblemForm) (room : Room)
  (currentUser : User) : string + Route :=
  if bool_decide (form_type formData = EmptyString)
     || bool_decide (trim (form_description formData) = EmptyString)
  then inl "Tipo e descrição são obrigatórios."
  else
    inr (PostProblemReport
           {| prb_roomId := Some (room_id room);
              prb_reportedBy := Some (user_id currentUser);
              prb_type := Some (form_type formData);
              prb_priority := Some (form_priority formData);
              prb_description := Some (form_description formData);
              prb_location := Some (Some (form_location formData));
              prb_photos := Some (Some "[]");
              prb_status := None;
              prb_resolvedBy := None;
              prb_resolvedAt := None |}).
End WithTrim.

End Browser.

(** ** A larger hotel, for the examples of the queries, the login and the
    modals *)

Module Scenario.
Import Schema Session Runtime Storage Routes Browser.

Definition sofia : User :=
  {| user_id := "u-sofia"; user_name := Some "Supervisor A";
     user_email := Some "supervisor@hotel.com"; user_firstName := None;
     user_lastName := None; user_profileImageUrl := None;
     user_role := "supervisor"; user_createdAt := Some 0%Z;
     user_updatedAt := Some 0%Z |}.

Definition room505 : Room :=
  {| room_id := "r-505"; room_number := "505"; room_floor := 5;
     room_type := "deluxe"; room_status := "occupied";
     room_assignedTo := None; room_lastCleaned := None;
     room_priority := Some "media"; room_createdAt := Some 0%Z;
     room_updatedAt := Some 0%Z |}.

Definition template : ChecklistTemplate :=
  {| ct_id := "t-1"; ct_name := "Limpeza 5 Estrelas"; ct_items := "{}";
     ct_createdAt := Some 0%Z |}.

(** A checklist of room 101 that Ana saved half-way, and one she
    finalized, which Sofia has signed. *)
Definition draft : ChecklistCompletion :=
  {| cc_id := "c-1"; cc_roomId := "r-101"; cc_templateId := "t-1";
     cc_housekeeperId := "u-ana"; cc_supervisorId := None;
     cc_completedItems := "{}"; cc_supervisorSignature := None;
     cc_isCompleted := Some false; cc_completedAt := None;
     cc_createdAt := Some 1300000%Z |}.

Definition finalized : ChecklistCompletion :=
  {| cc_id := "c-2"; cc_roomId := "r-101"; cc_templateId := "t-1";
     cc_housekeeperId := "u-ana"; cc_supervisorId := Some "u-sofia";
     cc_completedItems := "{}"; cc_supervisorSignature := None;
     cc_isCompleted := Some true; cc_completedAt := Some 1400000%Z;
     cc_createdAt := Some 1400000%Z |}.

Definition leak : ProblemReport :=
  {| pr_id := "p-1"; pr_roomId := "r-101"; pr_reportedBy := "u-ana";
     pr_type := "hidraulico"; pr_priority := "alta";
     pr_description := "leak"; pr_location := None; pr_photos := Some "[]";
     pr_status := "reported"; pr_resolvedBy := None; pr_resolvedAt := None;
     pr_createdAt := Some 1100000%Z |}.

Definition lamp : ProblemReport :=
  {| pr_id := "p-2"; pr_roomId := "r-101"; pr_reportedBy := "u-ana";
     pr_type := "eletrico"; pr_priority := "media";
     pr_description := "lamp"; pr_location := None; pr_photos := Some "[]";
     pr_status := "reported"; pr_resolvedBy := None; pr_resolvedAt := None;
     pr_createdAt := Some 1200000%Z |}.

Definition hotel : Store :=
  {| users := [Example.maria; Example.ana; sofia];
     rooms := [Example.room101; Example.room205; room505];
     cleaningSessions := [Example.session205];
     checklistTemplates := [template];
     checklistCompletions := [draft; finalized];
     problemReports := [leak; lamp] |}.

Definition world : World := with_db Example.world hotel.

(** The order of room numbers: here, the order of their bytes. *)
Definition collate (a b : string) : bool := bool_decide (String.leb a b = true).

(** The template as a browser holds it: two steps, three items. *)
Definition client_template : ClientTemplate :=
  {| tpl_id := "t-1";
     tpl_items := Some
       [ ("step1", {| step_title := "Teste de Funcionalidade";
                      step_items := Some
                        [ {| item_id := "lighting"; item_text := "Ligar as luzes" |};
                          {| item_id := "shower"; item_text := "Testar o chuveiro" |} ] |});
         ("step2", {| step_title := "Limpeza Profunda";
                      step_items := Some
                        [ {| item_id := "mirror"; item_text := "Espelho limpo" |} ] |}) ] |}.

Definition all_checked : gmap string bool :=
  handleItemToggle "mirror" true
    (handleItemToggle "shower" true (handleItemToggle "lighting" true ∅)).

Definition stringify (m : gmap string bool) : string := "{}".

Definition production : Login.Config :=
  {| Login.NODE_ENV := Some "production"; Login.ALLOW_DEV_ROLE_OVERRIDE := None |}.

(** The claims of a token for the subject [id]. *)
Definition token (id : string) (mail : option string) (claimed_role : option string)
  : Claims :=
  {| sub := Some id; email := mail; first_name := Some "Ana";
     last_name := Some "Costa"; profile_image_url := None;
     role := claimed_role; exp := Some 2000%Z |}.

End Scenario.

(** ** Notions used to state the properties *)

(** [inv I m]: running [m] keeps [I], whether it returns or throws. *)
Definition inv (I : World → Prop) {A} (m : M A) : Prop :=
  ∀ w, I w → I (m w).2.

(** [I] does not look at the database. *)
Definition db_blind (I : World → Prop) : Prop := ∀ w d, I w → I (with_db w d).

(** The sockets and the log of what was sent are those of [w0]. *)
Definition same_sockets (w0 w : World) : Prop :=
  wsClients w = wsClients w0 ∧ readyState w = readyState w0 ∧ sent w = sent w0.

(** The request gets past [isAuthenticated] and the route's [requireRole]. *)
Definition passes_gate (env : Env) (req : Request) (w : World) : Prop :=
  ∃ session, isAuthenticated env (user req) = inr session ∧
    match required_roles (route req) with
    | Some allowedRoles =>
        ∃ u, requireRole allowedRoles session w = (Return (inr u), w)
    | None => True
    end.

(** The calls of [send] that one [broadcast] of [message] makes in [w]. *)
Definition fan_out (w : World) (message : WSMessage) : list (nat * WSMessage) :=
  (λ client, (client, message))
    <$> filter (λ client, readyState w client = OPEN) (elements (wsClients w)).

Definition deliveries_to (client : nat) (l : list (nat * WSMessage)) : nat :=
  length (filter (λ p, p.1 = client) l).

(** The subscriptions of [w] whose socket is open. *)
Definition open_clients (w : World) : gset nat :=
  filter (λ client, readyState w client = OPEN) (wsClients w).

(** Every room carries a status of the [room_status] enum. *)
Definition statuses_ok (rs : list Room) : Prop :=
  ∀ r, r ∈ rs → room_status r ∈ roomStatusEnum.

Definition rooms_ok (d : Store) : Prop := statuses_ok (rooms d).

(** The server answers a list of requests, one after the other. *)
Fixpoint run (reqs : list (Env * Request)) (w : World) : World :=
  match reqs with
  | [] => w
  | (env, req) :: rest => run rest (serve env req w).2
  end.

(** A room record with [updatedAt] set and every other column kept. *)
Definition touch (t : Z) (r : Room) : Room :=
  {| room_id := room_id r; room_number := room_number r;
     room_floor := room_floor r; room_type := room_type r;
     room_status := room_status r;
     room_assignedTo := room_assignedTo r;
     room_lastCleaned := room_lastCleaned r;
     room_priority := room_priority r;
     room_createdAt := room_createdAt r;
     room_updatedAt := Some t |}.

(** The login session [u] with the [role] claim of its token replaced. *)
Definition claim_role (r : option string) (u : SessionUser) : SessionUser :=
  {| claims :=
       (λ c, {| sub := sub c; email := email c; first_name := first_name c;
                last_name := last_name c;
                profile_image_url := profile_image_url c;
                role := r; exp := exp c |}) <$> claims u;
     access_token := access_token u;
     refresh_token := refresh_token u;
     expires_at := expires_at u |}.

(** What [requireRole] decides from the stored record of [userId]. *)
Definition stored_role_decision (allowedRoles : list string) (d : Store) (userId : string)
  : Response + User :=
  match head (filter (λ u, user_id u = userId) (users d)) with
  | Some u =>
      if bool_decide (user_role u ∈ allowedRoles) then inr u
      else inl (respond 403 "Insufficient permissions")
  | None => inl (respond 403 "Insufficient permissions")
  end.

(** The caller has a login session that [isAuthenticated] accepts. *)
Definition authenticated (env : Env) (u : option SessionUser) : Prop :=
  ∃ session, isAuthenticated env u = inr session.

(** A completion as the server stores it: the status and the total, and
    no instant. *)
Definition sealing (totalTime : Z) : CleaningSessionPatch :=
  {| csp_id := None; csp_roomId := None; csp_housekeeperId := None;
     csp_startTime := None; csp_endTime := None; csp_pausedTime := None;
     csp_totalTime := Some (Some totalTime); csp_status := Some "completed";
     csp_createdAt := None |}.

(** [m] leaves the sockets alone and sends nothing. *)
Definition quiet {A} (m : M A) : Prop := ∀ w0, inv (same_sockets w0) m.

(** The body of a handler: if it returns, it answers 200 and has made one
    broadcast; if it throws, it has sent nothing. *)
Definition broadcasts_once (m : M Response) : Prop :=
  ∀ w, match m w with
       | (Return res, w') =>
           status res = 200 ∧ wsClients w' = wsClients w ∧
           readyState w' = readyState w ∧
           ∃ message, sent w' = sent w ++ fan_out w message
       | (Throw _, w') => same_sockets w w'
       end.

(** A handler: it answers; with 200 after one broadcast, with another
    status after none. *)
Definition fans_out (m : M Response) : Prop :=
  ∀ w, ∃ res w',
    m w = (Return res, w') ∧ wsClients w' = wsClients w ∧
    readyState w' = readyState w ∧
    ((status res = 200 ∧ ∃ message, sent w' = sent w ++ fan_out w message)
     ∨ (status res ≠ 200 ∧ sent w' = sent w)).

(** [m] never changes the world. *)
Definition readonly {A} (m : M A) : Prop := ∀ w, (m w).2 = w.

(** When [m] throws, it has changed nothing. *)
Definition atomic {A} (m : M A) : Prop :=
  ∀ w e w', m w = (Throw e, w') → w' = w.

(** [m] always returns. *)
Definition total {A} (m : M A) : Prop := ∀ w, ∃ a w', m w = (Return a, w').

(** The rest of a handler once the storage has written: it answers 200. *)
Definition sure (m : M Response) : Prop :=
  ∀ w, ∃ res w', m w = (Return res, w') ∧ status res = 200.

(** The body of a handler: it answers 200, or throws with nothing written. *)
Definition all_or_nothing (m : M Response) : Prop :=
  ∀ w, match m w with
       | (Return res, _) => status res = 200
       | (Throw _, w') => w' = w
       end.

(** A handler: it answers, and with another status than 200 only if it has
    written nothing. *)
Definition commits_or_not (m : M Response) : Prop :=
  ∀ w, ∃ res w', m w = (Return res, w') ∧ (status res = 200 ∨ w' = w).

(** The query gets past [isAuthenticated] and the route's [requireRole]. *)
Definition passes_query_gate (env : Env) (req : Queries.QueryRequest) (w : World)
  : Prop :=
  ∃ session, isAuthenticated env (Queries.q_user req) = inr session ∧
    match Queries.query_roles (Queries.query req) with
    | Some allowedRoles =>
        ∃ u, requireRole allowedRoles session w = (Return (inr u), w)
    | None => True
    end.

(** The rooms that GET /api/rooms shows to the stored user [me], in the
    order of the table. *)
Definition rooms_shown_to (me : User) (assignedTo : option string) (d : Store)
  : list Room :=
  if bool_decide (user_role me = "manager") then
    if Session.truthy_string assignedTo
    then filter (λ r, room_assignedTo r = Some (default EmptyString assignedTo)) (rooms d)
    else rooms d
  else filter (λ r, room_assignedTo r = Some (user_id me)) (rooms d).

(** [collate] orders the room numbers: any two compare, and the
    comparison is transitive. *)
Definition collation (collate : string → string → bool) : Prop :=
  (∀ a b, collate a b = false → collate b a = true) ∧
  (∀ a b c, collate a b = true → collate b c = true → collate a c = true).

(** No room stands before one whose number sorts earlier. *)
Definition ordered_by_number (collate : string → string → bool) (l : list Room)
  : Prop :=
  StronglySorted (λ a b, collate (room_number a) (room_number b) = true) l.

(** [a] does not come after [b] when the newest is first. *)
Definition not_older (a b : ProblemReport) : Prop :=
  desc_before (pr_createdAt b) (pr_createdAt a) = false.

(** The record that [upsertUser(claims)] of replitAuth.ts passes to the
    storage, for the role it has determined. *)
Definition login_data (c : Claims) (userRole : string) : UserStorage.UpsertUser :=
  {| UserStorage.uu_id := sub c;
     UserStorage.uu_name := None;
     UserStorage.uu_email := Some <$> email c;
     UserStorage.uu_firstName := Some <$> first_name c;
     UserStorage.uu_lastName := Some <$> last_name c;
     UserStorage.uu_profileImageUrl := Some <$> profile_image_url c;
     UserStorage.uu_role := Some userRole;
     UserStorage.uu_createdAt := None;
     UserStorage.uu_updatedAt := None |}.

(** The first row that has the id: what [getUser] finds. *)
Definition stored (id : string) (w : World) : option User :=
  head (filter (λ u, user_id u = id) (users (db w))).

(** The configuration of a deployment: no development override. *)
Definition in_production (cfg : Login.Config) : Prop :=
  Login.NODE_ENV cfg ≠ Some "development" ∧
  Login.ALLOW_DEV_ROLE_OVERRIDE cfg ≠ Some "true".

(** An update of a cleaning session that gets past drizzle and the types
    of the columns: it has a key, [startTime] is absent, no other timestamp
    key holds a string, and the integers are 32-bit. *)
Definition well_typed_update (u : CleaningSessionPatch) : Prop :=
  cleaningSessionPatch_keys u = true ∧
  csp_startTime u = None ∧
  is_string (csp_endTime u) = false ∧ is_string (csp_createdAt u) = false ∧
  written_ok int4_ok (csp_pausedTime u) = true ∧
  written_ok int4_ok (csp_totalTime u) = true.

(** How many times the socket opened. *)
Definition opens (evs : list Browser.SocketEvent) : nat :=
  length (filter (λ ev, ev = Browser.onopen) evs).


(** ** Reasoning about [M] *)

Section Monad.
Context {A B : Type}.

Lemma bind_return (m : M A) (f : A → M B) w a w' :
    m w = (Return a, w') → (m ≫= f) w = f a w'.
  Proof. intros H. unfold mbind, M_bind. by rewrite H. Qed.

Lemma bind_throw (m : M A) (f : A → M B) w e w' :
    m w = (Throw e, w') → (m ≫= f) w = (Throw e, w').
  Proof. intros H. unfold mbind, M_bind. by rewrite H. Qed.

Lemma try_catch_return (m : M A) h w a w' :
    m w = (Return a, w') → try_catch m h w = (Return a, w').
  Proof. intros H. unfold try_catch. by rewrite H. Qed.

Lemma try_catch_throw (m : M A) h w e w' :
    m w = (Throw e, w') → try_catch m h w = h e w'.
  Proof. intros H. unfold try_catch. by rewrite H. Qed.
End Monad.

Lemma with_db_id w : with_db w (db w) = w.
Proof. by destruct w. Qed.

Lemma with_rooms_id d : with_rooms d (rooms d) = d.
Proof. by destruct d. Qed.

Section Inv.
Context (I : World → Prop).

Lemma inv_ret {A} (a : A) : inv I (mret a).
  Proof. by intros w. Qed.

Lemma inv_throw {A} e : inv I (@throw A e).
  Proof. by intros w. Qed.

Lemma inv_bind {A B} (m : M A) (f : A → M B) :
    inv I m → (∀ a, inv I (f a)) → inv I (m ≫= f).
  Proof.
    intros Hm Hf w Hw. specialize (Hm w Hw). unfold mbind, M_bind.
    destruct (m w) as [[a|e] w']; simpl in *; [by apply Hf | done].
  Qed.

Lemma inv_try_catch {A} (m : M A) h :
    inv I m → (∀ e, inv I (h e)) → inv I (try_catch m h).
  Proof.
    intros Hm Hh w Hw. specialize (Hm w Hw). unfold try_catch.
    destruct (m w) as [[a|e] w']; simpl in *; [done | by apply Hh].
  Qed.

Lemma inv_get_db : inv I get_db.
  Proof. by intros w. Qed.

Lemma inv_check b what : inv I (check b what).
  Proof. destruct b; [apply inv_ret | apply inv_throw]. Qed.

Lemma inv_parse {X Y} (schema : X → option Y) body : inv I (parse schema body).
  Proof. unfold parse. destruct (schema body); [apply inv_ret | apply inv_throw]. Qed.

Lemma inv_set_values any_key dates : inv I (set_values any_key dates).
  Proof.
    unfold set_values. destruct (negb any_key); [apply inv_throw|].
    destruct (existsb _ _); [apply inv_throw | apply inv_ret].
  Qed.
End Inv.

Create HintDb inv discriminated.
#[local] Hint Resolve inv_ret inv_throw inv_get_db inv_check inv_parse
  inv_set_values : inv.

Ltac inv_step :=
  first
    [ solve [ eauto with inv ]
    | apply inv_bind; [ | intros ? ]
    | apply inv_try_catch; [ | intros ? ]
    | match goal with |- inv _ (match ?x with _ => _ end) => destruct x end
    | match goal with |- inv _ (if ?x then _ else _) => destruct x end ].

Section Blind.
Context (I : World → Prop) (HI : db_blind I).

Lemma inv_put_db d : inv I (put_db d).
  Proof. intros w Hw. by apply HI. Qed.
Hint Resolve inv_put_db : inv.

Lemma inv_getUser id : inv I (getUser id).
  Proof. unfold getUser. repeat inv_step. Qed.

Lemma inv_updateRoomStatus env id st : inv I (updateRoomStatus env id st).
  Proof. unfold updateRoomStatus. repeat inv_step. Qed.

Lemma inv_startCleaningSession env v : inv I (startCleaningSession env v).
  Proof. unfold startCleaningSession. repeat inv_step. Qed.

Lemma inv_getActiveCleaningSession id : inv I (getActiveCleaningSession id).
  Proof. unfold getActiveCleaningSession. repeat inv_step. Qed.

Lemma inv_updateCleaningSession id u : inv I (updateCleaningSession id u).
  Proof. unfold updateCleaningSession. repeat inv_step. Qed.

Lemma inv_saveChecklistCompletion env v : inv I (saveChecklistCompletion env v).
  Proof. unfold saveChecklistCompletion. repeat inv_step. Qed.

Lemma inv_updateChecklistCompletion id u : inv I (updateChecklistCompletion id u).
  Proof. unfold updateChecklistCompletion. repeat inv_step. Qed.

Lemma inv_createProblemReport env v : inv I (createProblemReport env v).
  Proof. unfold createProblemReport. repeat inv_step. Qed.

Lemma inv_requireRole roles su : inv I (requireRole roles su).
  Proof. unfold requireRole. repeat inv_step; apply inv_getUser. Qed.
End Blind.

(** ** The gate *)

Lemma isAuthenticated_rejects env u res :
  isAuthenticated env u = inl res → res = respond 401 "Unauthorized".
Proof.
  unfold isAuthenticated. intros H.
  repeat case_match; simplify_eq; done.
Qed.

Lemma requireRole_decides allowedRoles su w :
  requireRole allowedRoles su w =
    (Return (if negb (truthy_string (claims su ≫= sub))
             then inl (respond 401 "Unauthorized")
             else stored_role_decision allowedRoles (db w)
                    (default EmptyString (claims su ≫= sub))), w).
Proof.
  unfold requireRole, stored_role_decision, try_catch.
  destruct (negb (truthy_string (claims su ≫= sub))); [done|].
  unfold getUser, mbind, M_bind, get_db; simpl.
  destruct (head _) as [u|]; [|done].
  by destruct (bool_decide (user_role u ∈ allowedRoles)).
Qed.

Lemma requireRole_rejects allowedRoles su w res w' :
  requireRole allowedRoles su w = (Return (inl res), w') → status res ≠ 200.
Proof.
  rewrite requireRole_decides. unfold stored_role_decision.
  intros H. repeat case_match; simplify_eq; done.
Qed.

Lemma passes_gate_app env req w :
  passes_gate env req w → app env req w = dispatch env (route req) w.
Proof.
  intros (su & Hauth & Hrole). unfold app. rewrite Hauth.
  destruct (required_roles (route req)) as [roles|]; [|done].
  destruct Hrole as [u Hu]. by rewrite (bind_return _ _ _ _ _ Hu).
Qed.

Lemma passes_gate_serve env req w :
  passes_gate env req w →
  serve env req w =
    match dispatch env (route req) w with
    | (Return res, w') => (res, w')
    | (Throw _, w') => (respond 500 "Internal Server Error", w')
    end.
Proof. intros H. unfold serve. by rewrite passes_gate_app. Qed.

(** ** Broadcast fan-out *)

Lemma same_sockets_blind w0 : db_blind (same_sockets w0).
Proof. by intros w d H. Qed.

Lemma quiet_storage {A} (m : M A) : (∀ I, db_blind I → inv I m) → quiet m.
Proof. intros H w0. apply H, same_sockets_blind. Qed.

Lemma quiet_parse {X Y} (schema : X → option Y) body : quiet (parse schema body).
Proof. intros w0. apply inv_parse. Qed.

Lemma quiet_throw {A} e : quiet (@throw A e).
Proof. intros w0. apply inv_throw. Qed.

Lemma quiet_ret {A} (a : A) : quiet (mret a).
Proof. intros w0. apply inv_ret. Qed.

Lemma quiet_bind {A B} (m : M A) (f : A → M B) :
  quiet m → (∀ a, quiet (f a)) → quiet (m ≫= f).
Proof. intros Hm Hf w0. apply inv_bind; [apply Hm | intros a; apply Hf]. Qed.

Lemma quiet_updateRoomStatus env id st : quiet (updateRoomStatus env id st).
Proof. apply quiet_storage. intros. by apply inv_updateRoomStatus. Qed.

Lemma quiet_startCleaningSession env v : quiet (startCleaningSession env v).
Proof. apply quiet_storage. intros. by apply inv_startCleaningSession. Qed.

Lemma quiet_updateCleaningSession id u : quiet (updateCleaningSession id u).
Proof. apply quiet_storage. intros. by apply inv_updateCleaningSession. Qed.

Lemma quiet_saveChecklistCompletion env v : quiet (saveChecklistCompletion env v).
Proof. apply quiet_storage. intros. by apply inv_saveChecklistCompletion. Qed.

Lemma quiet_updateChecklistCompletion id u : quiet (updateChecklistCompletion id u).
Proof. apply quiet_storage. intros. by apply inv_updateChecklistCompletion. Qed.

Lemma quiet_createProblemReport env v : quiet (createProblemReport env v).
Proof. apply quiet_storage. intros. by apply inv_createProblemReport. Qed.

Create HintDb quiet discriminated.
#[local] Hint Resolve quiet_parse quiet_throw quiet_ret quiet_updateRoomStatus
  quiet_startCleaningSession quiet_updateCleaningSession
  quiet_saveChecklistCompletion quiet_updateChecklistCompletion
  quiet_createProblemReport : quiet.

Ltac quiet_step :=
  first
    [ solve [ eauto with quiet ]
    | apply quiet_bind; [ | intros ? ]
    | match goal with |- quiet (match ?x with _ => _ end) => destruct x end
    | match goal with |- quiet (if ?x then _ else _) => destruct x end ].

Lemma fan_out_same w w' message :
  wsClients w' = wsClients w → readyState w' = readyState w →
  fan_out w' message = fan_out w message.
Proof. unfold fan_out. by intros -> ->. Qed.

Lemma broadcast_sends message w :
  broadcast message w = (Return (), with_sent w (sent w ++ fan_out w message)).
Proof. done. Qed.

Lemma broadcasts_once_last message value :
  broadcasts_once (broadcast message ≫= λ _, mret (res_json value)).
Proof. intros w. simpl. eauto 10. Qed.

Lemma broadcasts_once_bind {A} (m : M A) (f : A → M Response) :
  quiet m → (∀ a, broadcasts_once (f a)) → broadcasts_once (m ≫= f).
Proof.
  intros Hm Hf w. specialize (Hm w w). unfold mbind, M_bind.
  destruct (m w) as [[a|e] w1] eqn:Hw; simpl in Hm.
  - destruct Hm as (Hc & Hr & Hs); [done|].
    specialize (Hf a w1). destruct (f a w1) as [[res|e] w2].
    + destruct Hf as (? & ? & ? & msg & Hsent).
      rewrite (fan_out_same w) in Hsent by done.
      repeat split; [done | congruence | congruence |].
      exists msg. congruence.
    + destruct Hf as (? & ? & ?). repeat split; congruence.
  - apply Hm. done.
Qed.

Lemma fans_out_try_catch (body : M Response) (handler : Exn → M Response) :
  broadcasts_once body →
  (∀ e, ∃ res, handler e = mret res ∧ status res ≠ 200) →
  fans_out (try_catch body handler).
Proof.
  intros Hb Hh w. specialize (Hb w). unfold try_catch.
  destruct (body w) as [[res|e] w'].
  - destruct Hb as (? & ? & ? & ?). exists res, w'. eauto 10.
  - destruct Hb as (? & ? & ?). destruct (Hh e) as (res & -> & ?).
    exists res, w'. eauto 10.
Qed.

Ltac broadcasts_step :=
  first
    [ apply broadcasts_once_last
    | apply broadcasts_once_bind; [ solve [ repeat quiet_step ] | intros ? ] ].

Ltac handler_fans_out :=
  apply fans_out_try_catch;
  [ repeat broadcasts_step
  | intros e; try (destruct e); (eexists; split; [ reflexivity | done ]) ].

Lemma fans_out_patchRoomStatus env id body : fans_out (patchRoomStatus env id body).
Proof. unfold patchRoomStatus. handler_fans_out. Qed.

Lemma fans_out_postCleaningSession env body : fans_out (postCleaningSession env body).
Proof. unfold postCleaningSession. handler_fans_out. Qed.

Lemma fans_out_patchCleaningSession id updates : fans_out (patchCleaningSession id updates).
Proof. unfold patchCleaningSession. handler_fans_out. Qed.

Lemma fans_out_postChecklistCompletion env body :
  fans_out (postChecklistCompletion env body).
Proof. unfold postChecklistCompletion. handler_fans_out. Qed.

Lemma fans_out_patchChecklistCompletion env id updates :
  fans_out (patchChecklistCompletion env id updates).
Proof. unfold patchChecklistCompletion. handler_fans_out. Qed.

Lemma fans_out_postProblemReport env body : fans_out (postProblemReport env body).
Proof. unfold postProblemReport. handler_fans_out. Qed.

Lemma fans_out_dispatch env r : is_mutation r = true → fans_out (dispatch env r).
Proof.
  destruct r; simpl; intros; try done;
    eauto using fans_out_patchRoomStatus, fans_out_postCleaningSession,
      fans_out_patchCleaningSession, fans_out_postChecklistCompletion,
      fans_out_patchChecklistCompletion, fans_out_postProblemReport.
Qed.

Lemma fans_out_app env req : is_mutation (route req) = true → fans_out (app env req).
Proof.
  intros Hmut w. unfold app.
  destruct (isAuthenticated env (user req)) as [res|su] eqn:Hauth.
  - apply isAuthenticated_rejects in Hauth as ->.
    exists (respond 401 "Unauthorized"), w. simpl. eauto 10.
  - destruct (required_roles (route req)) as [roles|].
    + unfold mbind, M_bind.
      destruct (requireRole roles su w) as [[[res|u]|e] w'] eqn:Hgate.
      * pose proof Hgate as Hrej. apply requireRole_rejects in Hrej.
        rewrite requireRole_decides in Hgate. simplify_eq.
        exists res, w'. eauto 10.
      * rewrite requireRole_decides in Hgate. simplify_eq.
        by apply fans_out_dispatch.
      * rewrite requireRole_decides in Hgate. simplify_eq.
    + by apply fans_out_dispatch.
Qed.

Lemma count_tagged {T} (tag : T) (c : nat) (l : list nat) :
  NoDup l →
  length (filter (λ p, p.1 = c) ((λ x, (x, tag)) <$> l))
  = if bool_decide (c ∈ l) then 1 else 0.
Proof.
  induction 1 as [|x l Hx Hl IH]; [done|].
  rewrite fmap_cons, filter_cons. simpl.
  destruct (decide (x = c)) as [->|Hne].
  - rewrite bool_decide_eq_true_2 by left. simpl. rewrite IH.
    by rewrite bool_decide_eq_false_2.
  - rewrite IH. erewrite bool_decide_ext; [done|]. rewrite elem_of_cons. intuition congruence.
Qed.

Lemma elem_of_open_list w c :
  c ∈ filter (λ client, readyState w client = OPEN) (elements (wsClients w))
  ↔ c ∈ open_clients w.
Proof.
  unfold open_clients.
  rewrite list_elem_of_filter, elem_of_elements, elem_of_filter. done.
Qed.

Lemma deliveries_to_fan_out w message client :
  deliveries_to client (fan_out w message)
  = if bool_decide (client ∈ open_clients w) then 1 else 0.
Proof.
  unfold deliveries_to, fan_out. rewrite count_tagged.
  - erewrite bool_decide_ext; [done|]. apply elem_of_open_list.
  - apply NoDup_filter, NoDup_elements.
Qed.

Lemma length_fan_out w message : length (fan_out w message) = size (open_clients w).
Proof.
  unfold fan_out. rewrite length_fmap.
  change (size (open_clients w)) with (length (elements (open_clients w))).
  apply Permutation_length, NoDup_Permutation.
  - apply NoDup_filter, NoDup_elements.
  - apply NoDup_elements.
  - intros c. by rewrite elem_of_open_list, elem_of_elements.
Qed.

Lemma open_clients_all w :
  (∀ c, c ∈ wsClients w → readyState w c = OPEN) → open_clients w = wsClients w.
Proof.
  intros H. apply set_eq. intros c. unfold open_clients.
  rewrite elem_of_filter. intuition.
Qed.

Lemma open_clients_but_one w c0 :
  c0 ∈ wsClients w → readyState w c0 ≠ OPEN →
  (∀ c, c ∈ wsClients w → c ≠ c0 → readyState w c = OPEN) →
  size (open_clients w) = size (wsClients w) - 1.
Proof.
  intros Hin Hclosed Hrest.
  assert (open_clients w = wsClients w ∖ {[c0]}) as ->.
  { apply set_eq. intros c. unfold open_clients.
    rewrite elem_of_filter, elem_of_difference, elem_of_singleton.
    split; [intros [? ?]; split; [done | congruence] | intros [? ?]; eauto]. }
  rewrite size_difference by (by apply singleton_subseteq_l).
  by rewrite size_singleton.
Qed.

(** Once the [close] (or [error]) listener of a socket has run, no
    broadcast reaches it. *)
Lemma closed_socket_gets_nothing ws message w :
  deliveries_to ws (fan_out (on_close ws w).2 message) = 0
  ∧ deliveries_to ws (fan_out (on_error ws w).2 message) = 0.
Proof.
  assert (ws ∉ filter (λ client, readyState w client = OPEN) (wsClients w ∖ {[ws]}))
    as Hgone.
  { rewrite elem_of_filter, elem_of_difference, elem_of_singleton. tauto. }
  rewrite !deliveries_to_fan_out. unfold open_clients. simpl.
  by rewrite !bool_decide_eq_false_2.
Qed.

(** A socket that connects and is open is served by the next broadcast. *)
Lemma connected_socket_is_served ws message w :
  readyState w ws = OPEN →
  deliveries_to ws (fan_out (on_connection ws w).2 message) = 1.
Proof.
  intros Hopen. rewrite deliveries_to_fan_out. unfold open_clients. simpl.
  rewrite bool_decide_eq_true_2; [done|].
  rewrite elem_of_filter, elem_of_union, elem_of_singleton. tauto.
Qed.

(** C4. One mutation that succeeds (the server answers 200) delivers the
    same event exactly once to every subscription of [wsClients] whose
    socket is open and to no other: N events when all N sockets are open,
    N-1 when one of them is not.  A mutation that fails or is refused
    (any other status) delivers nothing.  The set of subscriptions itself
    is left as it was. *)
Theorem C4_broadcast_fan_out env req w :
  is_mutation (route req) = true →
  ∃ delivered,
    sent (serve env req w).2 = sent w ++ delivered ∧
    wsClients (serve env req w).2 = wsClients w ∧
    (status (serve env req w).1 = 200 →
       (∃ message, ∀ p, p ∈ delivered → p.2 = message) ∧
       (∀ client, deliveries_to client delivered
                  = if bool_decide (client ∈ wsClients w ∧ readyState w client = OPEN)
                    then 1 else 0) ∧
       length delivered = size (open_clients w) ∧
       ((∀ c, c ∈ wsClients w → readyState w c = OPEN) →
        length delivered = size (wsClients w)) ∧
       (∀ c0, c0 ∈ wsClients w → readyState w c0 ≠ OPEN →
              (∀ c, c ∈ wsClients w → c ≠ c0 → readyState w c = OPEN) →
              length delivered = size (wsClients w) - 1)) ∧
    (status (serve env req w).1 ≠ 200 → delivered = []).
Proof.
  intros Hmut.
  destruct (fans_out_app env req Hmut w) as (res & w' & Happ & Hc & Hr & Hsent).
  unfold serve. rewrite Happ. simpl.
  destruct Hsent as [[Hok [message Hs]] | [Hko Hs]].
  - exists (fan_out w message). split; [done|]. split; [done|]. split; [|done].
    intros _. repeat split.
    + exists message. intros p. unfold fan_out.
      rewrite list_elem_of_fmap. by intros (c & -> & _).
    + intros client. rewrite deliveries_to_fan_out.
      erewrite bool_decide_ext; [done|].
      unfold open_clients. rewrite elem_of_filter. intuition.
    + apply length_fan_out.
    + intros Hall. by rewrite length_fan_out, open_clients_all.
    + intros c0 ? ? ?. rewrite length_fan_out. by apply (open_clients_but_one w c0).
  - exists []. rewrite app_nil_r. repeat split; done.
Qed.

(** Two of the three registered sockets are open: a housekeeper's start
    reaches those two, and her attempt to set a status reaches nobody. *)
Lemma C4_broadcast_fan_out_witness :
  ∃ delivered,
    sent (serve (Example.env 1500000 "s-2")
            {| user := Some (Example.login "u-ana" None);
               route := startCleaningMutation Example.room101 Example.ana 1500000 |}
            Example.world).2 = sent Example.world ++ delivered ∧
    length delivered = 2.
Proof.
  destruct (C4_broadcast_fan_out (Example.env 1500000 "s-2")
              {| user := Some (Example.login "u-ana" None);
                 route := startCleaningMutation Example.room101 Example.ana 1500000 |}
              Example.world eq_refl)
    as (delivered & Hsent & _ & Hok & _).
  exists delivered. split; [exact Hsent|].
  destruct (Hok eq_refl) as (_ & _ & _ & _ & Hone).
  rewrite (Hone 3); [reflexivity | set_solver | done |].
  intros c Hc Hne. simpl.
  rewrite bool_decide_eq_false_2; done.
Defined.

(** ** Access control *)

Lemma sub_claim_role r su : claims (claim_role r su) ≫= sub = claims su ≫= sub.
Proof. by destruct su as [[c|] ? ? ?]. Qed.

Lemma requireRole_claim_role allowedRoles r su w :
  requireRole allowedRoles (claim_role r su) w = requireRole allowedRoles su w.
Proof. by rewrite !requireRole_decides, sub_claim_role. Qed.

Lemma app_claim_role env r u rt w :
  app env {| user := claim_role r <$> u; route := rt |} w
  = app env {| user := u; route := rt |} w.
Proof.
  unfold app. simpl. destruct u as [su|]; [|done]. simpl.
  destruct (negb (truthy_number (expires_at su))); [done|].
  destruct (bool_decide _).
  - destruct (required_roles rt); [|done].
    unfold mbind, M_bind. by rewrite requireRole_claim_role.
  - done.
Qed.

(** C9. The gate reads the role of the stored user record that the token's
    subject names, and nothing else of the token: the same request with
    another [role] claim in the caller's identity token gets the same
    answer and leaves the same world, on every route. *)
Theorem C9_role_from_durable_record env rt w (u : option SessionUser) r1 r2 :
  serve env {| user := claim_role r1 <$> u; route := rt |} w
  = serve env {| user := claim_role r2 <$> u; route := rt |} w
  ∧ (∀ allowedRoles su,
       requireRole allowedRoles (claim_role r1 su) w
       = requireRole allowedRoles (claim_role r2 su) w)
  ∧ (∀ allowedRoles su userId,
       claims su ≫= sub = Some userId → userId ≠ EmptyString →
       requireRole allowedRoles su w
       = (Return (stored_role_decision allowedRoles (db w) userId), w)).
Proof.
  split; [|split].
  - unfold serve. by rewrite !app_claim_role.
  - intros. by rewrite !requireRole_claim_role.
  - intros roles su userId Hsub Hne. rewrite requireRole_decides, Hsub. simpl.
    by rewrite bool_decide_eq_false_2.
Qed.

(** Ana is stored as a housekeeper.  Her token claiming [manager] is
    refused like her token claiming nothing. *)
Lemma C9_role_from_durable_record_witness :
  (serve (Example.env 1500000 "x")
     {| user := Some (Example.login "u-ana" (Some "manager"));
        route := PatchRoomStatus "r-101" (Some "clean") |} Example.world).1
  = respond 403 "Insufficient permissions"
  ∧ requireRole ["manager"; "supervisor"] (Example.login "u-ana" (Some "manager"))
      Example.world
    = (Return (stored_role_decision ["manager"; "supervisor"] Example.hotel "u-ana"),
       Example.world).
Proof.
  destruct (C9_role_from_durable_record (Example.env 1500000 "x")
              (PatchRoomStatus "r-101" (Some "clean")) Example.world
              (Some (Example.login "u-ana" None)) (Some "manager") None)
    as (Hserve & _ & Hdecision).
  split.
  - change (Some (Example.login "u-ana" (Some "manager")))
      with (claim_role (Some "manager") <$> Some (Example.login "u-ana" None)).
    rewrite Hserve. reflexivity.
  - apply (Hdecision _ _ "u-ana"); [reflexivity | discriminate].
Defined.

(** ** The active-session query *)

Lemma desc_before_irrefl a : desc_before a a = false.
Proof. destruct a; simpl; [|done]. apply bool_decide_eq_false. lia. Qed.

Lemma desc_before_asym a b : desc_before a b = true → desc_before b a = false.
Proof.
  destruct a, b; simpl; try done.
  rewrite bool_decide_eq_true, bool_decide_eq_false. lia.
Qed.

Lemma desc_before_neg_trans a b c :
  desc_before a b = false → desc_before b c = false → desc_before a c = false.
Proof.
  destruct a, b, c; simpl; try done.
  rewrite !bool_decide_eq_false. lia.
Qed.

Lemma first_desc_None {A} (key : A → option Z) l : first_desc key l = None ↔ l = [].
Proof.
  destruct l as [|x l]; [done|]. simpl.
  split; [|done]. by repeat case_match.
Qed.

Lemma first_desc_Some {A} (key : A → option Z) l x :
  first_desc key l = Some x →
  x ∈ l ∧ ∀ y, y ∈ l → desc_before (key y) (key x) = false.
Proof.
  revert x. induction l as [|a l IH]; [done|]. intros x. simpl.
  destruct (first_desc key l) as [y|] eqn:Hl.
  - destruct (IH y eq_refl) as [Hy Hmin].
    destruct (desc_before (key y) (key a)) eqn:Hya; intros [= <-].
    + split; [by right|]. intros z [->|Hz]%elem_of_cons; [|by apply Hmin].
      by apply desc_before_asym.
    + split; [by left|]. intros z [->|Hz]%elem_of_cons.
      * apply desc_before_irrefl.
      * apply (desc_before_neg_trans _ (key y)); [by apply Hmin | done].
  - intros [= <-]. apply first_desc_None in Hl as ->.
    split; [by left|]. intros z ->%list_elem_of_singleton.
    apply desc_before_irrefl.
Qed.



(** ** The status of a room stays in the enum *)

Ltac run_storage :=
  unfold set_values, mbind, M_bind, get_db, put_db, check, mret, M_ret, throw; simpl;
  repeat (case_match; simpl; simplify_eq); try done.

Section RoomsKept.
Context (P : list Room → Prop).

Lemma rooms_startCleaningSession env v :
  inv (λ w, P (rooms (db w))) (startCleaningSession env v).
Proof. intros w Hw. unfold startCleaningSession. run_storage. Qed.

Lemma rooms_updateCleaningSession id u :
  inv (λ w, P (rooms (db w))) (updateCleaningSession id u).
Proof. intros w Hw. unfold updateCleaningSession. run_storage. Qed.

Lemma rooms_saveChecklistCompletion env v :
  inv (λ w, P (rooms (db w))) (saveChecklistCompletion env v).
Proof. intros w Hw. unfold saveChecklistCompletion. run_storage. Qed.

Lemma rooms_updateChecklistCompletion id u :
  inv (λ w, P (rooms (db w))) (updateChecklistCompletion id u).
Proof. intros w Hw. unfold updateChecklistCompletion. run_storage. Qed.

Lemma rooms_createProblemReport env v :
  inv (λ w, P (rooms (db w))) (createProblemReport env v).
Proof. intros w Hw. unfold createProblemReport. run_storage. Qed.

Lemma rooms_getActiveCleaningSession id :
  inv (λ w, P (rooms (db w))) (getActiveCleaningSession id).
Proof. by intros w Hw. Qed.

Lemma rooms_broadcast message : inv (λ w, P (rooms (db w))) (broadcast message).
Proof. by intros w Hw. Qed.
End RoomsKept.

Lemma rooms_ok_updateRoomStatus env id st :
  inv (λ w, rooms_ok (db w)) (updateRoomStatus env id st).
Proof.
  intros w Hw. unfold updateRoomStatus.
  unfold mbind, M_bind, get_db, put_db, check, mret, M_ret, throw. simpl.
  destruct (bool_decide (st ∈ roomStatusEnum)) eqn:Hst; simpl; [|done].
  apply bool_decide_eq_true in Hst.
  intros r (r0 & -> & Hr0)%list_elem_of_fmap.
  destruct (bool_decide (room_id r0 = id)); simpl; [done | by apply Hw].
Qed.

Lemma rooms_ok_startCleaningSession env v :
  inv (λ w, rooms_ok (db w)) (startCleaningSession env v).
Proof. exact (rooms_startCleaningSession statuses_ok env v). Qed.

Lemma rooms_ok_updateCleaningSession id u :
  inv (λ w, rooms_ok (db w)) (updateCleaningSession id u).
Proof. exact (rooms_updateCleaningSession statuses_ok id u). Qed.

Lemma rooms_ok_saveChecklistCompletion env v :
  inv (λ w, rooms_ok (db w)) (saveChecklistCompletion env v).
Proof. exact (rooms_saveChecklistCompletion statuses_ok env v). Qed.

Lemma rooms_ok_updateChecklistCompletion id u :
  inv (λ w, rooms_ok (db w)) (updateChecklistCompletion id u).
Proof. exact (rooms_updateChecklistCompletion statuses_ok id u). Qed.

Lemma rooms_ok_createProblemReport env v :
  inv (λ w, rooms_ok (db w)) (createProblemReport env v).
Proof. exact (rooms_createProblemReport statuses_ok env v). Qed.

Lemma rooms_ok_getActiveCleaningSession id :
  inv (λ w, rooms_ok (db w)) (getActiveCleaningSession id).
Proof. exact (rooms_getActiveCleaningSession statuses_ok id). Qed.

Lemma rooms_ok_broadcast message : inv (λ w, rooms_ok (db w)) (broadcast message).
Proof. exact (rooms_broadcast statuses_ok message). Qed.

#[local] Hint Resolve rooms_ok_startCleaningSession rooms_ok_updateCleaningSession
  rooms_ok_saveChecklistCompletion rooms_ok_updateChecklistCompletion
  rooms_ok_createProblemReport rooms_ok_getActiveCleaningSession
  rooms_ok_broadcast rooms_ok_updateRoomStatus : inv.

Lemma rooms_ok_dispatch env r : inv (λ w, rooms_ok (db w)) (dispatch env r).
Proof.
  destruct r; simpl;
    unfold patchRoomStatus, postCleaningSession, patchCleaningSession,
      getActiveCleaningSessionRoute, postChecklistCompletion,
      patchChecklistCompletion, postProblemReport;
    repeat inv_step.
Qed.

Lemma rooms_ok_serve env req w :
  rooms_ok (db w) → rooms_ok (db (serve env req w).2).
Proof.
  intros Hw. unfold serve.
  assert (rooms_ok (db (app env req w).2)) as H.
  { unfold app. destruct (isAuthenticated env (user req)) as [res|su]; [done|].
    destruct (required_roles (route req)) as [roles|].
    - unfold mbind, M_bind. rewrite requireRole_decides.
      repeat case_match; simplify_eq; simpl; try done;
        by apply rooms_ok_dispatch.
    - by apply rooms_ok_dispatch. }
  by destruct (app env req w) as [[res|e] w'].
Qed.

Lemma rooms_ok_run reqs w : rooms_ok (db w) → rooms_ok (db (run reqs w)).
Proof.
  revert w. induction reqs as [|[env req] reqs IH]; intros w Hw; [done|].
  simpl. by apply IH, rooms_ok_serve.
Qed.

Lemma patchRoomStatus_outside_enum env id target w :
  (∀ s, target = Some s → s ∉ roomStatusEnum) →
  ∃ res, patchRoomStatus env id target w = (Return res, w) ∧
         (status res = 400 ∨ status res = 500).
Proof.
  intros Hout. unfold patchRoomStatus, try_catch, parse.
  destruct (statusSchema target) as [s|] eqn:Hparse.
  - assert (target = Some s) as Ht.
    { unfold statusSchema in Hparse. destruct target as [s'|]; [|done].
      simpl in Hparse. by case_guard; simplify_eq. }
    unfold updateRoomStatus. unfold mbind, M_bind, mret, M_ret, get_db, check.
    rewrite bool_decide_eq_false_2 by (by apply Hout). simpl. eauto.
  - simpl. eauto.
Qed.

Lemma patchRoomStatus_invalid env id target w :
  (∀ s, target = Some s →
        s ∉ ["dirty"; "clean"; "occupied"; "cleaning"; "inspection"; "approved"]) →
  patchRoomStatus env id target w = (Return (respond 400 "Invalid status value"), w).
Proof.
  intros Hout. unfold patchRoomStatus, try_catch, parse, statusSchema.
  destruct target as [s|]; [|done]. simpl.
  case_guard; [|done]. by destruct (Hout s eq_refl).
Qed.

(** C6. The status of every room is, and after any sequence of requests
    remains, a member of the [room_status] enum.  A request to set a status
    outside the enum fails (whoever sends it) and leaves the database, the
    room included, as it was, and nothing is broadcast; past the gate, a
    target outside the set the route validates against is answered
    400 "Invalid status value". *)
Theorem C6_status_in_enum :
  (∀ reqs w, rooms_ok (db w) → rooms_ok (db (run reqs w))) ∧
  (∀ env u id target w,
     (∀ s, target = Some s → s ∉ roomStatusEnum) →
     status (serve env {| user := u; route := PatchRoomStatus id target |} w).1 ≠ 200 ∧
     (serve env {| user := u; route := PatchRoomStatus id target |} w).2 = w) ∧
  (∀ env u id target w,
     passes_gate env {| user := u; route := PatchRoomStatus id target |} w →
     (∀ s, target = Some s →
           s ∉ ["dirty"; "clean"; "occupied"; "cleaning"; "inspection"; "approved"]) →
     serve env {| user := u; route := PatchRoomStatus id target |} w
     = (respond 400 "Invalid status value", w)).
Proof.
  split; [|split].
  - apply rooms_ok_run.
  - intros env u id target w Hout. unfold serve, app. simpl.
    destruct (isAuthenticated env u) as [res|su] eqn:Hauth.
    + apply isAuthenticated_rejects in Hauth as ->. done.
    + unfold mbind, M_bind. rewrite requireRole_decides.
      destruct (negb (truthy_string (claims su ≫= sub))); [done|].
      destruct (stored_role_decision _ _ _) as [res|usr] eqn:Hrole.
      * split; [|done]. simpl. unfold stored_role_decision in Hrole.
        repeat case_match; simplify_eq; done.
      * destruct (patchRoomStatus_outside_enum env id target w Hout)
          as (res & Hres & Hstatus).
        simpl. rewrite Hres. simpl. split; [|done].
        destruct Hstatus as [H | H]; rewrite H; done.
  - intros env u id target w Hgate Hout.
    rewrite passes_gate_serve by done. simpl.
    by rewrite patchRoomStatus_invalid.
Qed.

(** Closed membership facts are settled by computing the decision. *)
Ltac by_deciding :=
  eapply (bool_decide_eq_true_1 _); reflexivity.

(** Maria, a manager, asks for a status that does not exist; and whatever
    else is asked of the example hotel, its rooms keep a status of the
    enum. *)
Lemma C6_status_in_enum_witness :
  rooms_ok (db (run [ (Example.env 1500000 "s-2",
                       {| user := Some (Example.login "u-ana" None);
                          route := startCleaningMutation Example.room101
                                     Example.ana 1500000 |});
                      (Example.env 1600000 "x",
                       {| user := Some (Example.login "u-maria" None);
                          route := PatchRoomStatus "r-101" (Some "approved") |}) ]
                  Example.world))
  ∧ (status (serve (Example.env 1600000 "x")
               {| user := Some (Example.login "u-maria" None);
                  route := PatchRoomStatus "r-101" (Some "approved") |}
               Example.world).1 ≠ 200
     ∧ (serve (Example.env 1600000 "x")
          {| user := Some (Example.login "u-maria" None);
             route := PatchRoomStatus "r-101" (Some "approved") |}
          Example.world).2 = Example.world)
  ∧ serve (Example.env 1600000 "x")
      {| user := Some (Example.login "u-maria" None);
         route := PatchRoomStatus "r-101" (Some "spotless") |} Example.world
    = (respond 400 "Invalid status value", Example.world).
Proof.
  destruct C6_status_in_enum as (Hinv & Hfail & Hinvalid).
  split; [|split].
  - apply Hinv. intros r Hr. simpl in Hr.
    apply elem_of_cons in Hr as [-> | Hr]; [by_deciding|].
    apply list_elem_of_singleton in Hr as ->. by_deciding.
  - apply Hfail. intros s [= <-]. by_deciding.
  - apply Hinvalid.
    + exists (Example.login "u-maria" None). split; [reflexivity|].
      eexists. reflexivity.
    + intros s [= <-]. by_deciding.
Defined.

(** ** What the storage returns when the constraints hold *)

Lemma updateRoomStatus_returns env id st w :
  st ∈ roomStatusEnum →
  updateRoomStatus env id st w
  = (Return (head (set_room_status st (now env)
                     <$> filter (λ r, room_id r = id) (rooms (db w)))),
     with_db w (with_rooms (db w)
       ((λ r, if bool_decide (room_id r = id)
              then set_room_status st (now env) r else r) <$> rooms (db w)))).
Proof.
  intros Hst. unfold updateRoomStatus, mbind, M_bind, get_db, check. simpl.
  by rewrite bool_decide_eq_true_2.
Qed.

Lemma startCleaningSession_returns env v w :
  int4_ok (default (Some 0%Z) (ics_pausedTime v)) = true →
  int4_ok (default None (ics_totalTime v)) = true →
  uuid env ∉ cs_id <$> cleaningSessions (db w) →
  ics_roomId v ∈ room_id <$> rooms (db w) →
  ics_housekeeperId v ∈ user_id <$> users (db w) →
  startCleaningSession env v w
  = (Return (new_cleaningSession env v),
     with_db w (with_cleaningSessions (db w)
       (cleaningSessions (db w) ++ [new_cleaningSession env v]))).
Proof.
  intros Hpaused Htotal Hfresh Hroom Huser.
  unfold startCleaningSession, mbind, M_bind, get_db, check, room_exists,
    user_exists. simpl.
  by rewrite Hpaused, Htotal, !bool_decide_eq_true_2.
Qed.

Lemma updateCleaningSession_returns id u w s rest :
  filter (λ x, cs_id x = id) (cleaningSessions (db w)) = s :: rest →
  well_typed_update u →
  csp_id u = None → csp_roomId u = None → csp_housekeeperId u = None →
  updateCleaningSession id u w
  = (Return (Some (apply_cleaningSessionPatch u s)),
     with_db w (with_cleaningSessions (db w)
       ((λ x, if bool_decide (cs_id x = id)
              then apply_cleaningSessionPatch u x else x)
          <$> cleaningSessions (db w)))).
Proof.
  intros Hhit (Hkeys & Hstart & Hend & Hcreated & Hpaused & Htotal) Hid Hroom Hhk.
  unfold updateCleaningSession, set_values, mbind, M_bind, get_db, check. simpl.
  rewrite Hkeys, Hstart, Hend, Hcreated, Hpaused, Htotal. simpl.
  rewrite Hhit, Hid, Hroom, Hhk. done.
Qed.

(** The two ways an update is stopped before a statement is sent. *)
Lemma updateCleaningSession_no_values id u w :
  cleaningSessionPatch_keys u = false →
  updateCleaningSession id u w = (Throw (Error "No values to set"), w).
Proof.
  intros Hkeys. unfold updateCleaningSession, set_values, mbind, M_bind.
  by rewrite Hkeys.
Qed.

Lemma updateCleaningSession_string id u w :
  is_string (csp_startTime u) || is_string (csp_endTime u)
  || is_string (csp_createdAt u) = true →
  updateCleaningSession id u w
  = (Throw (if cleaningSessionPatch_keys u
            then TypeError "value.toISOString is not a function"
            else Error "No values to set"), w).
Proof.
  intros Hstring. unfold updateCleaningSession, set_values, mbind, M_bind.
  destruct (cleaningSessionPatch_keys u); [|done]. simpl.
  rewrite !orb_false_r.
  by rewrite orb_assoc, Hstring.
Qed.

Lemma fmap_no_hit {A} (hit : A → bool) (f : A → A) (l : list A) :
  (∀ x, x ∈ l → hit x = false) → (λ x, if hit x then f x else x) <$> l = l.
Proof.
  induction l as [|a l IH]; intros H; [done|]. rewrite fmap_cons.
  rewrite (H a) by left. f_equal. apply IH. intros x Hx. apply H. by right.
Qed.

Lemma filter_no_hit {A} (P : A → Prop) `{∀ x, Decision (P x)} (l : list A) :
  (∀ x, x ∈ l → ¬ P x) → filter P l = [].
Proof.
  induction l as [|a l IH]; intros Hl; [done|].
  rewrite filter_cons_False by (apply Hl; left).
  apply IH. intros x Hx. apply Hl. by right.
Qed.

Lemma elem_of_fmap_id {A} (f : A → string) (x : A) (l : list A) :
  x ∈ l → f x ∈ f <$> l.
Proof. intros. apply list_elem_of_fmap. eauto. Qed.

(** ** Starting a session *)

Lemma serve_startCleaningMutation env u room hk t w :
  passes_gate env {| user := u; route := startCleaningMutation room hk t |} w →
  room ∈ rooms (db w) → hk ∈ users (db w) →
  uuid env ∉ cs_id <$> cleaningSessions (db w) →
  let session :=
    {| cs_id := uuid env; cs_roomId := room_id room;
       cs_housekeeperId := user_id hk; cs_startTime := t; cs_endTime := None;
       cs_pausedTime := Some 0%Z; cs_totalTime := None; cs_status := "active";
       cs_createdAt := Some (dbNow env) |} in
  serve env {| user := u; route := startCleaningMutation room hk t |} w
  = (res_json (SessionJson (Some session)),
     with_sent
       (with_db w
          (with_rooms
             (with_cleaningSessions (db w) (cleaningSessions (db w) ++ [session]))
             ((λ r, if bool_decide (room_id r = room_id room)
                    then set_room_status "cleaning" (now env) r else r)
                <$> rooms (db w))))
       (sent w ++ fan_out w {| type := timer_update;
                               data := TimerData "start" (Some session) |})).
Proof.
  intros Hgate Hroom Hhk Hfresh session.
  rewrite passes_gate_serve by done. simpl.
  unfold postCleaningSession, try_catch, parse. simpl.
  unfold mbind at 1, M_bind at 1. simpl.
  erewrite bind_return; last first.
  { apply startCleaningSession_returns; simpl;
      [done | done | done | by apply elem_of_fmap_id | by apply elem_of_fmap_id]. }
  erewrite bind_return; last first.
  { apply updateRoomStatus_returns. by_deciding. }
  done.
Qed.

(** C1 (as amended). Past the gate, a start for an existing room by an
    existing user creates a session whether or not the room already has an
    active or paused one: no check is made and no Conflict is raised.  The
    session has the [startTime] the client put in the request (its own
    clock), [pausedTime] 0 and status [active]; the room's status becomes
    [cleaning]; one [timer_update] is broadcast. *)
Theorem C1_start_creates_session env u room hk t w :
  passes_gate env {| user := u; route := startCleaningMutation room hk t |} w →
  room ∈ rooms (db w) → hk ∈ users (db w) →
  uuid env ∉ cs_id <$> cleaningSessions (db w) →
  let session :=
    {| cs_id := uuid env; cs_roomId := room_id room;
       cs_housekeeperId := user_id hk; cs_startTime := t; cs_endTime := None;
       cs_pausedTime := Some 0%Z; cs_totalTime := None; cs_status := "active";
       cs_createdAt := Some (dbNow env) |} in
  let after := serve env {| user := u; route := startCleaningMutation room hk t |} w in
  after.1 = res_json (SessionJson (Some session)) ∧
  cleaningSessions (db after.2) = cleaningSessions (db w) ++ [session] ∧
  rooms (db after.2)
  = (λ r, if bool_decide (room_id r = room_id room)
          then set_room_status "cleaning" (now env) r else r) <$> rooms (db w) ∧
  (∃ r, r ∈ rooms (db after.2) ∧ room_id r = room_id room) ∧
  (∀ r, r ∈ rooms (db after.2) → room_id r = room_id room →
        room_status r = "cleaning") ∧
  sent after.2
  = sent w ++ fan_out w {| type := timer_update;
                           data := TimerData "start" (Some session) |}.
Proof.
  intros Hgate Hroom Hhk Hfresh session after. unfold after.
  rewrite serve_startCleaningMutation by done.
  simpl. repeat split; try done.
  - exists (set_room_status "cleaning" (now env) room). split; [|done].
    apply list_elem_of_fmap. exists room. by rewrite bool_decide_eq_true_2.
  - intros r (r0 & -> & Hr0)%list_elem_of_fmap Hid.
    case_bool_decide; [done|]. done.
Qed.

(** Room 205 has a running session; Ana starts another one and is
    answered 200: the room now has two active sessions. *)
Lemma C1_start_conflict_counterexample :
  (∃ s, s ∈ cleaningSessions (db Example.world) ∧ is_active_for "r-205" s) ∧
  status (serve (Example.env 1500000 "s-2")
            {| user := Some (Example.login "u-ana" None);
               route := startCleaningMutation Example.room205 Example.ana 1500000 |}
            Example.world).1 = 200 ∧
  length (filter (is_active_for "r-205")
            (cleaningSessions
               (db (serve (Example.env 1500000 "s-2")
                      {| user := Some (Example.login "u-ana" None);
                         route := startCleaningMutation Example.room205
                                    Example.ana 1500000 |}
                      Example.world).2))) = 2.
Proof.
  split; [|split; reflexivity].
  exists Example.session205. split; [by left | by split; [|left]].
Qed.

Lemma C1_start_creates_session_witness :
  (serve (Example.env 1500000 "s-2")
     {| user := Some (Example.login "u-ana" None);
        route := startCleaningMutation Example.room205 Example.ana 1500000 |}
     Example.world).1
  = res_json (SessionJson (Some
      {| cs_id := "s-2"; cs_roomId := "r-205"; cs_housekeeperId := "u-ana";
         cs_startTime := 1500000; cs_endTime := None; cs_pausedTime := Some 0%Z;
         cs_totalTime := None; cs_status := "active";
         cs_createdAt := Some 1500000%Z |})).
Proof.
  apply (C1_start_creates_session (Example.env 1500000 "s-2")
           (Some (Example.login "u-ana" None)) Example.room205 Example.ana
           1500000 Example.world).
  - exists (Example.login "u-ana" None). split; [reflexivity | exact I].
  - by_deciding.
  - by_deciding.
  - by_deciding.
Defined.

(** ** Setting a room status *)

Lemma set_room_status_same t r : set_room_status (room_status r) t r = touch t r.
Proof. done. Qed.

(** C5 (as amended). A permitted transition to the status the room already
    has succeeds; the room keeps its status and every other column except
    [updatedAt], which the update sets to the time of the request; no other
    row of the database changes; one [room_status_update] is broadcast. *)
Theorem C5_transition_to_current_status env u id room w :
  passes_gate env {| user := u; route := PatchRoomStatus id (Some (room_status room)) |} w →
  filter (λ r, room_id r = id) (rooms (db w)) = [room] →
  room_status room ∈ roomStatusEnum →
  serve env {| user := u; route := PatchRoomStatus id (Some (room_status room)) |} w
  = (res_json (RoomJson (Some (touch (now env) room))),
     with_sent
       (with_db w (with_rooms (db w)
          ((λ r, if bool_decide (r = room) then touch (now env) room else r)
             <$> rooms (db w))))
       (sent w ++ fan_out w
          {| type := room_status_update;
             data := RoomStatusData id (room_status room)
                       (Some (touch (now env) room)) |})).
Proof.
  intros Hgate Hrow Hst.
  rewrite passes_gate_serve by done. simpl.
  unfold patchRoomStatus, try_catch, parse, statusSchema. simpl.
  assert (room_status room ∈
            ["dirty"; "clean"; "occupied"; "cleaning"; "inspection"; "approved"])
    as Hzod.
  { revert Hst. unfold roomStatusEnum. set_unfold. intuition. }
  case_guard; [|done]. simpl.
  unfold mbind at 1, M_bind at 1. simpl.
  erewrite bind_return; last by apply updateRoomStatus_returns.
  rewrite Hrow. simpl.
  replace ((λ r, if bool_decide (room_id r = id)
                 then set_room_status (room_status room) (now env) r else r)
             <$> rooms (db w))
    with ((λ r, if bool_decide (r = room) then touch (now env) room else r)
            <$> rooms (db w)); [done|].
  apply list_fmap_ext. intros i r Hr.
  assert (r ∈ rooms (db w)) as Hin by (by eapply list_elem_of_lookup_2).
  destruct (decide (room_id r = id)) as [Hid|Hid].
  - assert (r ∈ filter (λ r, room_id r = id) (rooms (db w))) as Hf
      by (by apply list_elem_of_filter).
    rewrite Hrow in Hf. apply list_elem_of_singleton in Hf as ->.
    by rewrite !bool_decide_eq_true_2.
  - rewrite (bool_decide_eq_false_2 (room_id r = id)) by done.
    rewrite bool_decide_eq_false_2; [done|].
    intros ->. apply Hid.
    assert (room ∈ filter (λ r, room_id r = id) (rooms (db w))) as Hf
      by (rewrite Hrow; by left).
    by apply list_elem_of_filter in Hf as [? _].
Qed.

(** Room 101 is dirty and was last written at instant 0.  Maria sets it to
    dirty at instant 1600000: the answer is 200, the status is the same,
    and the [updatedAt] column of the record has changed. *)
Lemma C5_other_field_changes_counterexample :
  ∃ room',
    serve (Example.env 1600000 "x")
      {| user := Some (Example.login "u-maria" None);
         route := PatchRoomStatus "r-101" (Some "dirty") |} Example.world
    = (res_json (RoomJson (Some room')),
       with_sent
         (with_db Example.world
            (with_rooms Example.hotel [room'; Example.room205]))
         (fan_out Example.world
            {| type := room_status_update;
               data := RoomStatusData "r-101" "dirty" (Some room') |})) ∧
    room_status room' = room_status Example.room101 ∧
    room_updatedAt Example.room101 = Some 0%Z ∧
    room_updatedAt room' = Some 1600000%Z ∧
    room' ≠ Example.room101.
Proof.
  exists (touch 1600000 Example.room101).
  split; [reflexivity|]. split; [reflexivity|]. split; [reflexivity|].
  split; [reflexivity|]. discriminate.
Qed.

Lemma C5_transition_to_current_status_witness :
  serve (Example.env 1600000 "x")
    {| user := Some (Example.login "u-maria" None);
       route := PatchRoomStatus "r-101" (Some (room_status Example.room101)) |}
    Example.world
  = (res_json (RoomJson (Some (touch 1600000 Example.room101))),
     with_sent
       (with_db Example.world (with_rooms (db Example.world)
          ((λ r, if bool_decide (r = Example.room101)
                 then touch 1600000 Example.room101 else r)
             <$> rooms (db Example.world))))
       (sent Example.world ++ fan_out Example.world
          {| type := room_status_update;
             data := RoomStatusData "r-101" (room_status Example.room101)
                       (Some (touch 1600000 Example.room101)) |})).
Proof.
  apply (C5_transition_to_current_status (Example.env 1600000 "x")
           (Some (Example.login "u-maria" None)) "r-101" Example.room101
           Example.world).
  - exists (Example.login "u-maria" None). split; [reflexivity|].
    eexists. reflexivity.
  - reflexivity.
  - by_deciding.
Defined.

(** C7 (as amended). A permitted transition, to a status of the enum, that
    names a room id no room has is answered 200 with an empty body; no
    record is changed; and one [room_status_update], carrying no room, is
    broadcast to the open subscriptions.  There is no NotFound answer. *)
Theorem C7_transition_unknown_room env u id target w :
  passes_gate env {| user := u; route := PatchRoomStatus id (Some target) |} w →
  id ∉ room_id <$> rooms (db w) →
  target ∈ roomStatusEnum →
  serve env {| user := u; route := PatchRoomStatus id (Some target) |} w
  = (res_json (RoomJson None),
     with_sent w
       (sent w ++ fan_out w {| type := room_status_update;
                               data := RoomStatusData id target None |})).
Proof.
  intros Hgate Hid Hst.
  rewrite passes_gate_serve by done. simpl.
  unfold patchRoomStatus, try_catch, parse, statusSchema. simpl.
  assert (target ∈
            ["dirty"; "clean"; "occupied"; "cleaning"; "inspection"; "approved"])
    as Hzod.
  { revert Hst. unfold roomStatusEnum. set_unfold. intuition. }
  case_guard; [|done]. simpl.
  unfold mbind at 1, M_bind at 1. simpl.
  erewrite bind_return; last by apply updateRoomStatus_returns.
  assert (∀ r, r ∈ rooms (db w) → room_id r ≠ id) as Hno.
  { intros r Hr <-. apply Hid. by apply elem_of_fmap_id. }
  rewrite filter_no_hit by done.
  rewrite (fmap_no_hit (λ r, bool_decide (room_id r = id))); last first.
  { intros r Hr. apply bool_decide_eq_false_2. by apply Hno. }
  rewrite with_rooms_id, with_db_id. done.
Qed.

(** No room has the id "r-999".  Maria's request is answered 200, not
    NotFound, and the two open sockets each receive an event. *)
Lemma C7_not_found_counterexample :
  ("r-999" ∉ room_id <$> rooms (db Example.world)) ∧
  (serve (Example.env 1600000 "x")
     {| user := Some (Example.login "u-maria" None);
        route := PatchRoomStatus "r-999" (Some "clean") |} Example.world).1
  = res_json (RoomJson None) ∧
  length (sent (serve (Example.env 1600000 "x")
                  {| user := Some (Example.login "u-maria" None);
                     route := PatchRoomStatus "r-999" (Some "clean") |}
                  Example.world).2) = 2.
Proof. split; [by_deciding | split; reflexivity]. Qed.

Lemma C7_transition_unknown_room_witness :
  serve (Example.env 1600000 "x")
    {| user := Some (Example.login "u-maria" None);
       route := PatchRoomStatus "r-999" (Some "clean") |} Example.world
  = (res_json (RoomJson None),
     with_sent Example.world
       (sent Example.world
        ++ fan_out Example.world
             {| type := room_status_update;
                data := RoomStatusData "r-999" "clean" None |})).
Proof.
  apply (C7_transition_unknown_room (Example.env 1600000 "x")
           (Some (Example.login "u-maria" None)) "r-999" "clean" Example.world).
  - exists (Example.login "u-maria" None). split; [reflexivity|].
    eexists. reflexivity.
  - by_deciding.
  - by_deciding.
Defined.

(** ** Updating and completing a session *)

Lemma serve_patchCleaningSession env u id p w s rest :
  passes_gate env {| user := u; route := PatchCleaningSession id p |} w →
  filter (λ x, cs_id x = id) (cleaningSessions (db w)) = s :: rest →
  well_typed_update p →
  csp_id p = None → csp_roomId p = None → csp_housekeeperId p = None →
  serve env {| user := u; route := PatchCleaningSession id p |} w
  = (res_json (SessionJson (Some (apply_cleaningSessionPatch p s))),
     with_sent
       (with_db w (with_cleaningSessions (db w)
          ((λ x, if bool_decide (cs_id x = id)
                 then apply_cleaningSessionPatch p x else x)
             <$> cleaningSessions (db w))))
       (sent w ++ fan_out w
          {| type := timer_update;
             data := TimerData "update" (Some (apply_cleaningSessionPatch p s)) |})).
Proof.
  intros Hgate Hrow Htyped Hid Hroom Hhk.
  rewrite passes_gate_serve by done. simpl.
  unfold patchCleaningSession, try_catch.
  erewrite bind_return; last by eapply updateCleaningSession_returns.
  done.
Qed.

(** A body with a string under the key of a timestamp column never reaches
    the database. *)
Lemma serve_patchCleaningSession_string env u id p w :
  passes_gate env {| user := u; route := PatchCleaningSession id p |} w →
  is_string (csp_startTime p) || is_string (csp_endTime p)
  || is_string (csp_createdAt p) = true →
  serve env {| user := u; route := PatchCleaningSession id p |} w
  = (respond 500 "Failed to update cleaning session", w).
Proof.
  intros Hgate Hstring.
  rewrite passes_gate_serve by done. simpl.
  unfold patchCleaningSession, try_catch.
  erewrite bind_throw; last by apply updateCleaningSession_string.
  done.
Qed.

Lemma fmap_only_row (s s' : CleaningSession) (f : CleaningSession → CleaningSession)
  (l : list CleaningSession) :
  filter (λ x, cs_id x = cs_id s) l = [s] → f s = s' →
  (λ x, if bool_decide (cs_id x = cs_id s) then f x else x) <$> l
  = (λ x, if bool_decide (x = s) then s' else x) <$> l.
Proof.
  intros Hrow Hf. apply list_fmap_ext. intros i x Hx.
  assert (x ∈ l) as Hin by (by eapply list_elem_of_lookup_2).
  destruct (decide (cs_id x = cs_id s)) as [Hid|Hid].
  - assert (x ∈ filter (λ x, cs_id x = cs_id s) l) as Hfl
      by (by apply list_elem_of_filter).
    rewrite Hrow in Hfl. apply list_elem_of_singleton in Hfl as ->.
    by rewrite !bool_decide_eq_true_2.
  - rewrite (bool_decide_eq_false_2 (cs_id x = cs_id s)) by done.
    rewrite bool_decide_eq_false_2; [done | by intros ->].
Qed.

(** C2. The client computes the total that is to be sealed as
    [floor((now - startTime) / 1000) + pausedTime] (0 for a NULL
    [pausedTime]) and sends it, together with [endTime] as the string
    [now.toISOString()].  PATCH /api/cleaning-sessions/:id gives that body
    to [set] as it came, where POST /api/cleaning-sessions converts its
    instants through the insert schema; the string fails in the driver.
    So for every session, stored or not and whatever its status, the
    completion is answered 500 and the world is as it was: no total is
    sealed. *)
Theorem C2_complete_seals_nothing env u s t w :
  passes_gate env {| user := u; route := completeCleaningMutation s t |} w →
  completeCleaningMutation s t
  = PatchCleaningSession (cs_id s)
      {| csp_id := None; csp_roomId := None; csp_housekeeperId := None;
         csp_startTime := None;
         csp_endTime := Some (Some (toISOString t));
         csp_pausedTime := None;
         csp_totalTime :=
           Some (Some ((t - cs_startTime s) `div` 1000
                       + default 0 (cs_pausedTime s))%Z);
         csp_status := Some "completed";
         csp_createdAt := None |} ∧
  serve env {| user := u; route := completeCleaningMutation s t |} w
  = (respond 500 "Failed to update cleaning session", w).
Proof.
  intros Hgate. split; [reflexivity|].
  by apply serve_patchCleaningSession_string.
Qed.

(** Ana completes the running session of room 205, started at instant
    1000000, at instant 1754321: the request carries 754 whole seconds and
    is answered 500; the session is still active and has no total. *)
Lemma C2_complete_seals_nothing_witness :
  (completeCleaningMutation Example.session205 1754321
   = PatchCleaningSession "s-1"
       {| csp_id := None; csp_roomId := None; csp_housekeeperId := None;
          csp_startTime := None;
          csp_endTime := Some (Some (toISOString 1754321));
          csp_pausedTime := None;
          csp_totalTime := Some (Some 754%Z);
          csp_status := Some "completed";
          csp_createdAt := None |} ∧
   serve (Example.env 1754321 "x")
     {| user := Some (Example.login "u-ana" None);
        route := completeCleaningMutation Example.session205 1754321 |}
     Example.world
   = (respond 500 "Failed to update cleaning session", Example.world)) ∧
  cleaningSessions (db Example.world) = [Example.session205] ∧
  cs_status Example.session205 = "active" ∧
  cs_totalTime Example.session205 = None.
Proof.
  split; [|done].
  apply (C2_complete_seals_nothing (Example.env 1754321 "x")
           (Some (Example.login "u-ana" None)) Example.session205 1754321
           Example.world).
  exists (Example.login "u-ana" None). split; [reflexivity | exact I].
Defined.




(** ** Start, pause, resume, complete *)

Lemma passes_gate_open env u r w :
  authenticated env u → required_roles r = None →
  passes_gate env {| user := u; route := r |} w.
Proof. intros [su Hsu] Hr. exists su. simpl. by rewrite Hr. Qed.

Lemma not_elem_of_ids (old : list CleaningSession) id x :
  id ∉ cs_id <$> old → x ∈ old → cs_id x ≠ id.
Proof. intros Hid Hx <-. apply Hid. by apply elem_of_fmap_id. Qed.

Lemma filter_last_row (old : list CleaningSession) s :
  cs_id s ∉ cs_id <$> old →
  filter (λ x, cs_id x = cs_id s) (old ++ [s]) = [s].
Proof.
  intros Hid. rewrite filter_app, filter_no_hit.
  - by rewrite filter_cons_True.
  - intros x Hx. by eapply not_elem_of_ids.
Qed.

Lemma fmap_last_row (old : list CleaningSession) s f :
  cs_id s ∉ cs_id <$> old →
  (λ x, if bool_decide (cs_id x = cs_id s) then f x else x) <$> (old ++ [s])
  = old ++ [f s].
Proof.
  intros Hid. rewrite fmap_app.
  rewrite (fmap_no_hit (λ x, bool_decide (cs_id x = cs_id s))).
  - simpl. by rewrite bool_decide_eq_true_2.
  - intros x Hx. apply bool_decide_eq_false_2. by eapply not_elem_of_ids.
Qed.

(** An update of the row that was inserted last, under a fresh id. *)
Lemma patch_last env u p w old s :
  authenticated env u →
  cleaningSessions (db w) = old ++ [s] → cs_id s ∉ cs_id <$> old →
  well_typed_update p →
  csp_id p = None → csp_roomId p = None → csp_housekeeperId p = None →
  ∃ w', serve env {| user := u; route := PatchCleaningSession (cs_id s) p |} w
        = (res_json (SessionJson (Some (apply_cleaningSessionPatch p s))), w') ∧
        cleaningSessions (db w') = old ++ [apply_cleaningSessionPatch p s].
Proof.
  intros Hauth Hrows Hid ? ? ? ?.
  eexists. split.
  - eapply serve_patchCleaningSession; try done.
    + by apply passes_gate_open.
    + rewrite Hrows. by apply filter_last_row.
  - simpl. rewrite Hrows. by apply fmap_last_row.
Qed.

Lemma well_typed_status_only status : well_typed_update (status_only status).
Proof. by repeat split. Qed.

Arguments serve : simpl never.

(** C3. The round trip as the client and the server run it.  The start
    stores a session with [pausedTime = 0]; the pause writes the status
    and nothing else; the client has no request that resumes, and the
    update [{status: "active"}] puts the session back as it was after the
    start.  The total that the client then computes for the completion at
    [t3] is [floor((t3 - t0) / 1000)], the wall-clock time since the start,
    whenever and for however long the session was paused.  The completion
    is answered 500, after the pause and the resume as well as directly
    after the start, so that total is never stored: the session stays
    active, with no total. *)
Theorem C3_round_trip_is_not_sealed e0 e1 e2 e3 u room hk t0 t3 w0 :
  authenticated e0 u → authenticated e1 u →
  authenticated e2 u → authenticated e3 u →
  room ∈ rooms (db w0) → hk ∈ users (db w0) →
  uuid e0 ∉ cs_id <$> cleaningSessions (db w0) →
  let old := cleaningSessions (db w0) in
  let s0 := {| cs_id := uuid e0; cs_roomId := room_id room;
               cs_housekeeperId := user_id hk; cs_startTime := t0;
               cs_endTime := None; cs_pausedTime := Some 0%Z;
               cs_totalTime := None; cs_status := "active";
               cs_createdAt := Some (dbNow e0) |} in
  let s1 := {| cs_id := uuid e0; cs_roomId := room_id room;
               cs_housekeeperId := user_id hk; cs_startTime := t0;
               cs_endTime := None; cs_pausedTime := Some 0%Z;
               cs_totalTime := None; cs_status := "paused";
               cs_createdAt := Some (dbNow e0) |} in
  let r0 := serve e0 {| user := u; route := startCleaningMutation room hk t0 |} w0 in
  let r1 := serve e1 {| user := u; route := pauseCleaningMutation s0 |} r0.2 in
  let r2 := serve e2 {| user := u;
                        route := PatchCleaningSession (cs_id s1)
                                   (status_only "active") |} r1.2 in
  let r3 := serve e3 {| user := u; route := completeCleaningMutation s0 t3 |} r2.2 in
  (r0.1 = res_json (SessionJson (Some s0)) ∧
   cleaningSessions (db r0.2) = old ++ [s0]) ∧
  (r1.1 = res_json (SessionJson (Some s1)) ∧
   cleaningSessions (db r1.2) = old ++ [s1]) ∧
  (r2.1 = res_json (SessionJson (Some s0)) ∧
   cleaningSessions (db r2.2) = old ++ [s0]) ∧
  elapsed s0 t3 = ((t3 - t0) `div` 1000)%Z ∧
  r3 = (respond 500 "Failed to update cleaning session", r2.2) ∧
  serve e3 {| user := u; route := completeCleaningMutation s0 t3 |} r0.2
  = (respond 500 "Failed to update cleaning session", r0.2).
Proof.
  intros A0 A1 A2 A3 Hroom Hhk Hfresh old s0 s1 r0 r1 r2 r3.
  pose proof (serve_startCleaningMutation e0 u room hk t0 w0
                (passes_gate_open e0 u (startCleaningMutation room hk t0) w0
                   A0 eq_refl) Hroom Hhk Hfresh) as H0.
  cbv zeta in H0. fold s0 in H0. fold r0 in H0.
  assert (cleaningSessions (db r0.2) = old ++ [s0]) as Hw0 by (by rewrite H0).
  destruct (patch_last e1 u (status_only "paused") r0.2 old s0 A1 Hw0 Hfresh
              (well_typed_status_only "paused") eq_refl eq_refl eq_refl)
    as (w1 & H1 & Hw1).
  change (apply_cleaningSessionPatch (status_only "paused") s0) with s1 in H1, Hw1.
  change (serve e1 {| user := u;
                      route := PatchCleaningSession (cs_id s0) (status_only "paused") |}
            r0.2) with r1 in H1.
  assert (cleaningSessions (db r1.2) = old ++ [s1]) as Hr1 by (by rewrite H1).
  destruct (patch_last e2 u (status_only "active") r1.2 old s1 A2 Hr1 Hfresh
              (well_typed_status_only "active") eq_refl eq_refl eq_refl)
    as (w2 & H2 & Hw2).
  change (apply_cleaningSessionPatch (status_only "active") s1) with s0 in H2, Hw2.
  fold r2 in H2.
  split; [by rewrite H0|]. split; [by rewrite H1|]. split; [by rewrite H2|].
  split; [unfold elapsed; simpl; f_equal; lia|].
  split; (apply serve_patchCleaningSession_string;
          [by apply passes_gate_open | reflexivity]).
Qed.

(** Ana starts room 101 at 1500000, pauses at 1600000, is resumed with
    [{status: "active"}] at 1900000 and completes at 1990500: the request
    carries 490 seconds and is answered 500. *)
Lemma C3_round_trip_is_not_sealed_witness :
  let s0 := {| cs_id := "s-2"; cs_roomId := "r-101";
               cs_housekeeperId := "u-ana"; cs_startTime := 1500000;
               cs_endTime := None; cs_pausedTime := Some 0%Z;
               cs_totalTime := None; cs_status := "active";
               cs_createdAt := Some 1500000%Z |} in
  let s1 := {| cs_id := "s-2"; cs_roomId := "r-101";
               cs_housekeeperId := "u-ana"; cs_startTime := 1500000;
               cs_endTime := None; cs_pausedTime := Some 0%Z;
               cs_totalTime := None; cs_status := "paused";
               cs_createdAt := Some 1500000%Z |} in
  let ana := Some (Example.login "u-ana" None) in
  let r0 := serve (Example.env 1500000 "s-2")
              {| user := ana;
                 route := startCleaningMutation Example.room101 Example.ana
                            1500000 |} Example.world in
  let r1 := serve (Example.env 1600000 "x")
              {| user := ana; route := pauseCleaningMutation s0 |} r0.2 in
  let r2 := serve (Example.env 1900000 "x")
              {| user := ana;
                 route := PatchCleaningSession "s-2" (status_only "active") |}
              r1.2 in
  let r3 := serve (Example.env 1990500 "x")
              {| user := ana; route := completeCleaningMutation s0 1990500 |}
              r2.2 in
  (r0.1 = res_json (SessionJson (Some s0)) ∧
   cleaningSessions (db r0.2) = [Example.session205; s0]) ∧
  (r1.1 = res_json (SessionJson (Some s1)) ∧
   cleaningSessions (db r1.2) = [Example.session205; s1]) ∧
  (r2.1 = res_json (SessionJson (Some s0)) ∧
   cleaningSessions (db r2.2) = [Example.session205; s0]) ∧
  elapsed s0 1990500 = 490%Z ∧
  r3 = (respond 500 "Failed to update cleaning session", r2.2) ∧
  serve (Example.env 1990500 "x")
    {| user := ana; route := completeCleaningMutation s0 1990500 |} r0.2
  = (respond 500 "Failed to update cleaning session", r0.2).
Proof.
  apply (C3_round_trip_is_not_sealed
           (Example.env 1500000 "s-2") (Example.env 1600000 "x")
           (Example.env 1900000 "x") (Example.env 1990500 "x")
           (Some (Example.login "u-ana" None)) Example.room101 Example.ana
           1500000 1990500 Example.world).
  - eexists. reflexivity.
  - eexists. reflexivity.
  - eexists. reflexivity.
  - eexists. reflexivity.
  - by_deciding.
  - by_deciding.
  - by_deciding.
Defined.

(** ** A request that fails writes nothing *)

Lemma readonly_atomic {A} (m : M A) : readonly m → atomic m.
Proof. intros H w e w' Hm. specialize (H w). by rewrite Hm in H. Qed.

Lemma readonly_parse {X Y} (schema : X → option Y) body : readonly (parse schema body).
Proof. intros w. unfold parse. by destruct (schema body). Qed.

Ltac run_throws :=
  unfold set_values, mbind, M_bind, get_db, put_db, check, mret, M_ret, throw; simpl;
  repeat (case_match; simpl; simplify_eq); intros; simplify_eq; try done.

Lemma atomic_updateRoomStatus env id st : atomic (updateRoomStatus env id st).
Proof. intros w e w'. unfold updateRoomStatus. run_throws. Qed.

Lemma atomic_startCleaningSession env v : atomic (startCleaningSession env v).
Proof. intros w e w'. unfold startCleaningSession. run_throws. Qed.

Lemma atomic_updateCleaningSession id u : atomic (updateCleaningSession id u).
Proof. intros w e w'. unfold updateCleaningSession. run_throws. Qed.

Lemma atomic_saveChecklistCompletion env v : atomic (saveChecklistCompletion env v).
Proof. intros w e w'. unfold saveChecklistCompletion. run_throws. Qed.

Lemma atomic_updateChecklistCompletion id u : atomic (updateChecklistCompletion id u).
Proof. intros w e w'. unfold updateChecklistCompletion. run_throws. Qed.

Lemma atomic_createProblemReport env v : atomic (createProblemReport env v).
Proof. intros w e w'. unfold createProblemReport. run_throws. Qed.

Lemma updateChecklistCompletion_None id u w w' :
  updateChecklistCompletion id u w = (Return None, w') → w' = w.
Proof. unfold updateChecklistCompletion. run_throws. Qed.

Lemma total_updateRoomStatus env id st :
  st ∈ roomStatusEnum → total (updateRoomStatus env id st).
Proof. intros Hst w. rewrite updateRoomStatus_returns by done. eauto. Qed.

Lemma sure_last message value :
  sure (broadcast message ≫= λ _, mret (res_json value)).
Proof. intros w. simpl. eauto. Qed.

Lemma sure_bind {A} (m : M A) (f : A → M Response) :
  total m → (∀ a, sure (f a)) → sure (m ≫= f).
Proof.
  intros Hm Hf w. destruct (Hm w) as (a & w1 & Hw).
  rewrite (bind_return _ _ _ _ _ Hw). apply Hf.
Qed.

Lemma all_or_nothing_sure (m : M Response) : sure m → all_or_nothing m.
Proof. intros H w. by destruct (H w) as (res & w' & -> & ?). Qed.

Lemma all_or_nothing_read {A} (m : M A) (f : A → M Response) :
  readonly m → (∀ a, all_or_nothing (f a)) → all_or_nothing (m ≫= f).
Proof.
  intros Hm Hf w. specialize (Hm w). unfold mbind, M_bind.
  destruct (m w) as [[a|e] w1]; simpl in Hm; subst w1; [apply Hf | done].
Qed.

Lemma all_or_nothing_write {A} (m : M A) (f : A → M Response) :
  atomic m → (∀ a, sure (f a)) → all_or_nothing (m ≫= f).
Proof.
  intros Hm Hf w. unfold mbind, M_bind.
  destruct (m w) as [[a|e] w1] eqn:Hw.
  - by destruct (Hf a w1) as (res & w' & -> & ?).
  - by eapply Hm.
Qed.

Lemma commits_or_not_try_catch (body : M Response) (handler : Exn → M Response) :
  all_or_nothing body → (∀ e, ∃ res, handler e = mret res) →
  commits_or_not (try_catch body handler).
Proof.
  intros Hb Hh w. specialize (Hb w). unfold try_catch.
  destruct (body w) as [[res|e] w']; [by eauto 6|].
  subst w'. destruct (Hh e) as [res ->]. exists res, w. eauto.
Qed.

Ltac handler_catches :=
  intros e; try (destruct e); eexists; reflexivity.

Lemma commits_patchRoomStatus env id body : commits_or_not (patchRoomStatus env id body).
Proof.
  apply commits_or_not_try_catch; [|handler_catches].
  apply all_or_nothing_read; [apply readonly_parse|]. intros st.
  apply all_or_nothing_write; [apply atomic_updateRoomStatus|]. intros room.
  apply sure_last.
Qed.

Lemma commits_postCleaningSession env body :
  commits_or_not (postCleaningSession env body).
Proof.
  apply commits_or_not_try_catch; [|handler_catches].
  apply all_or_nothing_read; [apply readonly_parse|]. intros v.
  apply all_or_nothing_write; [apply atomic_startCleaningSession|]. intros s.
  apply sure_bind; [apply total_updateRoomStatus; by_deciding|]. intros _.
  apply sure_last.
Qed.

Lemma commits_patchCleaningSession id updates :
  commits_or_not (patchCleaningSession id updates).
Proof.
  apply commits_or_not_try_catch; [|handler_catches].
  apply all_or_nothing_write; [apply atomic_updateCleaningSession|]. intros s.
  apply sure_last.
Qed.

Lemma commits_getActiveCleaningSessionRoute roomId :
  commits_or_not (getActiveCleaningSessionRoute roomId).
Proof. intros w. eexists _, w. split; [reflexivity | by left]. Qed.

Lemma commits_postChecklistCompletion env body :
  commits_or_not (postChecklistCompletion env body).
Proof.
  apply commits_or_not_try_catch; [|handler_catches].
  apply all_or_nothing_read; [apply readonly_parse|]. intros v.
  apply all_or_nothing_write; [apply atomic_saveChecklistCompletion|]. intros c.
  apply sure_last.
Qed.

Lemma commits_patchChecklistCompletion env id updates :
  commits_or_not (patchChecklistCompletion env id updates).
Proof.
  apply commits_or_not_try_catch; [|handler_catches].
  intros w. unfold mbind at 1, M_bind at 1.
  destruct (updateChecklistCompletion id updates w) as [[[c|]|e] w1] eqn:Hw.
  - assert (sure ((mret c : M ChecklistCompletion) ≫= λ completion,
              (if bool_decide (cc_isCompleted completion = Some true)
                  && Session.truthy_string (cc_supervisorSignature completion)
               then updateRoomStatus env (cc_roomId completion) "clean" ≫=
                      λ _, mret ()
               else mret ()) ≫= λ _,
              broadcast {| type := checklist_update;
                           data := ChecklistData "update" (Some completion) |} ≫=
                λ _, mret (res_json (CompletionJson (Some completion))))) as Hs.
    { apply sure_bind; [intros w0; by eexists _, w0|]. intros completion.
      apply sure_bind; [|intros _; apply sure_last].
      destruct (_ && _).
      - intros w0.
        destruct (total_updateRoomStatus env (cc_roomId completion) "clean"
                    ltac:(by_deciding) w0) as (r & w0' & Hr).
        rewrite (bind_return _ _ _ _ _ Hr). by eexists _, w0'.
      - intros w0. by eexists _, w0. }
    by destruct (Hs w1) as (res & w' & -> & ?).
  - apply updateChecklistCompletion_None in Hw as ->. done.
  - by eapply atomic_updateChecklistCompletion.
Qed.

Lemma commits_postProblemReport env body : commits_or_not (postProblemReport env body).
Proof.
  apply commits_or_not_try_catch; [|handler_catches].
  apply all_or_nothing_read; [apply readonly_parse|]. intros v.
  apply all_or_nothing_write; [apply atomic_createProblemReport|]. intros r.
  apply sure_bind; [apply total_updateRoomStatus; by_deciding|]. intros _.
  apply sure_last.
Qed.

Lemma commits_dispatch env r : commits_or_not (dispatch env r).
Proof.
  destruct r; simpl;
    eauto using commits_patchRoomStatus, commits_postCleaningSession,
      commits_patchCleaningSession, commits_getActiveCleaningSessionRoute,
      commits_postChecklistCompletion, commits_patchChecklistCompletion,
      commits_postProblemReport.
Qed.

Lemma failed_request_writes_nothing_aux env req w :
  status (serve env req w).1 ≠ 200 → (serve env req w).2 = w.
Proof.
  unfold serve, app.
  destruct (isAuthenticated env (user req)) as [res|su]; [done|].
  assert (∀ w0, status (match dispatch env (route req) w0 with
                        | (Return res, w') => (res, w')
                        | (Throw _, w') => (respond 500 "Internal Server Error", w')
                        end).1 ≠ 200 →
                (match dispatch env (route req) w0 with
                 | (Return res, w') => (res, w')
                 | (Throw _, w') => (respond 500 "Internal Server Error", w')
                 end).2 = w0) as Hd.
  { intros w0. destruct (commits_dispatch env (route req) w0)
      as (res & w' & -> & [Hok|Hsame]); simpl; [done | by intros _]. }
  destruct (required_roles (route req)) as [roles|]; [|apply Hd].
  unfold mbind, M_bind. rewrite requireRole_decides.
  destruct (negb _); [done|].
  destruct (stored_role_decision _ _ _); [done | apply Hd].
Qed.



Import Queries Browser.

(** ** The status modal and the approval modal *)

Lemma serve_patchRoomStatus env u id st w :
  passes_gate env {| user := u; route := PatchRoomStatus id (Some st) |} w →
  st ∈ roomStatusEnum →
  serve env {| user := u; route := PatchRoomStatus id (Some st) |} w
  = (res_json (RoomJson (head (set_room_status st (now env)
                                 <$> filter (λ r, room_id r = id) (rooms (db w))))),
     with_sent
       (with_db w (with_rooms (db w)
          ((λ r, if bool_decide (room_id r = id)
                 then set_room_status st (now env) r else r) <$> rooms (db w))))
       (sent w ++ fan_out w
          {| type := room_status_update;
             data := RoomStatusData id st
                       (head (set_room_status st (now env)
                                <$> filter (λ r, room_id r = id) (rooms (db w)))) |})).
Proof.
  intros Hgate Hst.
  rewrite passes_gate_serve by done. simpl.
  unfold patchRoomStatus, try_catch, parse, statusSchema. simpl.
  assert (st ∈ ["dirty"; "clean"; "occupied"; "cleaning"; "inspection"; "approved"])
    as Hzod.
  { revert Hst. unfold roomStatusEnum. set_unfold. intuition. }
  case_guard; [|done]. simpl.
  unfold mbind at 1, M_bind at 1. simpl.
  erewrite bind_return; last by apply updateRoomStatus_returns.
  done.
Qed.

Lemma serve_approved env u id w :
  passes_gate env {| user := u; route := PatchRoomStatus id (Some "approved") |} w →
  serve env {| user := u; route := PatchRoomStatus id (Some "approved") |} w
  = (respond 500 "Failed to update room status", w).
Proof. intros Hgate. by rewrite passes_gate_serve. Qed.

(** X2. Of the six statuses the status modal offers, five are accepted: the
    room gets the status.  The sixth, [approved], which is also what the
    approval modal sends, passes the validation of the route and is refused
    by the database, whose enum does not have it: the answer is 500 and
    nothing is written, for every room and every permitted caller. *)
Theorem status_options_and_approval env u room o w :
  passes_gate env {| user := u; route := updateStatusMutation room o |} w →
  o ∈ statusOptions →
  room ∈ rooms (db w) →
  (o ≠ "approved" →
     status (serve env {| user := u; route := updateStatusMutation room o |} w).1 = 200 ∧
     ∀ r, r ∈ rooms (db (serve env {| user := u;
                                      route := updateStatusMutation room o |} w).2) →
          room_id r = room_id room → room_status r = o) ∧
  (o = "approved" →
     serve env {| user := u; route := approveRoomMutation room |} w
     = (respond 500 "Failed to update room status", w)).
Proof.
  intros Hgate Ho Hroom. split.
  - intros Hne. unfold updateStatusMutation in *.
    assert (o ∈ roomStatusEnum) as Hst.
    { revert Ho Hne. unfold statusOptions, roomStatusEnum. set_unfold. intuition. }
    rewrite serve_patchRoomStatus by done. simpl. split; [done|].
    intros r (r0 & -> & Hr0)%list_elem_of_fmap Hid.
    case_bool_decide; [done|]. done.
  - intros ->. by apply serve_approved.
Qed.

Lemma status_options_and_approval_witness :
  serve (Example.env 1600000 "x")
    {| user := Some (Example.login "u-maria" None);
       route := approveRoomMutation Example.room101 |} Example.world
  = (respond 500 "Failed to update room status", Example.world).
Proof.
  apply (status_options_and_approval (Example.env 1600000 "x")
           (Some (Example.login "u-maria" None)) Example.room101 "approved"
           Example.world).
  - exists (Example.login "u-maria" None). split; [reflexivity|].
    eexists. reflexivity.
  - by_deciding.
  - by_deciding.
  - reflexivity.
Defined.

(** ** What a session update and a checklist touch *)

Lemma updateCleaningSession_cases id u w :
  (∃ e, updateCleaningSession id u w = (Throw e, w)) ∨
  updateCleaningSession id u w = (Return None, w) ∨
  (∃ s l, updateCleaningSession id u w
          = (Return (Some s), with_db w (with_cleaningSessions (db w) l))).
Proof.
  unfold updateCleaningSession, set_values, mbind, M_bind, get_db, put_db, check,
    mret, M_ret, throw. simpl.
  repeat (case_match; simpl; simplify_eq);
    first [ left; eexists; reflexivity
          | right; left; reflexivity
          | right; right; eexists _, _; reflexivity ].
Qed.

Lemma updateChecklistCompletion_cases id u w :
  (∃ e, updateChecklistCompletion id u w = (Throw e, w)) ∨
  updateChecklistCompletion id u w = (Return None, w) ∨
  (∃ c l, updateChecklistCompletion id u w
          = (Return (Some c), with_db w (with_checklistCompletions (db w) l))).
Proof.
  unfold updateChecklistCompletion, set_values, mbind, M_bind, get_db, put_db,
    check, mret, M_ret, throw. simpl.
  repeat (case_match; simpl; simplify_eq);
    first [ left; eexists; reflexivity
          | right; left; reflexivity
          | right; right; eexists _, _; reflexivity ].
Qed.

Lemma saveChecklistCompletion_cases env v w :
  (∃ e, saveChecklistCompletion env v w = (Throw e, w)) ∨
  saveChecklistCompletion env v w
  = (Return (new_checklistCompletion env v),
     with_db w (with_checklistCompletions (db w)
       (checklistCompletions (db w) ++ [new_checklistCompletion env v]))).
Proof.
  unfold saveChecklistCompletion, mbind, M_bind, get_db, put_db, check, mret,
    M_ret, throw. simpl.
  repeat (case_match; simpl; simplify_eq);
    first [ left; eexists; reflexivity | right; reflexivity ].
Qed.

Lemma with_cleaningSessions_id d : with_cleaningSessions d (cleaningSessions d) = d.
Proof. by destruct d. Qed.

(** X3. An update of a cleaning session, a completion included, writes the
    table of sessions and no other: whatever the body and whatever the
    answer, the users, the rooms (so the status of the room that was being
    cleaned), the checklists and the problem reports are as they were. *)
Theorem session_update_touches_sessions_only env u id updates w :
  db (serve env {| user := u; route := PatchCleaningSession id updates |} w).2
  = with_cleaningSessions (db w)
      (cleaningSessions
         (db (serve env {| user := u;
                           route := PatchCleaningSession id updates |} w).2)).
Proof.
  unfold serve, app. simpl.
  destruct (isAuthenticated env u) as [res|su]; simpl.
  { by rewrite with_cleaningSessions_id. }
  unfold patchCleaningSession, try_catch.
  destruct (updateCleaningSession_cases id updates w)
    as [[e He] | [He | (s & l & He)]].
  - rewrite (bind_throw _ _ _ _ _ He). simpl. by rewrite with_cleaningSessions_id.
  - rewrite (bind_return _ _ _ _ _ He). simpl. by rewrite with_cleaningSessions_id.
  - by rewrite (bind_return _ _ _ _ _ He).
Qed.

(** X4. A checklist update that succeeds takes the room of the checklist to
    [clean] exactly when the updated record is completed and carries a
    non-empty supervisor signature; otherwise the rooms are left as they
    were.  An update that does not succeed changes no room. *)
Theorem checklist_update_cleans_when_signed env u id updates w :
  let after := serve env {| user := u;
                            route := PatchChecklistCompletion id updates |} w in
  (status after.1 ≠ 200 → rooms (db after.2) = rooms (db w)) ∧
  (status after.1 = 200 →
     ∃ c, json after.1 = CompletionJson (Some c) ∧
          rooms (db after.2)
          = if bool_decide (cc_isCompleted c = Some true)
               && Session.truthy_string (cc_supervisorSignature c)
            then (λ r, if bool_decide (room_id r = cc_roomId c)
                       then set_room_status "clean" (now env) r else r)
                   <$> rooms (db w)
            else rooms (db w)).
Proof.
  intros after. split.
  { intros Hko. unfold after. by rewrite failed_request_writes_nothing_aux. }
  unfold after, serve, app. simpl.
  destruct (isAuthenticated env u) as [res|su] eqn:Hauth; simpl.
  { apply isAuthenticated_rejects in Hauth as ->. done. }
  unfold patchChecklistCompletion, try_catch.
  destruct (updateChecklistCompletion_cases id updates w)
    as [[e He] | [He | (c & l & He)]].
  - by rewrite (bind_throw _ _ _ _ _ He).
  - by rewrite (bind_return _ _ _ _ _ He).
  - rewrite (bind_return _ _ _ _ _ He).
    erewrite (bind_return (mret c)); [|reflexivity].
    intros _. exists c.
    destruct (bool_decide (cc_isCompleted c = Some true)
              && Session.truthy_string (cc_supervisorSignature c)).
    + unfold mbind, M_bind.
      by rewrite updateRoomStatus_returns by by_deciding.
    + done.
Qed.

Lemma bind_mret {A B} (a : A) (f : A → M B) w : (mret a ≫= f) w = f a w.
Proof. done. Qed.

(** X5. The request that the checklist modal sends to finalize a
    checklist carries [completedAt] as the string [toISOString] gives, and
    the insert schema wants a [Date] there: for every template, room, user
    and set of checked items, the request is answered 500 and the world is
    as it was, so the modal never stores a completed checklist.  The
    request that saves the progress has no [completedAt] and passes the
    schema, as a checklist that is not completed. *)
Theorem checklist_submit_is_refused stringify env u template room currentUser
    supervisorId completedItems t r w :
  submitChecklistMutation stringify template room currentUser supervisorId
    completedItems t = inr r →
  passes_gate env {| user := u; route := r |} w →
  serve env {| user := u; route := r |} w
  = (respond 500 "Failed to save checklist completion", w) ∧
  ∃ body v,
    saveProgressMutation stringify template room currentUser completedItems
    = inr (PostChecklistCompletion body) ∧
    insertChecklistCompletionSchema body = Some v ∧
    icc_roomId v = room_id room ∧ icc_housekeeperId v = user_id currentUser ∧
    icc_isCompleted v = Some (Some false) ∧ icc_completedAt v = None.
Proof.
  unfold submitChecklistMutation, saveProgressMutation. intros Hr Hgate.
  destruct template as [template|]; [|done].
  repeat case_match; simplify_eq. split.
  - by rewrite passes_gate_serve by done.
  - by eexists _, _.
Qed.

Lemma checklist_submit_is_refused_witness :
  serve (Example.env 1500000 "c-3")
    {| user := Some (Example.login "u-ana" None);
       route := PostChecklistCompletion
         {| ccb_roomId := Some "r-101"; ccb_templateId := Some "t-1";
            ccb_housekeeperId := Some "u-ana";
            ccb_supervisorId := Some (Some "u-sofia");
            ccb_completedItems := Some "{}";
            ccb_supervisorSignature := None;
            ccb_isCompleted := Some (Some true);
            ccb_completedAt := Some (Some (toISOString 1500000)) |} |}
    Scenario.world
  = (respond 500 "Failed to save checklist completion", Scenario.world).
Proof.
  apply (proj1 (checklist_submit_is_refused Scenario.stringify
           (Example.env 1500000 "c-3") (Some (Example.login "u-ana" None))
           (Some Scenario.client_template) Example.room101 Example.ana "u-sofia"
           Scenario.all_checked 1500000 _ Scenario.world eq_refl
           (ex_intro _ (Example.login "u-ana" None) (conj eq_refl I)))).
Defined.

(** ** A session that starts or completes, and the active-session query *)

Lemma first_desc_newest {A} (key : A → option Z) (l : list A) (x : A) :
  (∀ y, y ∈ l → desc_before (key x) (key y) = true) →
  first_desc key (l ++ [x]) = Some x.
Proof.
  induction l as [|a l IH]; intros Hl; [done|]. simpl.
  rewrite IH by (intros y Hy; apply Hl; by right).
  by rewrite Hl by left.
Qed.

Lemma filter_no_hit_nil {A} (l : list A) :
  (∀ x, x ∈ l → False) → l = [].
Proof. destruct l as [|a l]; [done|]. intros H. destruct (H a). by left. Qed.

(** X6. Start, then ask: when the sessions of the room that are still
    active or paused were all created before the new one, the
    active-session query answers with exactly the session that the start
    answered with. *)
Theorem started_session_is_the_active_one env e2 u room hk t w :
  passes_gate env {| user := u; route := startCleaningMutation room hk t |} w →
  room ∈ rooms (db w) → hk ∈ users (db w) →
  uuid env ∉ cs_id <$> cleaningSessions (db w) →
  (∀ s', s' ∈ cleaningSessions (db w) → is_active_for (room_id room) s' →
         ∃ t', cs_createdAt s' = Some t' ∧ (t' < dbNow env)%Z) →
  authenticated e2 u →
  let after := serve env {| user := u; route := startCleaningMutation room hk t |} w in
  status after.1 = 200 ∧
  (serve e2 {| user := u; route := GetActiveCleaningSession (room_id room) |}
     after.2).1 = after.1.
Proof.
  intros Hgate Hroom Hhk Hfresh Holder Hauth after. unfold after.
  rewrite serve_startCleaningMutation by done. cbn [fst snd]. split; [done|].
  rewrite passes_gate_serve by (by apply passes_gate_open).
  cbn [route dispatch].
  unfold getActiveCleaningSessionRoute, getActiveCleaningSession, try_catch,
    mbind, M_bind, get_db. simpl.
  rewrite filter_app, filter_cons_True by (by split; [|left]).
  rewrite filter_nil, first_desc_newest; [done|].
  intros y [Hact Hy]%list_elem_of_filter.
  destruct (Holder y Hy Hact) as (t' & -> & Hlt). simpl.
  by apply bool_decide_eq_true_2.
Qed.

Lemma started_session_is_the_active_one_witness :
  (serve (Example.env 1600000 "x")
     {| user := Some (Example.login "u-ana" None);
        route := GetActiveCleaningSession "r-205" |}
     (serve (Example.env 1500000 "s-2")
        {| user := Some (Example.login "u-ana" None);
           route := startCleaningMutation Example.room205 Example.ana 1500000 |}
        Example.world).2).1
  = (serve (Example.env 1500000 "s-2")
       {| user := Some (Example.login "u-ana" None);
          route := startCleaningMutation Example.room205 Example.ana 1500000 |}
       Example.world).1.
Proof.
  apply (started_session_is_the_active_one (Example.env 1500000 "s-2")
           (Example.env 1600000 "x") (Some (Example.login "u-ana" None))
           Example.room205 Example.ana 1500000 Example.world).
  - exists (Example.login "u-ana" None). split; [reflexivity | exact I].
  - by_deciding.
  - by_deciding.
  - by_deciding.
  - intros s' Hs' _. apply list_elem_of_singleton in Hs' as ->.
    exists 1000005%Z. split; [reflexivity | reflexivity].
  - eexists. reflexivity.
Defined.

(** X7. Update, then ask.  An update that the server accepts and that
    gives a session a status other than [active] and [paused], [completed]
    for one, takes the session out of the answers of the active-session
    query: in the state that the update leaves, the query answers with
    that session for no room, and when it was the only active or paused
    session of its room, the query for that room finds none.  (A later
    update may give the session the status [active] again; and the
    completion that the client sends is not accepted.) *)
Theorem completed_session_is_not_active env e2 u s p st w :
  passes_gate env {| user := u; route := PatchCleaningSession (cs_id s) p |} w →
  filter (λ x, cs_id x = cs_id s) (cleaningSessions (db w)) = [s] →
  well_typed_update p →
  csp_id p = None → csp_roomId p = None → csp_housekeeperId p = None →
  csp_status p = Some st → st ≠ "active" → st ≠ "paused" →
  authenticated e2 u →
  let after := serve env {| user := u; route := PatchCleaningSession (cs_id s) p |} w in
  status after.1 = 200 ∧
  (∀ roomId found,
     (serve e2 {| user := u; route := GetActiveCleaningSession roomId |} after.2).1
     = res_json (SessionJson (Some found)) →
     cs_id found ≠ cs_id s) ∧
  ((∀ x, x ∈ cleaningSessions (db w) → is_active_for (cs_roomId s) x → x = s) →
   (serve e2 {| user := u; route := GetActiveCleaningSession (cs_roomId s) |}
      after.2).1 = res_json (SessionJson None)).
Proof.
  intros Hgate Hrow Htyped Hid Hroom Hhk Hst Hactive Hpaused Hauth after.
  assert (after = (res_json (SessionJson (Some (apply_cleaningSessionPatch p s))),
                   after.2) ∧
          cleaningSessions (db after.2)
          = (λ x, if bool_decide (x = s) then apply_cleaningSessionPatch p s else x)
              <$> cleaningSessions (db w)) as [Hafter Hrows].
  { unfold after.
    erewrite serve_patchCleaningSession; [| exact Hgate | exact Hrow | done..].
    simpl. split; [done|]. by apply fmap_only_row. }
  assert (cs_status (apply_cleaningSessionPatch p s) = st) as Hsealed
    by (by simpl; rewrite Hst).
  assert (∀ roomId x, x ∈ filter (is_active_for roomId) (cleaningSessions (db after.2)) →
            x ∈ cleaningSessions (db w) ∧ x ≠ s ∧ is_active_for roomId x) as Hcand.
  { intros roomId x [Hact Hx]%list_elem_of_filter. rewrite Hrows in Hx.
    apply list_elem_of_fmap in Hx as (x0 & -> & Hx0).
    case_bool_decide; [|done].
    destruct Hact as [_ [Hact|Hact]]; rewrite Hsealed in Hact; by subst. }
  assert (∀ roomId,
            (serve e2 {| user := u; route := GetActiveCleaningSession roomId |}
               after.2).1
            = res_json (SessionJson
                (first_desc cs_createdAt
                   (filter (is_active_for roomId) (cleaningSessions (db after.2))))))
    as Hquery.
  { intros roomId. by rewrite passes_gate_serve by (by apply passes_gate_open). }
  split; [by rewrite Hafter|]. split.
  - intros roomId found. rewrite Hquery. intros [= Hfound].
    apply first_desc_Some in Hfound as [Hin _].
    destruct (Hcand _ _ Hin) as (Hx & Hne & _). intros Hfid. apply Hne.
    assert (found ∈ filter (λ x, cs_id x = cs_id s) (cleaningSessions (db w))) as Hf
      by (by apply list_elem_of_filter).
    rewrite Hrow in Hf. by apply list_elem_of_singleton in Hf.
  - intros Honly. rewrite Hquery. do 2 f_equal.
    apply first_desc_None. apply filter_no_hit_nil.
    intros x Hx. destruct (Hcand _ _ Hx) as (Hin & Hne & Hact).
    by apply Hne, Honly.
Qed.

Lemma completed_session_is_not_active_witness :
  (serve (Example.env 1800000 "x")
     {| user := Some (Example.login "u-ana" None);
        route := GetActiveCleaningSession (cs_roomId Example.session205) |}
     (serve (Example.env 1754321 "x")
        {| user := Some (Example.login "u-ana" None);
           route := PatchCleaningSession (cs_id Example.session205)
                      (sealing 754) |}
        Example.world).2).1
  = res_json (SessionJson None).
Proof.
  apply (completed_session_is_not_active (Example.env 1754321 "x")
           (Example.env 1800000 "x") (Some (Example.login "u-ana" None))
           Example.session205 (sealing 754) "completed" Example.world).
  - exists (Example.login "u-ana" None). split; [reflexivity | exact I].
  - reflexivity.
  - repeat split; reflexivity.
  - reflexivity.
  - reflexivity.
  - reflexivity.
  - reflexivity.
  - discriminate.
  - discriminate.
  - eexists. reflexivity.
  - intros x Hx _. by apply list_elem_of_singleton in Hx.
Defined.

Lemma checklist_update_cleans_when_signed_witness :
  ∃ c, json (serve (Example.env 1500000 "x")
               {| user := Some (Example.login "u-ana" None);
                  route := PatchChecklistCompletion "c-2"
                    {| ccp_id := None; ccp_roomId := None; ccp_templateId := None;
                       ccp_housekeeperId := None; ccp_supervisorId := None;
                       ccp_completedItems := None;
                       ccp_supervisorSignature := Some (Some "Sofia");
                       ccp_isCompleted := None; ccp_completedAt := None;
                       ccp_createdAt := None |} |} Scenario.world).1
       = CompletionJson (Some c) ∧
       rooms (db (serve (Example.env 1500000 "x")
                    {| user := Some (Example.login "u-ana" None);
                       route := PatchChecklistCompletion "c-2"
                         {| ccp_id := None; ccp_roomId := None;
                            ccp_templateId := None; ccp_housekeeperId := None;
                            ccp_supervisorId := None; ccp_completedItems := None;
                            ccp_supervisorSignature := Some (Some "Sofia");
                            ccp_isCompleted := None; ccp_completedAt := None;
                            ccp_createdAt := None |} |} Scenario.world).2)
       = if bool_decide (cc_isCompleted c = Some true)
            && Session.truthy_string (cc_supervisorSignature c)
         then (λ r, if bool_decide (room_id r = cc_roomId c)
                    then set_room_status "clean" 1500000 r else r)
                <$> rooms (db Scenario.world)
         else rooms (db Scenario.world).
Proof.
  apply (proj2 (checklist_update_cleans_when_signed (Example.env 1500000 "x")
           (Some (Example.login "u-ana" None)) "c-2"
           {| ccp_id := None; ccp_roomId := None; ccp_templateId := None;
              ccp_housekeeperId := None; ccp_supervisorId := None;
              ccp_completedItems := None;
              ccp_supervisorSignature := Some (Some "Sofia");
              ccp_isCompleted := None; ccp_completedAt := None;
              ccp_createdAt := None |} Scenario.world)).
  reflexivity.
Defined.

(** ** A problem report *)

Lemma createProblemReport_returns env v w :
  uuid env ∉ pr_id <$> problemReports (db w) →
  ipr_roomId v ∈ room_id <$> rooms (db w) →
  ipr_reportedBy v ∈ user_id <$> users (db w) →
  default None (ipr_resolvedBy v) = None →
  createProblemReport env v w
  = (Return (new_problemReport env v),
     with_db w (with_problemReports (db w)
       (problemReports (db w) ++ [new_problemReport env v]))).
Proof.
  intros Hfresh Hroom Huser Hres.
  unfold createProblemReport, mbind, M_bind, get_db, check, room_exists,
    user_exists. simpl.
  rewrite Hres. simpl. by rewrite !bool_decide_eq_true_2.
Qed.

(** X8. A report that the problem modal lets through (a type and a priority
    of its lists, a description that is not blank), filed for an existing
    room by an existing user, is accepted by the server: it is stored with
    the status [reported], and the room goes to [inspection] whatever its
    status was, [occupied] included. *)
Theorem problem_report_sends_room_to_inspection trim env u formData room reporter r w :
  submitProblemMutation trim formData room reporter = inr r →
  form_type formData ∈ problemTypes → form_priority formData ∈ priorities →
  passes_gate env {| user := u; route := r |} w →
  room ∈ rooms (db w) → reporter ∈ users (db w) →
  uuid env ∉ pr_id <$> problemReports (db w) →
  let after := serve env {| user := u; route := r |} w in
  ∃ report,
    after.1 = res_json (ReportJson report) ∧
    problemReports (db after.2) = problemReports (db w) ++ [report] ∧
    pr_status report = "reported" ∧ pr_roomId report = room_id room ∧
    pr_reportedBy report = user_id reporter ∧
    pr_type report = form_type formData ∧
    pr_priority report = form_priority formData ∧
    pr_description report = form_description formData ∧
    (∃ r', r' ∈ rooms (db after.2) ∧ room_id r' = room_id room) ∧
    (∀ r', r' ∈ rooms (db after.2) → room_id r' = room_id room →
           room_status r' = "inspection").
Proof.
  intros Hr Htype Hprio Hgate Hroom Huser Hfresh after.
  unfold submitProblemMutation in Hr.
  case_match; simplify_eq. unfold after.
  rewrite passes_gate_serve by done. cbn [route dispatch].
  unfold postProblemReport, try_catch, parse, insertProblemReportSchema. simpl.
  change (form_type formData ∈ problemTypeEnum) in Htype.
  change (form_priority formData ∈ priorityEnum) in Hprio.
  case_guard as Hg; [|by rewrite bool_decide_eq_true_2 in Hg].
  case_guard; [|done]. simpl.
  rewrite bind_mret.
  erewrite bind_return; last first.
  { apply createProblemReport_returns; simpl;
      [done | by apply elem_of_fmap_id | by apply elem_of_fmap_id | done]. }
  erewrite bind_return; last first.
  { apply updateRoomStatus_returns. by_deciding. }
  simpl. eexists. repeat split.
  - exists (set_room_status "inspection" (now env) room). split; [|done].
    apply list_elem_of_fmap. exists room. by rewrite bool_decide_eq_true_2.
  - intros r' (r0 & -> & Hr0)%list_elem_of_fmap Hid.
    case_bool_decide; [done|]. done.
Qed.

Lemma problem_report_sends_room_to_inspection_witness :
  ∃ report,
    (serve (Example.env 1500000 "p-3")
       {| user := Some (Example.login "u-ana" None);
          route := PostProblemReport
            {| prb_roomId := Some "r-505"; prb_reportedBy := Some "u-ana";
               prb_type := Some "moveis"; prb_priority := Some "media";
               prb_description := Some "broken chair";
               prb_location := Some (Some EmptyString);
               prb_photos := Some (Some "[]"); prb_status := None;
               prb_resolvedBy := None; prb_resolvedAt := None |} |}
       Scenario.world).1
    = res_json (ReportJson report) ∧ pr_status report = "reported".
Proof.
  destruct (problem_report_sends_room_to_inspection (λ s, s)
              (Example.env 1500000 "p-3") (Some (Example.login "u-ana" None))
              {| form_type := "moveis"; form_priority := "media";
                 form_description := "broken chair";
                 form_location := EmptyString |}
              Scenario.room505 Example.ana
              (PostProblemReport
                 {| prb_roomId := Some "r-505"; prb_reportedBy := Some "u-ana";
                    prb_type := Some "moveis"; prb_priority := Some "media";
                    prb_description := Some "broken chair";
                    prb_location := Some (Some EmptyString);
                    prb_photos := Some (Some "[]"); prb_status := None;
                    prb_resolvedBy := None; prb_resolvedAt := None |})
              Scenario.world)
    as (report & Hres & _ & Hstatus & _).
  - reflexivity.
  - by_deciding.
  - by_deciding.
  - exists (Example.login "u-ana" None). split; [reflexivity | exact I].
  - by_deciding.
  - by_deciding.
  - by_deciding.
  - exists report. split; [exact Hres | exact Hstatus].
Defined.

(** ** The read queries *)

Lemma insert_by_perm {A} (before : A → A → bool) x l :
  insert_by before x l ≡ₚ x :: l.
Proof.
  induction l as [|y l IH]; [done|]. simpl.
  destruct (before x y); [done|]. rewrite IH. apply Permutation_swap.
Qed.

Lemma order_by_perm {A} (before : A → A → bool) l : order_by before l ≡ₚ l.
Proof.
  induction l as [|x l IH]; [done|]. unfold order_by. simpl.
  rewrite insert_by_perm. by constructor.
Qed.

Section Sorted.
Context {A : Type} (before : A → A → bool).
Context (before_total : ∀ a b, before a b = false → before b a = true).
Context (before_trans : ∀ a b c, before a b = true → before b c = true →
                                 before a c = true).

Lemma insert_by_sorted x l :
  StronglySorted (λ a b, before a b = true) l →
  StronglySorted (λ a b, before a b = true) (insert_by before x l).
Proof.
  induction 1 as [|y l Hl IH Hy]; simpl.
  - repeat constructor.
  - destruct (before x y) eqn:Hxy.
    + constructor; [by constructor|]. constructor; [done|].
      eapply Forall_impl; [exact Hy|]. intros z Hz. by eapply before_trans.
    + constructor; [done|].
      rewrite insert_by_perm. constructor; [by apply before_total | done].
Qed.

Lemma order_by_sorted l : StronglySorted (λ a b, before a b = true) (order_by before l).
Proof.
  induction l as [|x l IH]; [constructor|]. by apply insert_by_sorted.
Qed.
End Sorted.

Lemma passes_query_gate_answer collate env req w :
  passes_query_gate env req w →
  answer collate env req w =
    match isAuthenticated env (q_user req) with
    | inr session =>
        match run_query collate session (query req) w with
        | (Return res, w') => (res, w')
        | (Throw _, w') => (q_respond 500 "Internal Server Error", w')
        end
    | inl res => (q_of res, w)
    end.
Proof.
  intros (su & Hauth & Hrole). unfold answer, query_app. rewrite Hauth.
  destruct (query_roles (query req)) as [roles|]; [|done].
  destruct Hrole as [usr Husr]. by rewrite (bind_return _ _ _ _ _ Husr).
Qed.

Lemma order_by_number collate l :
  collation collate → ordered_by_number collate (order_by (by_number collate) l).
Proof.
  intros [Htotal Htrans]. apply order_by_sorted.
  - intros a b. apply Htotal.
  - intros a b c. apply Htrans.
Qed.

(** X9. The list of rooms a caller gets depends on the role of the stored
    record of the token's subject.  A caller who is not a manager gets the
    rooms assigned to them and no other, whatever [assignedTo] the request
    names; a manager gets every room, or the rooms of the user that
    [assignedTo] names; a caller with no stored record is answered 401.
    The rooms come ordered by their number, in the collation of the
    database.  The query writes nothing. *)
Theorem rooms_visibility collate env u su userId assignedTo w :
  isAuthenticated env u = inr su →
  claims su ≫= sub = Some userId → userId ≠ EmptyString →
  match head (filter (λ x, user_id x = userId) (users (db w))) with
  | None =>
      answer collate env {| q_user := u; query := GetRooms assignedTo |} w
      = (q_respond 401 "User not found", w)
  | Some me =>
      ∃ visible,
        answer collate env {| q_user := u; query := GetRooms assignedTo |} w
        = (q_res_json (RoomsJson visible), w) ∧
        visible ≡ₚ rooms_shown_to me assignedTo (db w) ∧
        (user_role me ≠ "manager" →
         ∀ r, r ∈ visible ↔ r ∈ rooms (db w) ∧ room_assignedTo r = Some userId) ∧
        (collation collate → ordered_by_number collate visible)
  end.
Proof.
  intros Hauth Hsub Hne.
  rewrite passes_query_gate_answer by (exists su; by split).
  cbn [q_user query]. rewrite Hauth. cbn [run_query].
  unfold getRooms, try_catch. rewrite Hsub. simpl.
  rewrite bool_decide_eq_false_2 by done. simpl.
  destruct (head _) as [me|] eqn:Hme.
  - assert (user_id me = userId) as Hid.
    { apply head_Some_elem_of, list_elem_of_filter in Hme. tauto. }
    unfold rooms_shown_to, getUser, getRoomsByAssignedUser, getAllRooms,
      mbind, M_bind, get_db, mret, M_ret.
    rewrite Hme.
    destruct (bool_decide (user_role me = "manager")) eqn:Hrole.
    + destruct (truthy_string assignedTo);
        (eexists; split; [reflexivity|]; split; [apply order_by_perm|]);
        (split; [|apply order_by_number]);
        intros Hnm; by apply bool_decide_eq_true in Hrole.
    + eexists. split; [reflexivity|]. split; [rewrite Hid; apply order_by_perm|].
      split; [|apply order_by_number].
      intros _ r. rewrite order_by_perm, list_elem_of_filter. tauto.
  - unfold getUser, mbind, M_bind, get_db, mret, M_ret. by rewrite Hme.
Qed.

Lemma string_compare_trans (a b c : string) :
  String.compare a b ≠ Gt → String.compare b c ≠ Gt → String.compare a c ≠ Gt.
Proof.
  revert b c. induction a as [|x a IH]; intros [|y b] [|z c]; simpl; try done.
  unfold Ascii.compare.
  destruct (N.compare_spec (Ascii.N_of_ascii x) (Ascii.N_of_ascii y));
    destruct (N.compare_spec (Ascii.N_of_ascii y) (Ascii.N_of_ascii z));
    destruct (N.compare_spec (Ascii.N_of_ascii x) (Ascii.N_of_ascii z));
    try done; try lia.
  apply IH.
Qed.

Lemma collation_bytes : collation Scenario.collate.
Proof.
  unfold Scenario.collate, String.leb. split.
  - intros a b Hab. apply bool_decide_eq_false in Hab.
    apply bool_decide_eq_true. rewrite String.compare_antisym.
    by destruct (String.compare a b).
  - intros a b c Hab Hbc.
    apply bool_decide_eq_true in Hab. apply bool_decide_eq_true in Hbc.
    apply bool_decide_eq_true.
    pose proof (string_compare_trans a b c) as Htrans.
    destruct (String.compare a b); destruct (String.compare b c);
      destruct (String.compare a c); try done; by destruct Htrans.
Qed.

(** Ana, a housekeeper, asks for the rooms of Maria: she gets her own, by
    their number. *)
Lemma rooms_visibility_witness :
  ∃ visible,
    answer Scenario.collate (Example.env 1500000 "x")
      {| q_user := Some (Example.login "u-ana" None);
         query := GetRooms (Some "u-maria") |} Scenario.world
    = (q_res_json (RoomsJson visible), Scenario.world) ∧
    visible ≡ₚ rooms_shown_to Example.ana (Some "u-maria") (db Scenario.world) ∧
    (user_role Example.ana ≠ "manager" →
     ∀ r, r ∈ visible ↔
          r ∈ rooms (db Scenario.world) ∧ room_assignedTo r = Some "u-ana") ∧
    ordered_by_number Scenario.collate visible.
Proof.
  destruct (rooms_visibility Scenario.collate (Example.env 1500000 "x")
              (Some (Example.login "u-ana" None)) (Example.login "u-ana" None)
              "u-ana" (Some "u-maria") Scenario.world eq_refl eq_refl
              ltac:(discriminate))
    as (visible & Hanswer & Hperm & Hown & Hsorted).
  exists visible.
  split; [exact Hanswer|]. split; [exact Hperm|]. split; [exact Hown|].
  apply Hsorted, collation_bytes.
Defined.

(** X10. For a permitted caller, the completed-checklist query answers 404
    exactly when the room has no checklist with [isCompleted = true];
    otherwise it answers with a completed checklist of that room, the one
    completed last (a NULL [completedAt] sorting first).  A checklist that
    was only saved is never the answer. *)
Theorem completed_checklist_query collate env u roomId w :
  passes_query_gate env {| q_user := u;
                           query := GetChecklistCompletionByRoom roomId |} w →
  ∃ found,
    answer collate env {| q_user := u;
                          query := GetChecklistCompletionByRoom roomId |} w
    = (match found with
       | Some c => q_res_json (ChecklistCompletionJson c)
       | None => q_respond 404 "No completed checklist found for this room"
       end, w) ∧
    match found with
    | Some c =>
        c ∈ checklistCompletions (db w) ∧ cc_roomId c = roomId ∧
        cc_isCompleted c = Some true ∧
        (∀ c', c' ∈ checklistCompletions (db w) → is_completed_for roomId c' →
               desc_before (cc_completedAt c') (cc_completedAt c) = false)
    | None =>
        ∀ c', c' ∈ checklistCompletions (db w) → ¬ is_completed_for roomId c'
    end.
Proof.
  intros Hgate. rewrite passes_query_gate_answer by done.
  destruct Hgate as (su & Hauth & _). cbn [q_user query] in *.
  rewrite Hauth. cbn [run_query].
  unfold getChecklistCompletionByRoomRoute, getChecklistCompletionByRoom,
    try_catch, mbind, M_bind, get_db. simpl.
  set (candidates := filter (is_completed_for roomId) (checklistCompletions (db w))).
  exists (first_desc cc_completedAt candidates).
  destruct (first_desc cc_completedAt candidates) as [c|] eqn:Hfound;
    (split; [done|]).
  - apply first_desc_Some in Hfound as [Hin Hlast].
    apply list_elem_of_filter in Hin as [[Hroom Hdone] Hin].
    repeat split; try done.
    intros c' Hc' Hcompleted. apply Hlast. by apply list_elem_of_filter.
  - apply first_desc_None in Hfound. intros c' Hc' Hcompleted.
    assert (c' ∈ candidates) as Hc by (by apply list_elem_of_filter).
    rewrite Hfound in Hc. by apply elem_of_nil in Hc.
Qed.

Lemma completed_checklist_query_witness :
  ∃ found,
    answer Scenario.collate (Example.env 1500000 "x")
      {| q_user := Some (Example.login "u-sofia" None);
         query := GetChecklistCompletionByRoom "r-101" |} Scenario.world
    = (match found with
       | Some c => q_res_json (ChecklistCompletionJson c)
       | None => q_respond 404 "No completed checklist found for this room"
       end, Scenario.world) ∧
    match found with
    | Some c =>
        c ∈ checklistCompletions (db Scenario.world) ∧ cc_roomId c = "r-101" ∧
        cc_isCompleted c = Some true ∧
        (∀ c', c' ∈ checklistCompletions (db Scenario.world) →
               is_completed_for "r-101" c' →
               desc_before (cc_completedAt c') (cc_completedAt c) = false)
    | None =>
        ∀ c', c' ∈ checklistCompletions (db Scenario.world) →
              ¬ is_completed_for "r-101" c'
    end.
Proof.
  apply (completed_checklist_query Scenario.collate (Example.env 1500000 "x")
           (Some (Example.login "u-sofia" None)) "r-101" Scenario.world).
  exists (Example.login "u-sofia" None). split; [reflexivity|].
  eexists. reflexivity.
Defined.

Lemma StronglySorted_weaken {A} (R R' : A → A → Prop) l :
  (∀ a b, R a b → R' a b) → StronglySorted R l → StronglySorted R' l.
Proof.
  intros HR. induction 1 as [|x l Hl IH Hx]; constructor; [done|].
  eapply Forall_impl; [exact Hx | apply HR].
Qed.

Lemma newest_first_total a b : newest_first a b = false → newest_first b a = true.
Proof.
  unfold newest_first. intros H. apply negb_false_iff in H.
  apply negb_true_iff. by apply desc_before_asym.
Qed.

Lemma newest_first_trans a b c :
  newest_first a b = true → newest_first b c = true → newest_first a c = true.
Proof.
  unfold newest_first. rewrite !negb_true_iff. intros Hab Hbc.
  by eapply desc_before_neg_trans.
Qed.

(** X11. The list of problem reports that a logged-in caller gets holds
    every stored report once (every report of the room, when the request
    names a room) and no other, the newest first: no report stands before
    one that was created later. *)
Theorem problem_reports_newest_first collate env u roomId w :
  authenticated env u →
  ∃ reports,
    answer collate env {| q_user := u; query := GetProblemReports roomId |} w
    = (q_res_json (ProblemReportsJson reports), w) ∧
    reports ≡ₚ (if Session.truthy_string roomId
                then filter (λ r, pr_roomId r = default EmptyString roomId)
                       (problemReports (db w))
                else problemReports (db w)) ∧
    StronglySorted not_older reports.
Proof.
  intros [su Hauth].
  rewrite passes_query_gate_answer by (exists su; by split).
  cbn [q_user query]. rewrite Hauth. cbn [run_query].
  unfold getProblemReports, try_catch.
  assert (∀ l, StronglySorted not_older (order_by newest_first l)) as Hsorted.
  { intros l.
    eapply StronglySorted_weaken;
      [|apply (order_by_sorted newest_first newest_first_total newest_first_trans)].
    intros a b Hab. unfold not_older. unfold newest_first in Hab.
    by apply negb_true_iff in Hab. }
  destruct (truthy_string roomId); simpl;
    (eexists; split; [reflexivity|]; split; [apply order_by_perm | apply Hsorted]).
Qed.

Lemma problem_reports_newest_first_witness :
  ∃ reports,
    answer Scenario.collate (Example.env 1500000 "x")
      {| q_user := Some (Example.login "u-ana" None);
         query := GetProblemReports (Some "r-101") |} Scenario.world
    = (q_res_json (ProblemReportsJson reports), Scenario.world) ∧
    reports ≡ₚ filter (λ r, pr_roomId r = "r-101")
                 (problemReports (db Scenario.world)) ∧
    StronglySorted not_older reports.
Proof.
  apply (problem_reports_newest_first Scenario.collate (Example.env 1500000 "x")
           (Some (Example.login "u-ana" None)) (Some "r-101") Scenario.world).
  eexists. reflexivity.
Defined.

(** ** Logging in *)

Lemma head_filter_id_fmap (f : User → User) id l :
  (∀ u, user_id (f u) = user_id u) →
  head (filter (λ u, user_id u = id) (f <$> l))
  = f <$> head (filter (λ u, user_id u = id) l).
Proof.
  intros Hid. induction l as [|x l IH]; [done|].
  rewrite fmap_cons, !filter_cons, Hid. by destruct (decide (user_id x = id)).
Qed.

Lemma head_filter_snoc {A} (P : A → Prop) `{∀ x, Decision (P x)} l x y :
  head (filter P l) = Some y → head (filter P (l ++ [x])) = Some y.
Proof. rewrite filter_app. by destruct (filter P l). Qed.

Lemma NoDup_head_filter_id (l : list User) u :
  NoDup (user_id <$> l) → u ∈ l →
  head (filter (λ x, user_id x = user_id u) l) = Some u.
Proof.
  induction l as [|x l IH]; intros Hnd Hu; [by apply elem_of_nil in Hu|].
  rewrite fmap_cons in Hnd. apply NoDup_cons in Hnd as [Hx Hnd].
  rewrite filter_cons. apply elem_of_cons in Hu as [->|Hu].
  - by rewrite decide_True.
  - rewrite decide_False; [by apply IH|].
    intros Heq. apply Hx. rewrite Heq. by apply list_elem_of_fmap_2.
Qed.

(** What [storage.upsertUser] does, by the rows it finds: the three ways it
    returns, and the state it leaves in each. *)
Lemma upsertUser_returns env v w u w' :
  UserStorage.upsertUser env v w = (Return u, w') →
  let id := default (uuid env) (UserStorage.uu_id v) in
  let email := default None (UserStorage.uu_email v) in
  (filter (λ x, user_id x = id) (users (db w)) = [] ∧
   u = UserStorage.new_user env v ∧
   users (db w') = users (db w) ++ [u]) ∨
  (∃ existing, head (filter (λ x, user_id x = id) (users (db w))) = Some existing ∧
   u = UserStorage.conflict_update env v existing ∧
   users (db w') = (λ x, if bool_decide (user_id x = id)
                         then UserStorage.conflict_update env v x else x)
                   <$> users (db w)) ∨
  (∃ holder, head (filter (λ x, user_email x = email ∧ is_Some email)
                     (users (db w))) = Some holder ∧
   u = UserStorage.email_update env v holder ∧
   users (db w') = (λ x, if bool_decide (user_email x = email ∧ is_Some email)
                         then UserStorage.email_update env v x else x)
                   <$> users (db w)).
Proof.
  intros Hr id email.
  assert (∀ e w0, w0 = w →
            UserStorage.update_by_email env v e w0 = (Return u, w') →
            ∃ holder, head (filter (λ x, user_email x = email ∧ is_Some email)
                              (users (db w))) = Some holder ∧
              u = UserStorage.email_update env v holder ∧
              users (db w') = (λ x, if bool_decide (user_email x = email ∧ is_Some email)
                                    then UserStorage.email_update env v x else x)
                              <$> users (db w)) as Hcatch.
  { intros e w0 -> He. unfold UserStorage.update_by_email in He.
    destruct e as [|what| |]; try discriminate.
    destruct (UserStorage.includes _ what); [|discriminate].
    unfold mbind, M_bind, get_db in He. fold email in He.
    destruct (filter _ (users (db w))) as [|holder rest] eqn:Hf; [discriminate|].
    simpl in He. injection He as <- <-. by exists holder. }
  unfold UserStorage.upsertUser, try_catch, UserStorage.insert_or_update,
    mbind, M_bind, get_db, put_db, check, throw, mret, M_ret in Hr.
  fold id in Hr.
  destruct (from_option _ true _); cbv beta iota in Hr;
    [|by right; right; eapply Hcatch].
  destruct (filter (λ x, user_id x = id) (users (db w))) as [|existing rest] eqn:Hf.
  - destruct (UserStorage.email_free _ _); cbv beta iota in Hr;
      [|by right; right; eapply Hcatch].
    injection Hr as <- <-. by left.
  - destruct (UserStorage.email_free _ _); cbv beta iota in Hr;
      [|by right; right; eapply Hcatch].
    injection Hr as <- <-. right; left. by exists existing.
Qed.

(** Whatever [storage.upsertUser] does and however it ends, the first row
    with a given id keeps its role when the role passed is that role. *)
Lemma upsertUser_keeps_role env v id me w :
  UserStorage.uu_role v = Some (user_role me) →
  head (filter (λ u, user_id u = id) (users (db w))) = Some me →
  ∃ me', head (filter (λ u, user_id u = id)
                 (users (db (UserStorage.upsertUser env v w).2))) = Some me' ∧
         user_role me' = user_role me.
Proof.
  intros Hrole Hme.
  assert (∀ e w0, w0 = w →
            ∃ me', head (filter (λ u, user_id u = id)
                           (users (db (UserStorage.update_by_email env v e w0).2)))
                   = Some me' ∧ user_role me' = user_role me) as Hcatch.
  { intros e w0 ->. unfold UserStorage.update_by_email.
    destruct e as [|what| |]; try by exists me.
    destruct (UserStorage.includes _ what); [|by exists me].
    unfold mbind, M_bind, get_db.
    destruct (_ <$> filter _ (users (db w))) as [|updated rest]; [by exists me|].
    simpl. rewrite head_filter_id_fmap by (intros x; by destruct (bool_decide _)).
    rewrite Hme. simpl. eexists. split; [done|].
    destruct (bool_decide _); [|done]. simpl. by rewrite Hrole. }
  unfold UserStorage.upsertUser, try_catch, UserStorage.insert_or_update,
    mbind, M_bind, get_db, put_db, check, throw, mret, M_ret.
  destruct (from_option _ true _); cbv beta iota; [|by apply Hcatch].
  destruct (filter (λ u, user_id u = default (uuid env) (UserStorage.uu_id v))
              (users (db w))) as [|existing rest] eqn:Hf.
  - destruct (UserStorage.email_free _ _); cbv beta iota; [|by apply Hcatch].
    exists me. split; [by apply head_filter_snoc|done].
  - destruct (UserStorage.email_free _ _); cbv beta iota; [|by apply Hcatch].
    simpl. rewrite head_filter_id_fmap by (intros x; by destruct (bool_decide _)).
    rewrite Hme. simpl. eexists. split; [done|].
    destruct (bool_decide _); [|done]. simpl. by rewrite Hrole.
Qed.

Lemma login_upsertUser_unfold toLowerCase cfg env c w :
  Login.upsertUser toLowerCase cfg env c w
  = UserStorage.upsertUser env
      (login_data c
         match sub c ≫= λ id, stored id w with
         | Some u => if negb (bool_decide (user_role u = EmptyString))
                     then user_role u
                     else Login.new_user_role toLowerCase cfg c
         | None => Login.new_user_role toLowerCase cfg c
         end) w.
Proof.
  unfold Login.upsertUser, login_data, stored.
  unfold try_catch at 1. unfold mbind at 1, M_bind at 1.
  destruct (sub c) as [id|]; simpl.
  - by destruct (UserStorage.upsertUser _ _ _) as [[]].
  - by destruct (UserStorage.upsertUser _ _ _) as [[]].
Qed.

(** X12. Logging in never changes the role of a user who has a record:
    whatever role the token claims, whatever the configuration, and whether
    the upsert succeeds, takes the branch of the e-mail collision or fails,
    the record of the token's subject has afterwards the role it had. *)
Theorem login_keeps_stored_role toLowerCase cfg env c id me w :
  sub c = Some id → stored id w = Some me → user_role me ≠ EmptyString →
  ∃ me', stored id (Login.upsertUser toLowerCase cfg env c w).2 = Some me' ∧
         user_role me' = user_role me.
Proof.
  intros Hsub Hme Hrole. rewrite login_upsertUser_unfold, Hsub. simpl.
  rewrite Hme, bool_decide_eq_false_2 by done. simpl.
  by apply upsertUser_keeps_role.
Qed.

(** Ana logs in with a token that claims the role of a manager. *)
Lemma login_keeps_stored_role_witness :
  ∃ me', stored "u-ana"
           (Login.upsertUser (λ s, s) Scenario.production (Example.env 1500000 "x")
              (Scenario.token "u-ana" (Some "ana@hotel.com") (Some "manager"))
              Scenario.world).2 = Some me' ∧
         user_role me' = user_role Example.ana.
Proof.
  apply (login_keeps_stored_role (λ s, s) Scenario.production
           (Example.env 1500000 "x")
           (Scenario.token "u-ana" (Some "ana@hotel.com") (Some "manager"))
           "u-ana" Example.ana Scenario.world);
    [reflexivity | reflexivity | discriminate].
Defined.

Lemma email_taken e (l : list User) holder :
  head (filter (λ u, user_email u = Some e) l) = Some holder →
  UserStorage.email_free (Some e) l = false.
Proof.
  intros Hh. apply head_Some_elem_of, list_elem_of_filter in Hh as [He Hin].
  apply bool_decide_eq_false_2. intros Hfree. apply Hfree.
  rewrite <- He. by apply list_elem_of_fmap_2.
Qed.

Lemma takeover toLowerCase cfg env tokens c id e holder w :
  tr_claims tokens = Some c → sub c = Some id → email c = Some e →
  stored id w = None →
  head (filter (λ u, user_email u = Some e) (users (db w))) = Some holder →
  Login.new_user_role toLowerCase cfg c ∈ userRoleEnum →
  ∃ session w' taken,
    Login.verify toLowerCase cfg env tokens w = (Return session, w') ∧
    claims session ≫= sub = Some (user_id holder) ∧
    taken ∈ users (db w') ∧ user_id taken = user_id holder ∧
    user_role taken = Login.new_user_role toLowerCase cfg c ∧
    stored id w' = None ∧
    refresh_token session = tr_refresh_token tokens ∧
    expires_at session = exp c.
Proof.
  intros Hc Hsub He Hnew Hholder Hrole.
  set (data := login_data c (Login.new_user_role toLowerCase cfg c)).
  set (taken := UserStorage.email_update env data holder).
  set (update := λ u, if bool_decide (user_email u = Some e ∧ is_Some (Some e))
                      then UserStorage.email_update env data u else u).
  assert (Login.upsertUser toLowerCase cfg env c w
          = (Return taken, with_db w (UserStorage.with_users (db w)
                                        (update <$> users (db w))))) as Hup.
  { rewrite login_upsertUser_unfold, Hsub. simpl. rewrite Hnew. fold data.
    unfold stored in Hnew. apply head_None in Hnew.
    unfold UserStorage.upsertUser, try_catch, UserStorage.insert_or_update,
      mbind, M_bind, get_db, put_db, check, throw, mret, M_ret.
    simpl. rewrite bool_decide_eq_true_2 by done. rewrite Hsub. simpl.
    rewrite Hnew. rewrite He. simpl.
    change (bool_decide (Some e ∉ user_email <$> users (db w)))
      with (UserStorage.email_free (Some e) (users (db w))).
    rewrite (email_taken e _ holder Hholder).
    unfold UserStorage.update_by_email,
      mbind, M_bind, get_db, put_db, throw, mret, M_ret.
    simpl. rewrite He. simpl.
    rewrite (list_filter_iff _ (λ u, user_email u = Some e))
      by (intros u; split; [tauto|by split]).
    destruct (filter (λ u, user_email u = Some e) (users (db w)))
      as [|first rest]; [done|].
    simpl in Hholder. injection Hholder as ->. reflexivity. }
  exists {| claims := Some {| sub := Some (user_id holder); email := email c;
                              first_name := first_name c; last_name := last_name c;
                              profile_image_url := profile_image_url c;
                              role := role c; exp := exp c |};
            access_token := tr_access_token tokens;
            refresh_token := tr_refresh_token tokens;
            expires_at := tr_claims tokens ≫= exp |},
    (with_db w (UserStorage.with_users (db w) (update <$> users (db w)))), taken.
  split.
  { unfold Login.verify. rewrite Hc. unfold mbind, M_bind. rewrite Hup.
    simpl. by rewrite Hc. }
  split; [done|]. split.
  { simpl. apply head_Some_elem_of, list_elem_of_filter in Hholder as [Hmail Hin].
    apply list_elem_of_fmap. exists holder. split; [|done].
    unfold update. by rewrite bool_decide_eq_true_2. }
  split; [done|]. split; [done|]. split; [|by simpl; rewrite Hc].
  unfold stored. simpl. rewrite head_filter_id_fmap.
  - unfold stored in Hnew. by rewrite Hnew.
  - intros u. unfold update. by destruct (bool_decide _).
Qed.


(** X13. A first login whose token carries the e-mail of a stored user takes
    that user's record over: no record is made for the new subject, the
    record that holds the e-mail gets the role determined for the newcomer,
    and the session is bound to the id of that record. *)
Theorem login_with_stored_email toLowerCase cfg env tokens c id e holder w :
  tr_claims tokens = Some c → sub c = Some id → email c = Some e →
  stored id w = None →
  head (filter (λ u, user_email u = Some e) (users (db w))) = Some holder →
  Login.new_user_role toLowerCase cfg c ∈ userRoleEnum →
  ∃ session w' taken,
    Login.verify toLowerCase cfg env tokens w = (Return session, w') ∧
    claims session ≫= sub = Some (user_id holder) ∧
    taken ∈ users (db w') ∧ user_id taken = user_id holder ∧
    user_role taken = Login.new_user_role toLowerCase cfg c ∧
    stored id w' = None.
Proof.
  intros Hc Hsub He Hnew Hholder Hrole.
  destruct (takeover toLowerCase cfg env tokens c id e holder w
              Hc Hsub He Hnew Hholder Hrole)
    as (session & w' & taken & Hv & Hs & Hin & Hid & Hr & Hst & _).
  by exists session, w', taken.
Qed.

(** A newcomer whose token carries Ana's e-mail and claims the role of a
    manager. *)
Lemma login_with_stored_email_witness :
  ∃ session w' taken,
    Login.verify (λ s, s) Scenario.production (Example.env 1500000 "x")
      {| tr_claims := Some (Scenario.token "u-new" (Some "ana@hotel.com")
                              (Some "manager"));
         tr_access_token := Some "at"; tr_refresh_token := None |}
      Scenario.world = (Return session, w') ∧
    claims session ≫= sub = Some (user_id Example.ana) ∧
    taken ∈ users (db w') ∧ user_id taken = user_id Example.ana ∧
    user_role taken =
      Login.new_user_role (λ s, s) Scenario.production
        (Scenario.token "u-new" (Some "ana@hotel.com") (Some "manager")) ∧
    stored "u-new" w' = None.
Proof.
  apply (login_with_stored_email (λ s, s) Scenario.production
           (Example.env 1500000 "x") _
           (Scenario.token "u-new" (Some "ana@hotel.com") (Some "manager"))
           "u-new" "ana@hotel.com" Example.ana Scenario.world);
    try reflexivity.
  eapply (bool_decide_eq_true_1 _). reflexivity.
Defined.

Lemma new_user_role_production toLowerCase cfg c :
  in_production cfg → truthy_string (role c) = false →
  Login.new_user_role toLowerCase cfg c = "housekeeper".
Proof.
  intros [Hdev Hoverride] Hrole. unfold Login.new_user_role.
  by rewrite Hrole, !bool_decide_eq_false_2.
Qed.

Lemma upsertUser_returns_role env v r w u w' :
  UserStorage.uu_role v = Some r →
  UserStorage.upsertUser env v w = (Return u, w') → user_role u = r.
Proof.
  intros Hr Hu.
  destruct (upsertUser_returns _ _ _ _ _ Hu)
    as [(_ & -> & _)|[(x & _ & -> & _)|(x & _ & -> & _)]]; simpl;
    by rewrite Hr.
Qed.

(** X14. In production, a first login whose token claims no role makes a
    housekeeper, whatever the e-mail of the token looks like: every record
    the upsert returns has that role, and where the e-mail is free the
    upsert does return, having added one record with the subject as id. *)
Theorem first_login_in_production toLowerCase cfg env c id w :
  in_production cfg → sub c = Some id → stored id w = None →
  truthy_string (role c) = false →
  (∀ u w', Login.upsertUser toLowerCase cfg env c w = (Return u, w') →
           user_role u = "housekeeper") ∧
  (UserStorage.email_free (email c) (users (db w)) = true →
   ∃ u, Login.upsertUser toLowerCase cfg env c w
        = (Return u, with_db w (UserStorage.with_users (db w) (users (db w) ++ [u]))) ∧
        user_id u = id ∧ user_role u = "housekeeper" ∧ user_email u = email c).
Proof.
  intros Hprod Hsub Hnew Hrole.
  rewrite login_upsertUser_unfold, Hsub. simpl. rewrite Hnew.
  rewrite new_user_role_production by done. split.
  - intros u w'. by apply upsertUser_returns_role.
  - intros Hfree. eexists. split; [|split; [|split]].
    + unfold stored in Hnew. apply head_None in Hnew.
      unfold UserStorage.upsertUser, try_catch, UserStorage.insert_or_update,
        mbind, M_bind, get_db, put_db, check, throw, mret, M_ret.
      simpl. rewrite Hsub. simpl. rewrite Hnew.
      destruct (email c) as [e|]; simpl in *; [by rewrite Hfree|done].
    + simpl. by rewrite Hsub.
    + done.
    + simpl. by destruct (email c).
Qed.

(** A newcomer whose e-mail holds the word admin. *)
Lemma first_login_in_production_witness :
  (∀ u w',
     Login.upsertUser (λ s, s) Scenario.production (Example.env 1500000 "x")
       (Scenario.token "u-new" (Some "admin@hotel.com") None) Scenario.world
     = (Return u, w') → user_role u = "housekeeper") ∧
  (UserStorage.email_free (Some "admin@hotel.com") (users (db Scenario.world)) = true →
   ∃ u, Login.upsertUser (λ s, s) Scenario.production (Example.env 1500000 "x")
          (Scenario.token "u-new" (Some "admin@hotel.com") None) Scenario.world
        = (Return u, with_db Scenario.world
                       (UserStorage.with_users (db Scenario.world)
                          (users (db Scenario.world) ++ [u]))) ∧
        user_id u = "u-new" ∧ user_role u = "housekeeper" ∧
        user_email u = Some "admin@hotel.com").
Proof.
  apply (first_login_in_production (λ s, s) Scenario.production
           (Example.env 1500000 "x")
           (Scenario.token "u-new" (Some "admin@hotel.com") None)
           "u-new" Scenario.world);
    [split; discriminate | reflexivity | reflexivity | reflexivity].
Defined.

Lemma upsertUser_returns_stored env v w u w' :
  NoDup (user_id <$> users (db w)) →
  UserStorage.upsertUser env v w = (Return u, w') →
  stored (user_id u) w' = Some u.
Proof.
  intros Hnd Hu. unfold stored.
  destruct (upsertUser_returns _ _ _ _ _ Hu)
    as [(Hf & Hnew & ->)|[(x & Hx & -> & ->)|(x & Hx & -> & ->)]].
  - rewrite filter_app, filter_cons, decide_True by done.
    assert (user_id u = default (uuid env) (UserStorage.uu_id v)) as ->
      by by rewrite Hnew.
    by rewrite Hf.
  - rewrite head_filter_id_fmap by (intros y; by destruct (bool_decide _)).
    assert (user_id x = default (uuid env) (UserStorage.uu_id v)) as Hid.
    { apply head_Some_elem_of, list_elem_of_filter in Hx. tauto. }
    simpl. rewrite Hid, Hx. simpl. by rewrite bool_decide_eq_true_2.
  - rewrite head_filter_id_fmap by (intros y; by destruct (bool_decide _)).
    apply head_Some_elem_of, list_elem_of_filter in Hx as [Hmail Hin].
    change (user_id (UserStorage.email_update env v x)) with (user_id x).
    rewrite NoDup_head_filter_id by done. simpl.
    by rewrite bool_decide_eq_true_2.
Qed.

(** X15. The session that a login produces is bound to a stored record: its
    subject is the id of the record the upsert returned, [getUser] finds
    that very record, and the role check of a later request is decided by
    the role of that record alone. *)
Theorem fresh_session_has_a_record toLowerCase cfg env tokens w session w' :
  NoDup (user_id <$> users (db w)) →
  Login.verify toLowerCase cfg env tokens w = (Return session, w') →
  ∃ u, claims session ≫= sub = Some (user_id u) ∧
       stored (user_id u) w' = Some u ∧
       ∀ allowedRoles, user_id u ≠ EmptyString →
         requireRole allowedRoles session w'
         = (Return (if bool_decide (user_role u ∈ allowedRoles) then inr u
                    else inl (respond 403 "Insufficient permissions")), w').
Proof.
  intros Hnd Hv. unfold Login.verify in Hv.
  destruct (tr_claims tokens) as [c|] eqn:Hc; [|discriminate].
  unfold mbind, M_bind in Hv. rewrite login_upsertUser_unfold in Hv.
  destruct (UserStorage.upsertUser _ _ _) as [[u|] w1] eqn:Hu; [|discriminate].
  injection Hv as <- <-. exists u.
  pose proof (upsertUser_returns_stored _ _ _ _ _ Hnd Hu) as Hstored.
  split; [by simpl; rewrite Hc|]. split; [done|].
  intros allowedRoles Hne.
  unfold requireRole, try_catch, getUser, mbind, M_bind, get_db. simpl.
  rewrite Hc. simpl. rewrite bool_decide_eq_false_2 by done. simpl.
  unfold stored in Hstored. rewrite Hstored.
  by destruct (bool_decide _).
Qed.

(** Sofia logs in; her session then passes the check for a supervisor. *)
Lemma fresh_session_has_a_record_witness :
  ∃ session w',
    Login.verify (λ s, s) Scenario.production (Example.env 1500000 "x")
      {| tr_claims := Some (Scenario.token "u-sofia" None None);
         tr_access_token := Some "at"; tr_refresh_token := None |}
      Scenario.world = (Return session, w') ∧
    ∃ u, claims session ≫= sub = Some (user_id u) ∧
         stored (user_id u) w' = Some u ∧
         ∀ allowedRoles, user_id u ≠ EmptyString →
           requireRole allowedRoles session w'
           = (Return (if bool_decide (user_role u ∈ allowedRoles) then inr u
                      else inl (respond 403 "Insufficient permissions")), w').
Proof.
  eexists _, _. split; [reflexivity|].
  apply (fresh_session_has_a_record (λ s, s) Scenario.production
           (Example.env 1500000 "x")
           {| tr_claims := Some (Scenario.token "u-sofia" None None);
              tr_access_token := Some "at"; tr_refresh_token := None |}
           Scenario.world);
    [eapply (bool_decide_eq_true_1 _); reflexivity | reflexivity].
Defined.

(** ** The browser *)

Lemma handle_events_snoc h evs ev :
  handle_events h (evs ++ [ev]) = handle_event (handle_events h evs) ev.
Proof. unfold handle_events. by rewrite foldl_app. Qed.

Lemma opens_snoc evs ev :
  opens (evs ++ [ev]) = opens evs + (if bool_decide (ev = onopen) then 1 else 0).
Proof.
  unfold opens. rewrite filter_app, length_app, filter_cons.
  destruct (decide (ev = onopen)).
  - by rewrite bool_decide_eq_true_2.
  - by rewrite bool_decide_eq_false_2.
Qed.

(** X16. Whatever events reach the socket hook and in whatever order, the
    counter of attempts never exceeds five, every reconnection is scheduled
    three seconds ahead, and between two openings of the socket at most
    five reconnections are scheduled: after five closes in a row the hook
    gives up.  A close with code 1000 schedules nothing. *)
Theorem reconnect_is_bounded evs :
  let h := handle_events mounted evs in
  (reconnectAttempts h ≤ maxReconnectAttempts)%nat ∧
  Forall (λ delay, delay = reconnectDelay) (scheduled h) ∧
  (length (scheduled h) + (maxReconnectAttempts - reconnectAttempts h)
   ≤ maxReconnectAttempts * (1 + opens evs))%nat ∧
  handle_event h (onclose 1000) = h.
Proof.
  induction evs as [|ev evs IH] using rev_ind.
  - cbv zeta. unfold maxReconnectAttempts, opens. simpl.
    repeat split; [lia | constructor | lia].
  - rewrite handle_events_snoc, opens_snoc. cbv zeta in IH |- *.
    destruct IH as (Hle & Hdelay & Hbound & _).
    set (h := handle_events mounted evs) in *.
    split; [|split; [|split; [|reflexivity]]];
      destruct ev as [|code|]; cbn [handle_event]; try done;
      try rewrite (bool_decide_eq_false_2 (_ = onopen)) by done;
      try rewrite (bool_decide_eq_true_2 (onopen = onopen)) by done;
      try (destruct (bool_decide (code = 1000%Z));
           destruct (bool_decide (reconnectAttempts h < maxReconnectAttempts)%nat)
             eqn:Hlt;
           [| |apply bool_decide_eq_true in Hlt|]);
      cbn [negb andb reconnectAttempts scheduled]; try done;
      try (apply Forall_app; split; [done|by repeat constructor]);
      try rewrite length_app; unfold maxReconnectAttempts in *; simpl; lia.
Qed.

(** X17. The two parts of the timer display add up to the elapsed seconds
    as long as these are not negative, and the seconds are then below
    sixty.  When the clock of the browser is behind the start of the
    session the parts are a minute apart from the elapsed time, unless it is
    a whole number of minutes: the minutes are rounded down and the seconds
    keep the sign. *)
Theorem elapsed_parts (e : Z) :
  ((0 ≤ e)%Z →
   (60 * minutes_of e + seconds_of e = e)%Z ∧ (0 ≤ seconds_of e < 60)%Z) ∧
  ((e < 0)%Z → seconds_of e ≠ 0%Z →
   (60 * minutes_of e + seconds_of e = e - 60)%Z ∧ (-60 < seconds_of e < 0)%Z).
Proof.
  unfold minutes_of, seconds_of.
  split; intros; Z.to_euclidean_division_equations; lia.
Qed.

Lemma elapsed_parts_witness :
  ((60 * minutes_of 125 + seconds_of 125 = 125)%Z ∧ (0 ≤ seconds_of 125 < 60)%Z) ∧
  ((60 * minutes_of (-1) + seconds_of (-1) = -1 - 60)%Z ∧
   (-60 < seconds_of (-1) < 0)%Z).
Proof.
  split.
  - apply (proj1 (elapsed_parts 125)). lia.
  - apply (proj2 (elapsed_parts (-1))); [lia | discriminate].
Defined.

Lemma count_status_cons st r rs :
  count_status st (r :: rs)
  = (if bool_decide (room_status r = st) then 1 else 0) + count_status st rs.
Proof.
  unfold count_status. rewrite filter_cons.
  destruct (decide (room_status r = st)).
  - by rewrite bool_decide_eq_true_2.
  - by rewrite bool_decide_eq_false_2.
Qed.

(** X18. When every room has a status of the enumeration, as the database
    sees to, the five counters of the dashboard count every room once:
    they add up to the number of rooms. *)
Theorem stats_count_every_room rooms :
  statuses_ok rooms →
  dirty (stats rooms) + cleaning (stats rooms) + inspection (stats rooms)
  + clean (stats rooms) + occupied (stats rooms) = length rooms.
Proof.
  unfold stats. simpl. induction rooms as [|r rs IH]; intros Hok; [done|].
  assert (statuses_ok rs) as Hrs.
  { intros x Hx. apply Hok. by right. }
  specialize (IH Hrs). rewrite !count_status_cons.
  assert (room_status r ∈ roomStatusEnum) as Hr by (apply Hok; by left).
  unfold roomStatusEnum in Hr. rewrite !elem_of_cons, elem_of_nil in Hr.
  destruct Hr as [->|[->|[->|[->|[->|[]]]]]]; simpl; lia.
Qed.

Lemma stats_count_every_room_witness :
  dirty (stats (Runtime.rooms Scenario.hotel))
  + cleaning (stats (Runtime.rooms Scenario.hotel))
  + inspection (stats (Runtime.rooms Scenario.hotel))
  + clean (stats (Runtime.rooms Scenario.hotel))
  + occupied (stats (Runtime.rooms Scenario.hotel))
  = length (Runtime.rooms Scenario.hotel).
Proof.
  apply (stats_count_every_room (Runtime.rooms Scenario.hotel)).
  intros r Hr. simpl in Hr. rewrite !elem_of_cons, elem_of_nil in Hr.
  destruct Hr as [->|[->|[->|[]]]]; eapply (bool_decide_eq_true_1 _); reflexivity.
Defined.









(** ** The session after a refresh *)

(** X20. The session that a login binds to the record of another subject
    is bound to it until its first refresh only.  The login writes the id
    of the record into the session; when the session has expired,
    [isAuthenticated] replaces the claims by those of the refreshed token,
    whose subject has no record, and the role check answers 403. *)
Theorem refresh_undoes_the_takeover toLowerCase cfg env later tokens refreshed
    c c' id e holder rt allowedRoles w :
  tr_claims tokens = Some c → sub c = Some id → email c = Some e →
  stored id w = None →
  head (filter (λ u, user_email u = Some e) (users (db w))) = Some holder →
  Login.new_user_role toLowerCase cfg c ∈ userRoleEnum →
  id ≠ EmptyString →
  truthy_number (exp c) = true →
  (default 0 (exp c) < now later `div` 1000)%Z →
  tr_refresh_token tokens = Some rt → rt ≠ EmptyString →
  refreshTokenGrant later rt = Some refreshed →
  tr_claims refreshed = Some c' → sub c' = Some id →
  ∃ session w' again,
    Login.verify toLowerCase cfg env tokens w = (Return session, w') ∧
    claims session ≫= sub = Some (user_id holder) ∧
    isAuthenticated later (Some session) = inr again ∧
    claims again ≫= sub = Some id ∧
    requireRole allowedRoles again w'
    = (Return (inl (respond 403 "Insufficient permissions")), w').
Proof.
  intros Hc Hsub He Hnew Hholder Hrole Hid Hexp Hlate Hrt Hrtne Hgrant Hc' Hsub'.
  destruct (takeover toLowerCase cfg env tokens c id e holder w
              Hc Hsub He Hnew Hholder Hrole)
    as (session & w' & taken & Hv & Hs & _ & _ & _ & Hst & Hrefresh & Hexpires).
  exists session, w', (updateUserSession refreshed).
  split; [done|]. split; [done|]. split; [|split].
  - unfold isAuthenticated. rewrite Hexpires, Hexp, Hrefresh, Hrt. simpl.
    rewrite bool_decide_eq_false_2 by lia.
    rewrite bool_decide_eq_false_2 by done. simpl. by rewrite Hgrant.
  - simpl. by rewrite Hc'.
  - unfold requireRole, try_catch, getUser, mbind, M_bind, get_db. simpl.
    rewrite Hc'. simpl. rewrite Hsub'. simpl.
    rewrite bool_decide_eq_false_2 by done. simpl.
    unfold stored in Hst. by rewrite Hst.
Qed.

Lemma refresh_undoes_the_takeover_witness :
  ∃ session w' again,
    Login.verify (λ s, s) Scenario.production (Example.env 1500000 "x")
      {| tr_claims := Some (Scenario.token "u-new" (Some "ana@hotel.com")
                              (Some "manager"));
         tr_access_token := Some "at"; tr_refresh_token := Some "rt" |}
      Scenario.world = (Return session, w') ∧
    claims session ≫= sub = Some (user_id Example.ana) ∧
    isAuthenticated
      {| now := 2500000; dbNow := 2500000; uuid := "y";
         refreshTokenGrant := λ _,
           Some {| tr_claims := Some (Scenario.token "u-new" (Some "ana@hotel.com")
                                        (Some "manager"));
                   tr_access_token := Some "at2";
                   tr_refresh_token := Some "rt2" |} |}
      (Some session) = inr again ∧
    claims again ≫= sub = Some "u-new" ∧
    requireRole ["manager"] again w'
    = (Return (inl (respond 403 "Insufficient permissions")), w').
Proof.
  apply (refresh_undoes_the_takeover (λ s, s) Scenario.production
           (Example.env 1500000 "x") _ _
           {| tr_claims := Some (Scenario.token "u-new" (Some "ana@hotel.com")
                                   (Some "manager"));
              tr_access_token := Some "at2"; tr_refresh_token := Some "rt2" |}
           (Scenario.token "u-new" (Some "ana@hotel.com") (Some "manager"))
           (Scenario.token "u-new" (Some "ana@hotel.com") (Some "manager"))
           "u-new" "ana@hotel.com" Example.ana "rt" ["manager"] Scenario.world);
    try reflexivity; try discriminate.
  eapply (bool_decide_eq_true_1 _). reflexivity.
Defined.
